(** * SSH syslog plugin (plaso/parsers/syslog_plugins/ssh.py)

    The plugin declares three pyparsing grammars for sshd message bodies and
    a method [_ParseMessage] that turns the tokens of a matched body into
    event data.  The grammars are pyparsing objects; they are kept here as
    values of an inductive type [ParserElement] whose constructors are the
    pyparsing classes the plugin uses, and run by [_parse], which follows
    [ParserElement._parse] of pyparsing 3:

    - every element skips the characters of its [whiteChars] before it
      matches ([preParse]); an element inside a [Combine] does not;
    - [a + b] is the [And] of [a] and [b] and [a | b] their [MatchFirst]; an
      [And] never goes back into an element that has matched;
    - [Word(chars, max=n)] matches as the regular expression [[chars]{1,n}]:
      up to [n] characters, leaving any further ones to the next element;
    - [setResultsName] binds the name to the first token of the element;
    - [parseString] expands tabs, starts at position 0 and does not require
      the end of the input.

    [preParse] is idempotent, so the [callPreParse=False] that an [And] or
    an [Optional] passes to its first element is not represented. *)

From Stdlib Require Import Ascii String List Arith Lia Bool.
From stdpp Require Import base option list strings gmap.

Local Open Scope string_scope.
Local Open Scope list_scope.
Local Open Scope nat_scope.

(** ** Python strings *)

(** A Python [str] is read as the list of its characters; string literals of
    the source are written as Rocq strings and converted with [chars]. *)
Abbreviation chars := list_ascii_of_string.
Abbreviation text := string_of_list_ascii.

Definition TAB : ascii := Ascii.ascii_of_nat 9.
Definition LF : ascii := Ascii.ascii_of_nat 10.
Definition CR : ascii := Ascii.ascii_of_nat 13.
Definition SPACE : ascii := Ascii.ascii_of_nat 32.

(** [c in cs] of Python. *)
Definition char_in (c : ascii) (cs : list ascii) : bool := bool_decide (c ∈ cs).

(** [str.expandtabs()] with the default tab size of 8: the column restarts
    after a line feed or a carriage return. *)
Fixpoint expandtabs_from (column : nat) (s : list ascii) : list ascii :=
  match s with
  | [] => []
  | c :: rest =>
      if Ascii.eqb c TAB then
        let incr := 8 - column mod 8 in
        replicate incr SPACE ++ expandtabs_from (column + incr) rest
      else if Ascii.eqb c LF || Ascii.eqb c CR then c :: expandtabs_from 0 rest
      else c :: expandtabs_from (S column) rest
  end.

Definition expandtabs (s : list ascii) : list ascii := expandtabs_from 0 s.

(** [instring.startswith(m, loc)]. *)
Fixpoint starts_with (m s : list ascii) : bool :=
  match m, s with
  | [], _ => true
  | _ :: _, [] => false
  | a :: m', b :: s' => Ascii.eqb a b && starts_with m' s'
  end.

Definition startswith (instring : list ascii) (m : string) (loc : nat) : bool :=
  starts_with (chars m) (drop loc instring).

(** Number of leading characters of [s] that belong to [cs]. *)
Fixpoint span_in (cs : list ascii) (s : list ascii) : nat :=
  match s with
  | c :: rest => if char_in c cs then S (span_in cs rest) else 0
  | [] => 0
  end.

(** ** pyparsing constants *)

Definition nums : list ascii := chars "0123456789".
Definition alphas : list ascii :=
  chars "ABCDEFGHIJKLMNOPQRSTUVWXYZabcdefghijklmnopqrstuvwxyz".
Definition alphanums : list ascii := alphas ++ nums.
Definition hexnums : list ascii := nums ++ chars "ABCDEFabcdef".
Definition DEFAULT_WHITE_CHARS : list ascii := [SPACE; LF; TAB; CR].
Definition DEFAULT_KEYWORD_CHARS : list ascii := alphanums ++ chars "_$".

(** ** Regular expressions

    The fragment of Python's [re] the address patterns are written in:
    character sets, concatenation, alternation and greedy bounded
    repetition.  [re_ends r s] lists, in the order in which the backtracking
    matcher of [re] finds them, the lengths of the prefixes of [s] that [r]
    matches; [re.match] returns the first. *)
Inductive regex : Type :=
| re_set (cs : list ascii)
| re_seq (a b : regex)
| re_alt (a b : regex)
| re_rep (a : regex) (lo hi : nat).

Fixpoint rep_ends (one : list ascii → list nat) (lo hi : nat) (s : list ascii)
  : list nat :=
  match hi with
  | 0 => [0]
  | S hi' =>
      (n ← one s; (λ k, n + k) <$> rep_ends one (pred lo) hi' (drop n s))
      ++ (if lo is 0 then [0] else [])
  end.

Fixpoint re_ends (r : regex) (s : list ascii) : list nat :=
  match r with
  | re_set cs =>
      match s with
      | c :: _ => if char_in c cs then [1] else []
      | [] => []
      end
  | re_seq a b => n ← re_ends a s; (λ k, n + k) <$> re_ends b (drop n s)
  | re_alt a b => re_ends a s ++ re_ends b s
  | re_rep a lo hi => rep_ends (re_ends a) lo hi s
  end.

Definition re_match (r : regex) (instring : list ascii) (loc : nat) : option nat :=
  (λ n, loc + n) <$> head (re_ends r (drop loc instring)).

(** ** Parse results *)

(** [ParseResults]: the list of matched tokens and the named results
    (an association list in insertion order). *)
Record ParseResults : Type := mkResults {
  _toklist : list string;
  _tokdict : list (string * string)
}.

Definition no_tokens : ParseResults := mkResults [] [].
Definition one_token (t : string) : ParseResults := mkResults [t] [].

(** [resultlist += exprtokens]. *)
Definition add_results (a b : ParseResults) : ParseResults :=
  mkResults (_toklist a ++ _toklist b) (_tokdict a ++ _tokdict b).

(** [ParseResults(tokens, name)] for an element that does not save its
    tokens as a list: the name is bound to the first token, and to nothing
    when there is no token. *)
Definition named_results (name : string) (r : ParseResults) : ParseResults :=
  match _toklist r with
  | t :: _ => mkResults (_toklist r) (_tokdict r ++ [(name, t)])
  | [] => r
  end.

(** [ParseResults.asDict()]: a later binding of a name replaces an earlier one. *)
Definition asDict (r : ParseResults) : gmap string string :=
  fold_left (λ d kv, <[kv.1 := kv.2]> d) (_tokdict r) ∅.

(** ** Parser elements *)

Inductive ParserElement : Type :=
| Literal (match_string : string)
| Keyword (match_string : string)
| Word (init_chars : list ascii) (max : nat)
| Regex (pattern : regex)
| StringEnd
| LineEnd
| And (e1 e2 : ParserElement)
| MatchFirst (e1 e2 : ParserElement)
| Optional (e : ParserElement)
| Combine (e : ParserElement)
| setResultsName (e : ParserElement) (name : string)
| addCondition (e : ParserElement) (fn : list string → bool).

Declare Scope pyparsing_scope.
Delimit Scope pyparsing_scope with pp.
Bind Scope pyparsing_scope with ParserElement.
Infix "+" := And : pyparsing_scope.
Infix "<|>" := MatchFirst (at level 60, right associativity) : pyparsing_scope.

(** [ParserElement.preParse]: skip the characters of [whiteChars]. *)
Definition preParse (white : list ascii) (instring : list ascii) (loc : nat) : nat :=
  loc + span_in white (drop loc instring).

Definition skip_white (skip : bool) (white instring : list ascii) (loc : nat) : nat :=
  if skip then preParse white instring loc else loc.

Definition LINE_END_WHITE_CHARS : list ascii := [SPACE; TAB; CR].

(** [Keyword.parseImpl]: the keyword, not preceded and not followed by an
    identifier character. *)
Definition keyword_at (instring : list ascii) (m : string) (loc : nat) : bool :=
  startswith instring m loc
  && match loc with
     | 0 => true
     | S before =>
         match instring !! before with
         | Some c => negb (char_in c DEFAULT_KEYWORD_CHARS)
         | None => true
         end
     end
  && match instring !! (loc + String.length m) with
     | Some c => negb (char_in c DEFAULT_KEYWORD_CHARS)
     | None => true
     end.

(** [_parse skip e instring loc]: [None] stands for a raised
    [ParseException].  [skip] is the element's [skipWhitespace]; it is
    cleared below a [Combine], whose constructor calls [leaveWhitespace] on
    the expression it wraps. *)
Fixpoint _parse (skip : bool) (e : ParserElement) (instring : list ascii)
    (loc : nat) {struct e} : option (nat * ParseResults) :=
  match e with
  | Literal m =>
      let loc := skip_white skip DEFAULT_WHITE_CHARS instring loc in
      if startswith instring m loc
      then Some (loc + String.length m, one_token m) else None
  | Keyword m =>
      let loc := skip_white skip DEFAULT_WHITE_CHARS instring loc in
      if keyword_at instring m loc
      then Some (loc + String.length m, one_token m) else None
  | Word init_chars max =>
      let loc := skip_white skip DEFAULT_WHITE_CHARS instring loc in
      let run := span_in init_chars (drop loc instring) in
      let n := if max is 0 then run else run `min` max in
      if n is 0 then None
      else Some (loc + n, one_token (text (take n (drop loc instring))))
  | Regex pattern =>
      let loc := skip_white skip DEFAULT_WHITE_CHARS instring loc in
      match re_match pattern instring loc with
      | Some stop =>
          Some (stop, one_token (text (take (stop - loc) (drop loc instring))))
      | None => None
      end
  | StringEnd =>
      let loc := skip_white skip DEFAULT_WHITE_CHARS instring loc in
      if loc <? length instring then None
      else if loc =? length instring then Some (S loc, no_tokens)
      else Some (loc, no_tokens)
  | LineEnd =>
      let loc := skip_white skip LINE_END_WHITE_CHARS instring loc in
      match instring !! loc with
      | Some c => if Ascii.eqb c LF then Some (S loc, one_token (text [LF])) else None
      | None => if loc =? length instring then Some (S loc, no_tokens) else None
      end
  | And e1 e2 =>
      let loc := skip_white skip DEFAULT_WHITE_CHARS instring loc in
      match _parse skip e1 instring loc with
      | Some (loc1, r1) =>
          match _parse skip e2 instring loc1 with
          | Some (loc2, r2) => Some (loc2, add_results r1 r2)
          | None => None
          end
      | None => None
      end
  | MatchFirst e1 e2 =>
      let loc := skip_white skip DEFAULT_WHITE_CHARS instring loc in
      match _parse skip e1 instring loc with
      | Some res => Some res
      | None => _parse skip e2 instring loc
      end
  | Optional e =>
      let loc := skip_white skip DEFAULT_WHITE_CHARS instring loc in
      match _parse skip e instring loc with
      | Some res => Some res
      | None => Some (loc, no_tokens)
      end
  | Combine e =>
      let loc := skip_white skip DEFAULT_WHITE_CHARS instring loc in
      match _parse false e instring loc with
      | Some (loc1, r) =>
          Some (loc1, mkResults [String.concat "" (_toklist r)] (_tokdict r))
      | None => None
      end
  | setResultsName e name =>
      match _parse skip e instring loc with
      | Some (loc1, r) => Some (loc1, named_results name r)
      | None => None
      end
  | addCondition e fn =>
      match _parse skip e instring loc with
      | Some (loc1, r) => if fn (_toklist r) then Some (loc1, r) else None
      | None => None
      end
  end.

(** [ParserElement.parseString(instring)]: tabs are expanded first
    ([keepTabs] is off), parsing starts at 0 and need not reach the end. *)
Definition parseString (e : ParserElement) (instring : string) : option ParseResults :=
  snd <$> _parse true e (expandtabs (chars instring)) 0.

(** [ParserElement.matches(test_string)]: [parseString] with [parseAll]. *)
Definition matches (e : ParserElement) (test_string : string) : bool :=
  let instring := expandtabs (chars test_string) in
  match _parse true e instring 0 with
  | Some (loc, _) => bool_decide (is_Some (_parse true StringEnd instring loc))
  | None => false
  end.

(** ** pyparsing_common: IP addresses *)

(** [expr * n], the [And] of [n] copies of [expr] (pyparsing refuses [n = 0]). *)
Fixpoint times (e : ParserElement) (n : nat) : ParserElement :=
  match n with
  | 0 => e
  | S k => if k is 0 then e else (e + times e k)%pp
  end.

(** [expr * (0, n)], built by [makeOptionalList] in [ParserElement.__mul__]. *)
Fixpoint makeOptionalList (e : ParserElement) (n : nat) : ParserElement :=
  match n with
  | 0 => Optional e
  | S k => if k is 0 then Optional e else Optional (e + makeOptionalList e k)
  end.

Definition re_char (c : string) : regex := re_set (chars c).
Definition re_range (cs : string) : regex := re_set (chars cs).

(** [25[0-5]|2[0-4][0-9]|1?[0-9]{1,2}] *)
Definition re_octet : regex :=
  re_alt (re_seq (re_char "2") (re_seq (re_char "5") (re_range "012345")))
    (re_alt (re_seq (re_char "2") (re_seq (re_range "01234") (re_set nums)))
       (re_seq (re_rep (re_char "1") 0 1) (re_rep (re_set nums) 1 2))).

(** [(octet)(\.(octet)){3}] *)
Definition ipv4_address : ParserElement :=
  Regex (re_seq re_octet (re_rep (re_seq (re_char ".") re_octet) 3 3)).

(** [[0-9a-fA-F]{1,4}] *)
Definition _ipv6_part : ParserElement :=
  Regex (re_rep (re_range "0123456789abcdefABCDEF") 1 4).

Definition _full_ipv6_address : ParserElement :=
  (_ipv6_part + times (Literal ":" + _ipv6_part) 7)%pp.

Definition _short_ipv6_address : ParserElement :=
  addCondition
    (Optional (_ipv6_part + makeOptionalList (Literal ":" + _ipv6_part) 6)
     + Literal "::"
     + Optional (_ipv6_part + makeOptionalList (Literal ":" + _ipv6_part) 6))%pp
    (λ t, length (filter (λ tt, matches _ipv6_part tt = true) t) <? 8).

Definition _mixed_ipv6_address : ParserElement :=
  (Literal "::ffff:" + ipv4_address)%pp.

Definition ipv6_address : ParserElement :=
  Combine (_full_ipv6_address <|> _mixed_ipv6_address <|> _short_ipv6_address)%pp.

(** ** The plugin: grammars of [SSHSyslogPlugin] *)

Definition _AUTHENTICATION_METHOD : ParserElement :=
  (Keyword "password" <|> Keyword "publickey")%pp.

Definition _IP_ADDRESS : ParserElement := (ipv4_address <|> ipv6_address)%pp.

Definition _USERNAME : ParserElement := setResultsName (Word alphanums 0) "username".

Definition _PORT : ParserElement := setResultsName (Word nums 5) "port".

Definition _FINGER_PRINT : ParserElement :=
  setResultsName
    (Combine (Literal "RSA " + Word (chars ":" ++ hexnums) 0)) "fingerprint".

Definition _LOGIN_GRAMMAR : ParserElement :=
  (Literal "Accepted" +
   setResultsName _AUTHENTICATION_METHOD "authentication_method" +
   Literal "for" + _USERNAME +
   Literal "from" + setResultsName _IP_ADDRESS "address" +
   Literal "port" + _PORT +
   setResultsName (Literal "ssh2") "protocol" +
   Optional (Literal ":" + _FINGER_PRINT) +
   StringEnd)%pp.

Definition _FAILED_CONNECTION_GRAMMAR : ParserElement :=
  (Literal "Failed" +
   setResultsName _AUTHENTICATION_METHOD "authentication_method" +
   Literal "for" + _USERNAME +
   Literal "from" + setResultsName _IP_ADDRESS "address" +
   Literal "port" + _PORT +
   StringEnd)%pp.

Definition _OPENED_CONNECTION_GRAMMAR : ParserElement :=
  (Literal "Connection from" +
   setResultsName _IP_ADDRESS "address" +
   Literal "port" + _PORT +
   LineEnd)%pp.

Definition MESSAGE_GRAMMARS : list (string * ParserElement) :=
  [ ("login", _LOGIN_GRAMMAR);
    ("failed_connection", _FAILED_CONNECTION_GRAMMAR);
    ("opened_connection", _OPENED_CONNECTION_GRAMMAR) ].

Definition _SUPPORTED_KEYS : gset string := list_to_set (MESSAGE_GRAMMARS.*1).

(** ** The plugin: event data and [_ParseMessage] *)

Inductive exception : Type :=
| ParseError (message : string)
| UnboundLocalError (name : string).

Section EventData.
(** [dfdatetime.DateTimeValues] is not interpreted by the plugin. *)
Context {DateTimeValues : Type}.

(** [SSHEventData]: the attributes of the class and those it inherits from
    [syslog.SyslogLineEventData]; [None] of Python is [None]. *)
Record SSHEventData : Type := mkSSHEventData {
  data_type : string;
  address : option string;
  authentication_method : option string;
  body : option string;
  fingerprint : option string;
  hostname : option string;
  last_written_time : option DateTimeValues;
  pid : option string;
  protocol : option string;
  port : option string;
  reporter : option string;
  severity : option string;
  username : option string
}.

(** [SSHEventData.__init__]. *)
Definition SSHEventData__init__ (DATA_TYPE : string) : SSHEventData :=
  mkSSHEventData DATA_TYPE None None None None None None None None None None
    None None.

Definition SSHLoginEventData : SSHEventData :=
  SSHEventData__init__ "syslog:ssh:login".
Definition SSHFailedConnectionEventData : SSHEventData :=
  SSHEventData__init__ "syslog:ssh:failed_connection".
Definition SSHOpenedConnectionEventData : SSHEventData :=
  SSHEventData__init__ "syslog:ssh:opened_connection".

(** The parser mediator, as far as the plugin uses it: the event data
    handed to [ProduceEventData], oldest first. *)
Record ParserMediator : Type := mkMediator {
  produced : list SSHEventData
}.

Definition ProduceEventData (parser_mediator : ParserMediator)
    (event_data : SSHEventData) : ParserMediator :=
  mkMediator (produced parser_mediator ++ [event_data]).

(** [SSHSyslogPlugin._ParseMessage]: [inl] is a raised exception, [inr] the
    mediator after the call.  The twelve attribute assignments, each to a
    different attribute, are written as one record. *)
Definition _ParseMessage (parser_mediator : ParserMediator) (key : string)
    (date_time : DateTimeValues) (tokens : gmap string string)
  : exception + ParserMediator :=
  if bool_decide (key ∉ _SUPPORTED_KEYS) then
    inl (ParseError ("Unable to parse message, unknown structure: " +:+ key))
  else
    let bound :=
      if String.eqb key "login" then Some SSHLoginEventData
      else if String.eqb key "failed_connection" then
        Some SSHFailedConnectionEventData
      else if String.eqb key "opened_connection" then
        Some SSHOpenedConnectionEventData
      else None in
    match bound with
    | None => inl (UnboundLocalError "event_data")
    | Some event_data =>
        let event_data :=
          {| data_type := data_type event_data;
             address := tokens !! "address";
             authentication_method := tokens !! "authentication_method";
             body := tokens !! "body";
             fingerprint := tokens !! "fingerprint";
             hostname := tokens !! "hostname";
             last_written_time := Some date_time;
             pid := tokens !! "pid";
             protocol := tokens !! "protocol";
             port := tokens !! "port";
             reporter := tokens !! "reporter";
             severity := tokens !! "severity";
             username := tokens !! "username" |} in
        inr (ProduceEventData parser_mediator event_data)
    end.
End EventData.

Arguments SSHEventData : clear implicits.
Arguments ParserMediator : clear implicits.

(** ** Classification *)

(** Modelled from the spec: the loop over [MESSAGE_GRAMMARS] lives in
    [SyslogPlugin.Process] (plaso/parsers/syslog_plugins/interface.py), which
    is not part of the sources at hand.  Section 4.2 of the specification:
    the grammars are tried in their declared order against the message body,
    the first one that matches wins and yields its category with its token
    mapping; when none matches there is no result. *)
Fixpoint first_match (grammars : list (string * ParserElement)) (body : string)
  : option (string * gmap string string) :=
  match grammars with
  | [] => None
  | (key, grammar) :: rest =>
      match parseString grammar body with
      | Some tokens => Some (key, asDict tokens)
      | None => first_match rest body
      end
  end.

(** Modelled from the spec: [classify], the operation of section 4.2, is
    [first_match] over the [MESSAGE_GRAMMARS] of the plugin. *)
Definition classify (body : string) : option (string * gmap string string) :=
  first_match MESSAGE_GRAMMARS body.

(** ** Vocabulary of the proofs *)

(** The characters a regular expression can consume. *)
Fixpoint re_chars (r : regex) : list ascii :=
  match r with
  | re_set cs => cs
  | re_seq a b | re_alt a b => re_chars a ++ re_chars b
  | re_rep a _ _ => re_chars a
  end.

(** The characters an element can consume or, for a keyword, refuses to be
    followed by. *)
Fixpoint footprint (e : ParserElement) : list ascii :=
  match e with
  | Literal m => chars m
  | Keyword m => chars m ++ DEFAULT_KEYWORD_CHARS
  | Word cs _ => cs
  | Regex r => re_chars r
  | StringEnd | LineEnd => []
  | And a b | MatchFirst a b => footprint a ++ footprint b
  | Optional a | Combine a | setResultsName a _ | addCondition a _ => footprint a
  end.

(** Elements without an end-of-input or end-of-line test. *)
Fixpoint plain (e : ParserElement) : bool :=
  match e with
  | StringEnd | LineEnd => false
  | Literal _ | Keyword _ | Word _ _ | Regex _ => true
  | And a b | MatchFirst a b => plain a && plain b
  | Optional a | Combine a | setResultsName a _ | addCondition a _ => plain a
  end.

(** Elements that never look behind the position they start at. *)
Fixpoint forward (e : ParserElement) : bool :=
  match e with
  | Keyword _ => false
  | Literal _ | Word _ _ | Regex _ | StringEnd | LineEnd => true
  | And a b | MatchFirst a b => forward a && forward b
  | Optional a | Combine a | setResultsName a _ | addCondition a _ => forward a
  end.

(** Elements that skip white space at their start only: tokens, [Combine]d
    expressions, and alternatives of these. *)
Fixpoint lexeme (e : ParserElement) : bool :=
  match e with
  | Literal _ | Keyword _ | Word _ _ | Regex _ | Combine _ => true
  | MatchFirst a b => lexeme a && lexeme b
  | setResultsName a _ | addCondition a _ => lexeme a
  | StringEnd | LineEnd | And _ _ | Optional _ => false
  end.

(** Elements whose first action is to skip the default white space. *)
Fixpoint skips_first (e : ParserElement) : bool :=
  match e with
  | LineEnd => false
  | setResultsName a _ | addCondition a _ => skips_first a
  | _ => true
  end.

(** A parse result moved [n] characters to the right. *)
Definition shift (n : nat) (res : option (nat * ParseResults))
  : option (nat * ParseResults) :=
  (λ lr, (n + lr.1, lr.2)) <$> res.

(** The outcome of [e] at [loc] is the same whatever is appended to [s]. *)
Definition stable_at (e : ParserElement) (s : list ascii) (loc : nat) : Prop :=
  ∀ t, _parse true e (s ++ t) loc = _parse true e s loc.

(** The grammars share their beginning: a first literal, the authentication
    method, the user name, and then the address and the [port] literal. *)
Definition auth_user_from (first : string) : ParserElement :=
  (Literal first +
   setResultsName _AUTHENTICATION_METHOD "authentication_method" +
   Literal "for" + _USERNAME +
   Literal "from")%pp.

Definition addr_port (head : ParserElement) : ParserElement :=
  (head + setResultsName _IP_ADDRESS "address" + Literal "port")%pp.

(** The names an element can bind in its results. *)
Fixpoint result_names (e : ParserElement) : list string :=
  match e with
  | Literal _ | Keyword _ | Word _ _ | Regex _ | StringEnd | LineEnd => []
  | And a b | MatchFirst a b => result_names a ++ result_names b
  | Optional a | Combine a | addCondition a _ => result_names a
  | setResultsName a name => result_names a ++ [name]
  end.

(** The named results as a dictionary. *)
Definition dict_of (d : list (string * string)) : gmap string string :=
  fold_left (λ d kv, <[kv.1 := kv.2]> d) d ∅.

(** The grammars up to the [port] literal, and the login grammar up to the
    protocol. *)
Definition login_to_port : ParserElement := addr_port (auth_user_from "Accepted").
Definition failed_to_port : ParserElement := addr_port (auth_user_from "Failed").
Definition opened_to_port : ParserElement := addr_port (Literal "Connection from").
Definition login_to_ssh2 : ParserElement :=
  (login_to_port + _PORT + setResultsName (Literal "ssh2") "protocol")%pp.

(** Membership in the default white space. *)
Abbreviation white := (λ c : ascii, c ∈ DEFAULT_WHITE_CHARS).

(** Shapes of text used to state where a token stands: white space only, a
    non-empty run without white space, and text that is empty or begins with
    white space. *)
Definition all_white (w : string) : Prop :=
  Forall (λ c, c ∈ DEFAULT_WHITE_CHARS) (chars w).
Definition is_token (tok : string) : Prop :=
  tok ≠ "" ∧ Forall (λ c, c ∉ DEFAULT_WHITE_CHARS) (chars tok).
Definition ends_token (rest : string) : Prop :=
  ∀ c, head (chars rest) = Some c → c ∈ DEFAULT_WHITE_CHARS.

(** ** Vocabulary of the further properties *)

(** The names under which [_ParseMessage] reads the tokens. *)
Definition TOKEN_NAMES : list string :=
  ["address"; "authentication_method"; "body"; "fingerprint"; "hostname";
   "pid"; "protocol"; "port"; "reporter"; "severity"; "username"].

(** The least number of characters a regular expression, and an element,
    consume. *)
Fixpoint re_min (r : regex) : nat :=
  match r with
  | re_set _ => 1
  | re_seq a b => re_min a + re_min b
  | re_alt a b => re_min a `min` re_min b
  | re_rep a lo hi => (lo `min` hi) * re_min a
  end.

Fixpoint min_len (e : ParserElement) : nat :=
  match e with
  | Literal m | Keyword m => String.length m
  | Word _ _ => 1
  | Regex r => re_min r
  | StringEnd | LineEnd | Optional _ => 0
  | And a b => min_len a + min_len b
  | MatchFirst a b => min_len a `min` min_len b
  | Combine a | setResultsName a _ | addCondition a _ => min_len a
  end.

(** The characters of an address: hex digits, colons and dots. *)
Definition ADDRESS_CHARS : list ascii := hexnums ++ chars ":.".

(** Shapes of the tokens, after the sub-parsers of the plugin: [_USERNAME]
    is [Word(alphanums)], [_PORT] is [Word(nums, max=5)], the fingerprint is
    [RSA ] followed by a word of colons and hex digits, and an address is
    made of hex digits, colons and dots. *)
Definition username_shaped (u : string) : Prop :=
  u ≠ "" ∧ Forall (λ c, c ∈ alphanums) (chars u).
Definition port_shaped (p : string) : Prop :=
  1 ≤ String.length p ≤ 5 ∧ Forall (λ c, c ∈ nums) (chars p).
Definition address_shaped (a : string) : Prop :=
  a ≠ "" ∧ Forall (λ c, c ∈ ADDRESS_CHARS) (chars a).
Definition fingerprint_shaped (f : string) : Prop :=
  ∃ h, f = "RSA " +:+ h ∧ h ≠ ""
       ∧ Forall (λ c, c ∈ chars ":" ++ hexnums) (chars h).
Definition method_shaped (m : string) : Prop :=
  m = "password" ∨ m = "publickey".

(** Text that [_IP_ADDRESS], tried on it alone, consumes to its end. *)
Definition is_address (a : string) : bool :=
  match _parse false _IP_ADDRESS (chars a) 0 with
  | Some (l, _) => l =? String.length a
  | None => false
  end.

(** White space that separates two words: at least one character. *)
Definition gap (w : string) : Prop := w ≠ "" ∧ all_white w.

(** The decimal writing of a number below 1000, without leading zeros, and
    four such numbers joined by dots. *)
Definition digit (n : nat) : ascii := ascii_of_nat (48 + n).
Definition octet_text (n : nat) : string :=
  if n <? 10 then text [digit n]
  else if n <? 100 then text [digit (n / 10); digit (n mod 10)]
  else text [digit (n / 100); digit (n / 10 mod 10); digit (n mod 10)].
Definition dotted_quad (o1 o2 o3 o4 : nat) : string :=
  octet_text o1 +:+ "." +:+ octet_text o2 +:+ "." +:+ octet_text o3 +:+ "."
  +:+ octet_text o4.

(** Text whose last character is white space. *)
Definition ends_in_white (t : string) : Prop :=
  ∃ c, last (chars t) = Some c ∧ c ∈ DEFAULT_WHITE_CHARS.

(** * Properties *)

(** ** Characters, spans and prefixes *)

Lemma char_in_true c cs : char_in c cs = true ↔ c ∈ cs.
Proof. unfold char_in. apply bool_decide_eq_true. Qed.

Lemma char_in_false c cs : char_in c cs = false ↔ c ∉ cs.
Proof. unfold char_in. apply bool_decide_eq_false. Qed.

Lemma span_in_le cs s : span_in cs s ≤ length s.
Proof.
  induction s as [|c s IH]; simpl; [lia |].
  destruct (char_in c cs); simpl; lia.
Qed.

Lemma span_in_all cs w s :
  Forall (λ c, c ∈ cs) w → span_in cs (w ++ s) = length w + span_in cs s.
Proof.
  induction 1 as [|c w Hc _ IH]; simpl; [reflexivity |].
  apply char_in_true in Hc. rewrite Hc, IH. reflexivity.
Qed.

Lemma span_in_stop cs c s : c ∉ cs → span_in cs (c :: s) = 0.
Proof. intros Hc. simpl. apply char_in_false in Hc. rewrite Hc. reflexivity. Qed.

Lemma span_in_take cs s : Forall (λ c, c ∈ cs) (take (span_in cs s) s).
Proof.
  induction s as [|c s IH]; simpl; [constructor |].
  destruct (char_in c cs) eqn:Hc; simpl; [| constructor].
  constructor; [apply char_in_true, Hc | exact IH].
Qed.

Lemma span_in_next cs s c : s !! span_in cs s = Some c → c ∉ cs.
Proof.
  induction s as [|d s IH]; simpl; [discriminate |].
  destruct (char_in d cs) eqn:Hd; simpl.
  - exact IH.
  - intros [= <-]. apply char_in_false, Hd.
Qed.

(** The span of a list is found again after anything is appended, as soon
    as it stops before the end of the list. *)
Lemma span_in_app_lt cs s t :
  span_in cs s < length s → span_in cs (s ++ t) = span_in cs s.
Proof.
  induction s as [|c s IH]; simpl; [lia |].
  destruct (char_in c cs); [| reflexivity].
  intros H. rewrite IH by lia. reflexivity.
Qed.


Lemma span_in_split cs s :
  ∃ w rest, s = w ++ rest ∧ length w = span_in cs s
    ∧ Forall (λ c, c ∈ cs) w ∧ (∀ c, head rest = Some c → c ∉ cs).
Proof.
  exists (take (span_in cs s) s), (drop (span_in cs s) s).
  split; [symmetry; apply take_drop |].
  split; [apply length_take_le, span_in_le |].
  split; [apply span_in_take |].
  intros c Hc. apply (span_in_next cs s).
  rewrite head_lookup, lookup_drop in Hc. rewrite <- Hc. f_equal. lia.
Qed.

Lemma starts_with_spec m s : starts_with m s = true ↔ ∃ rest, s = m ++ rest.
Proof.
  revert s. induction m as [|a m IH]; intros s; simpl.
  - split; [intros _; exists s; reflexivity | reflexivity].
  - destruct s as [|b s].
    + split; [discriminate | intros [rest Hr]; discriminate].
    + rewrite andb_true_iff, Ascii.eqb_eq, IH. split.
      * intros [-> [rest ->]]. exists rest. reflexivity.
      * intros [rest [= -> ->]]. split; [reflexivity | exists rest; reflexivity].
Qed.

Lemma starts_with_app m s t :
  length m ≤ length s → starts_with m (s ++ t) = starts_with m s.
Proof.
  revert s. induction m as [|a m IH]; intros s; simpl; [reflexivity |].
  destruct s as [|b s]; simpl; [lia |].
  intros H. rewrite IH by lia. reflexivity.
Qed.

Lemma starts_with_length m s : starts_with m s = true → length m ≤ length s.
Proof.
  intros [rest ->]%starts_with_spec. rewrite length_app. lia.
Qed.

Lemma length_chars (m : string) : length (chars m) = String.length m.
Proof. induction m as [|c m IH]; simpl; [reflexivity | rewrite IH; reflexivity]. Qed.

(** ** Whitespace skipping *)


Lemma preParse_ge wc s loc : loc ≤ preParse wc s loc.
Proof. unfold preParse. lia. Qed.

Lemma preParse_le wc s loc : loc ≤ length s → preParse wc s loc ≤ length s.
Proof.
  unfold preParse. intros H.
  pose proof (span_in_le wc (drop loc s)) as Hs. rewrite length_drop in Hs. lia.
Qed.

Lemma preParse_past wc s loc : length s ≤ loc → preParse wc s loc = loc.
Proof. unfold preParse. intros H. rewrite drop_ge by exact H. simpl. lia. Qed.

Lemma preParse_next wc s loc c : s !! preParse wc s loc = Some c → c ∉ wc.
Proof.
  unfold preParse. rewrite <- lookup_drop. apply span_in_next.
Qed.

Lemma preParse_idem wc s loc : preParse wc s (preParse wc s loc) = preParse wc s loc.
Proof.
  unfold preParse at 1.
  destruct (drop (preParse wc s loc) s) as [|c u] eqn:Hd; simpl; [lia |].
  assert (s !! preParse wc s loc = Some c) as Hc.
  { rewrite <- (Nat.add_0_r (preParse wc s loc)), <- lookup_drop, Hd. reflexivity. }
  apply preParse_next, char_in_false in Hc. rewrite Hc. lia.
Qed.

(** View of [preParse] on the rest of the input: leading white characters
    are skipped up to the first other character. *)
Lemma preParse_drop wc s loc w rest :
  drop loc s = w ++ rest → Forall (λ c, c ∈ wc) w →
  (∀ c, head rest = Some c → c ∉ wc) →
  preParse wc s loc = loc + length w ∧ drop (loc + length w) s = rest.
Proof.
  intros Hd Hw Hr. unfold preParse. rewrite Hd, span_in_all by exact Hw.
  split.
  - destruct rest as [|c rest]; [simpl; lia |].
    rewrite span_in_stop by (apply Hr; reflexivity). lia.
  - rewrite <- drop_drop, Hd. apply drop_app_length.
Qed.

Lemma preParse_split wc s loc :
  ∃ w, drop loc s = w ++ drop (preParse wc s loc) s
       ∧ preParse wc s loc = loc + length w ∧ Forall (λ c, c ∈ wc) w.
Proof.
  destruct (span_in_split wc (drop loc s)) as (w & rest & Hd & Hl & Hw & Hr).
  exists w. unfold preParse. rewrite <- Hl. split; [| split; [reflexivity | exact Hw]].
  rewrite <- drop_drop. rewrite Hd at 2. rewrite drop_app_length. exact Hd.
Qed.

Lemma preParse_app wc s t loc :
  preParse wc s loc < length s → preParse wc (s ++ t) loc = preParse wc s loc.
Proof.
  unfold preParse. intros H.
  rewrite drop_app_le by lia.
  rewrite span_in_app_lt; [reflexivity |]. rewrite length_drop. lia.
Qed.

Lemma drop_lookup_head {A} (s : list A) loc : head (drop loc s) = s !! loc.
Proof. rewrite head_lookup, lookup_drop. f_equal. lia. Qed.

(** ** Regular expressions: bounds and the effect of a foreign character *)

Lemma rep_ends_bound one lo hi :
  (∀ u, Forall (λ n, n ≤ length u) (one u)) →
  ∀ u, Forall (λ n, n ≤ length u) (rep_ends one lo hi u).
Proof.
  intros Hone. revert lo. induction hi as [|hi IH]; intros lo u; simpl.
  - constructor; [lia | constructor].
  - apply Forall_app. split.
    + apply Forall_bind. eapply Forall_impl; [apply Hone |].
      intros n Hn. simpl. apply Forall_fmap.
      eapply Forall_impl; [apply IH |].
      intros k Hk. simpl in *. rewrite length_drop in Hk. lia.
    + destruct lo; constructor; [lia | constructor].
Qed.

Lemma re_ends_bound r u : Forall (λ n, n ≤ length u) (re_ends r u).
Proof.
  revert u. induction r as [cs | a IHa b IHb | a IHa b IHb | a IHa lo hi];
    intros u; simpl.
  - destruct u as [|c u]; [constructor |].
    destruct (char_in c cs); constructor; [simpl; lia | constructor].
  - apply Forall_bind. eapply Forall_impl; [apply IHa |].
    intros n Hn. simpl. apply Forall_fmap.
    eapply Forall_impl; [apply IHb |].
    intros k Hk. simpl in *. rewrite length_drop in Hk. lia.
  - apply Forall_app. split; [apply IHa | apply IHb].
  - apply rep_ends_bound. exact IHa.
Qed.

Lemma rep_ends_cut one lo hi c rest :
  (∀ u, Forall (λ n, n ≤ length u) (one u)) →
  (∀ u, one (u ++ c :: rest) = one u) →
  ∀ u, rep_ends one lo hi (u ++ c :: rest) = rep_ends one lo hi u.
Proof.
  intros Hb Hone. revert lo. induction hi as [|hi IH]; intros lo u; simpl.
  - reflexivity.
  - rewrite Hone. f_equal. apply Forall_bind_ext.
    eapply Forall_impl; [apply Hb |].
    intros n Hn. simpl in *. rewrite drop_app_le by exact Hn. rewrite IH.
    reflexivity.
Qed.

(** A character outside [re_chars r] stops [r] like the end of the input. *)
Lemma re_ends_cut r c rest u :
  c ∉ re_chars r → re_ends r (u ++ c :: rest) = re_ends r u.
Proof.
  revert u. induction r as [cs | a IHa b IHb | a IHa b IHb | a IHa lo hi];
    intros u Hc; simpl in *.
  - destruct u as [|d u]; simpl; [| reflexivity].
    apply char_in_false in Hc. rewrite Hc. reflexivity.
  - rewrite not_elem_of_app in Hc. destruct Hc as [Ha Hb].
    rewrite IHa by exact Ha. apply Forall_bind_ext.
    eapply Forall_impl; [apply re_ends_bound |].
    intros n Hn. simpl in *. rewrite drop_app_le by exact Hn.
    rewrite IHb by exact Hb. reflexivity.
  - rewrite not_elem_of_app in Hc. destruct Hc as [Ha Hb].
    rewrite IHa, IHb by assumption. reflexivity.
  - apply rep_ends_cut; [apply re_ends_bound | intros v; apply IHa, Hc].
Qed.

Lemma span_in_cut cs u c rest : c ∉ cs → span_in cs (u ++ c :: rest) = span_in cs u.
Proof.
  intros Hc. induction u as [|d u IH]; simpl.
  - apply char_in_false in Hc. rewrite Hc. reflexivity.
  - rewrite IH. reflexivity.
Qed.

Lemma starts_with_cut m u c rest :
  c ∉ m → starts_with m (u ++ c :: rest) = starts_with m u.
Proof.
  revert u. induction m as [|a m IH]; intros u Hc; simpl; [reflexivity |].
  rewrite not_elem_of_cons in Hc. destruct Hc as [Hca Hcm].
  destruct u as [|b u]; simpl.
  - destruct (Ascii.eqb_spec a c) as [-> |]; [congruence | reflexivity].
  - rewrite IH by exact Hcm. reflexivity.
Qed.

(** ** Parser elements: positions *)

Lemma skip_white_bounds sk wc s loc :
  loc ≤ length s → loc ≤ skip_white sk wc s loc ≤ length s.
Proof.
  intros H. destruct sk; simpl; [| lia].
  split; [apply preParse_ge | apply preParse_le, H].
Qed.

Lemma head_re_ends_bound r u n : head (re_ends r u) = Some n → n ≤ length u.
Proof.
  intros H. pose proof (re_ends_bound r u) as Hb.
  destruct (re_ends r u) as [|k l]; [discriminate |].
  injection H as ->. apply Forall_cons in Hb. tauto.
Qed.

Lemma re_match_Some r s loc stop :
  re_match r s loc = Some stop →
  ∃ n, head (re_ends r (drop loc s)) = Some n ∧ stop = loc + n
       ∧ n ≤ length s - loc.
Proof.
  unfold re_match. destruct (head (re_ends r (drop loc s))) as [n|] eqn:Hn;
    [| discriminate].
  intros [= <-]. exists n. split; [reflexivity | split; [reflexivity |]].
  apply head_re_ends_bound in Hn. rewrite length_drop in Hn. exact Hn.
Qed.

(** A successful element without end tests stops inside the input. *)
Lemma parse_bound e : plain e = true →
  ∀ sk s loc l r, _parse sk e s loc = Some (l, r) → loc ≤ length s →
  loc ≤ l ≤ length s.
Proof.
  induction e as [m | m | cs mx | re | | | a IHa b IHb | a IHa b IHb | a IHa
                 | a IHa | a IHa name | a IHa fn]; simpl; intros Hp sk s loc l r H Hloc;
    try discriminate;
    try (apply andb_true_iff in Hp as [Hpa Hpb]);
    pose proof (skip_white_bounds sk DEFAULT_WHITE_CHARS s loc Hloc) as Hq;
    set (q := skip_white sk DEFAULT_WHITE_CHARS s loc) in *.
  - destruct (startswith s m q) eqn:Hs; [| discriminate]. injection H as <- _.
    apply starts_with_length in Hs.
    rewrite length_chars, length_drop in Hs. lia.
  - destruct (keyword_at s m q) eqn:Hs; [| discriminate]. injection H as <- _.
    unfold keyword_at in Hs. apply andb_true_iff in Hs as [Hs _].
    apply andb_true_iff in Hs as [Hs _]. apply starts_with_length in Hs.
    rewrite length_chars, length_drop in Hs. lia.
  - pose proof (span_in_le cs (drop q s)) as Hr. rewrite length_drop in Hr.
    destruct (match mx with 0 => _ | S _ => _ end) as [|n] eqn:Hn;
      [discriminate |].
    injection H as <- _. destruct mx; lia.
  - destruct (re_match re s q) as [stop|] eqn:Hm; [| discriminate].
    injection H as <- _. apply re_match_Some in Hm as (n & _ & -> & Hn). lia.
  - destruct (_parse sk a s q) as [[l1 r1]|] eqn:Ha; [| discriminate].
    destruct (_parse sk b s l1) as [[l2 r2]|] eqn:Hb; [| discriminate].
    injection H as <- _.
    apply IHa in Ha; [| exact Hpa | lia]. apply IHb in Hb; [| exact Hpb | lia]. lia.
  - destruct (_parse sk a s q) as [[l1 r1]|] eqn:Ha.
    + injection H as <- _. apply IHa in Ha; [| exact Hpa | lia]. lia.
    + apply IHb in H; [| exact Hpb | lia]. lia.
  - destruct (_parse sk a s q) as [[l1 r1]|] eqn:Ha.
    + injection H as <- _. apply IHa in Ha; [| exact Hp | lia]. lia.
    + injection H as <- _. lia.
  - destruct (_parse false a s q) as [[l1 r1]|] eqn:Ha; [| discriminate].
    injection H as <- _. apply IHa in Ha; [| exact Hp | lia]. lia.
  - destruct (_parse sk a s loc) as [[l1 r1]|] eqn:Ha; [| discriminate].
    injection H as <- _. apply IHa in Ha; [| exact Hp | lia]. lia.
  - destruct (_parse sk a s loc) as [[l1 r1]|] eqn:Ha; [| discriminate].
    destruct (fn (_toklist r1)); [| discriminate].
    injection H as <- _. apply IHa in Ha; [| exact Hp | lia]. lia.
Qed.

(** ** Parser elements: white space is skipped once *)

Lemma parse_preParse_idem e s loc :
  skips_first e = true →
  _parse true e s (preParse DEFAULT_WHITE_CHARS s loc) = _parse true e s loc.
Proof.
  induction e; simpl; intros H; try discriminate;
    rewrite ?preParse_idem; try reflexivity.
  - rewrite IHe by exact H. reflexivity.
  - rewrite IHe by exact H. reflexivity.
Qed.

Lemma parse_And e1 e2 s loc :
  skips_first e1 = true →
  _parse true (e1 + e2) s loc =
  match _parse true e1 s loc with
  | Some (l1, r1) =>
      match _parse true e2 s l1 with
      | Some (l2, r2) => Some (l2, add_results r1 r2)
      | None => None
      end
  | None => None
  end.
Proof. intros H. simpl. rewrite parse_preParse_idem by exact H. reflexivity. Qed.

Lemma parse_And_Some e1 e2 s loc l r :
  skips_first e1 = true →
  _parse true (e1 + e2) s loc = Some (l, r) →
  ∃ l1 r1 r2, _parse true e1 s loc = Some (l1, r1)
    ∧ _parse true e2 s l1 = Some (l, r2) ∧ r = add_results r1 r2.
Proof.
  intros H1. rewrite parse_And by exact H1.
  destruct (_parse true e1 s loc) as [[l1 r1]|]; [| discriminate].
  destruct (_parse true e2 s l1) as [[l2 r2]|] eqn:H2; [| discriminate].
  intros [= <- <-]. exists l1, r1, r2. auto.
Qed.

Lemma parse_And_None_l e1 e2 s loc :
  skips_first e1 = true →
  _parse true e1 s loc = None → _parse true (e1 + e2) s loc = None.
Proof. intros H1 H. rewrite parse_And, H by exact H1. reflexivity. Qed.

Lemma parse_lexeme e s loc :
  lexeme e = true →
  _parse true e s loc = _parse false e s (preParse DEFAULT_WHITE_CHARS s loc).
Proof.
  revert loc. induction e; intros loc; simpl; intros H; try discriminate;
    try reflexivity.
  - apply andb_true_iff in H as [H1 H2].
    rewrite IHe1, IHe2, preParse_idem by assumption. reflexivity.
  - rewrite IHe by exact H. reflexivity.
  - rewrite IHe by exact H. reflexivity.
Qed.

(** ** Parser elements: a foreign character ends the input *)

Lemma keyword_at_cut pre c rest m loc :
  c ∉ chars m ++ DEFAULT_KEYWORD_CHARS → loc ≤ length pre →
  keyword_at (pre ++ c :: rest) m loc = keyword_at pre m loc.
Proof.
  intros Hc Hloc. apply not_elem_of_app in Hc as [Hm Hk].
  unfold keyword_at, startswith.
  rewrite drop_app_le, starts_with_cut by assumption.
  destruct (starts_with (chars m) (drop loc pre)) eqn:Hs; [| reflexivity].
  apply starts_with_length in Hs. rewrite length_chars, length_drop in Hs.
  simpl. f_equal.
  - destruct loc as [|before]; [reflexivity |].
    rewrite lookup_app_l by lia. reflexivity.
  - destruct (decide (loc + String.length m < length pre)) as [Hlt | Hge].
    + rewrite lookup_app_l by exact Hlt. reflexivity.
    + assert (loc + String.length m = length pre) as -> by lia.
      rewrite list_lookup_middle by reflexivity.
      rewrite lookup_ge_None_2 by lia.
      apply char_in_false in Hk. rewrite Hk. reflexivity.
Qed.

(** Where an element without end tests meets a character it cannot consume,
    it behaves as at the end of the input. *)
Lemma parse_cut e : plain e = true →
  ∀ pre c rest loc, c ∉ footprint e → loc ≤ length pre →
  _parse false e (pre ++ c :: rest) loc = _parse false e pre loc.
Proof.
  induction e as [m | m | cs mx | re | | | a IHa b IHb | a IHa b IHb | a IHa
                 | a IHa | a IHa name | a IHa fn]; simpl;
    intros Hp pre c rest loc Hc Hloc; try discriminate;
    try (apply andb_true_iff in Hp as [Hpa Hpb]);
    try (apply not_elem_of_app in Hc as [Hca Hcb]).
  - unfold startswith. rewrite drop_app_le, starts_with_cut by assumption.
    reflexivity.
  - rewrite keyword_at_cut; [reflexivity | | exact Hloc].
    apply not_elem_of_app. auto.
  - rewrite drop_app_le, span_in_cut by assumption.
    pose proof (span_in_le cs (drop loc pre)) as Hr.
    destruct (match mx with 0 => _ | S _ => _ end) as [|n] eqn:Hn;
      [reflexivity |].
    rewrite take_app_le; [reflexivity |]. destruct mx; lia.
  - unfold re_match. rewrite drop_app_le, re_ends_cut by assumption.
    destruct (head (re_ends re (drop loc pre))) as [n|] eqn:Hn; simpl;
      [| reflexivity].
    apply head_re_ends_bound in Hn.
    rewrite take_app_le; [reflexivity | lia].
  - rewrite IHa by assumption.
    destruct (_parse false a pre loc) as [[l1 r1]|] eqn:Ha; [| reflexivity].
    apply parse_bound in Ha; [| exact Hpa | exact Hloc].
    rewrite IHb by (assumption || lia). reflexivity.
  - rewrite IHa, IHb by assumption. reflexivity.
  - rewrite IHa by assumption. reflexivity.
  - rewrite IHa by assumption. reflexivity.
  - rewrite IHa by assumption. reflexivity.
  - rewrite IHa by assumption. reflexivity.
Qed.

(** ** Parser elements: parsing the rest of the input *)

Lemma parse_shift e : plain e = true → forward e = true →
  ∀ s q, _parse false e s q = shift q (_parse false e (drop q s) 0).
Proof.
  induction e as [m | m | cs mx | re | | | a IHa b IHb | a IHa b IHb | a IHa
                 | a IHa | a IHa name | a IHa fn]; simpl;
    intros Hp Hf s q; try discriminate;
    try (apply andb_true_iff in Hp as [Hpa Hpb]);
    try (apply andb_true_iff in Hf as [Hfa Hfb]).
  - unfold startswith. rewrite drop_0.
    destruct (starts_with (chars m) (drop q s)); reflexivity.
  - rewrite drop_0.
    destruct (match mx with 0 => _ | S _ => _ end) as [|n]; reflexivity.
  - unfold re_match. rewrite drop_0.
    destruct (head (re_ends re (drop q s))) as [n|]; simpl; [| reflexivity].
    unfold shift. simpl.
    replace (q + n - q) with n by lia. replace (n - 0) with n by lia.
    reflexivity.
  - rewrite IHa by assumption.
    destruct (_parse false a (drop q s) 0) as [[l1 r1]|]; simpl; [| reflexivity].
    rewrite IHb by assumption. rewrite (IHb Hpb Hfb (drop q s) l1).
    rewrite drop_drop.
    destruct (_parse false b (drop (q + l1) s) 0) as [[l2 r2]|]; simpl;
      [| reflexivity].
    unfold shift. simpl. do 2 f_equal; lia.
  - rewrite IHa by assumption.
    destruct (_parse false a (drop q s) 0) as [[l1 r1]|]; simpl; [reflexivity |].
    apply IHb; assumption.
  - rewrite IHa by assumption.
    destruct (_parse false a (drop q s) 0) as [[l1 r1]|]; simpl; [reflexivity |].
    unfold shift. simpl. do 2 f_equal; lia.
  - rewrite IHa by assumption.
    destruct (_parse false a (drop q s) 0) as [[l1 r1]|]; reflexivity.
  - rewrite IHa by assumption.
    destruct (_parse false a (drop q s) 0) as [[l1 r1]|]; reflexivity.
  - rewrite IHa by assumption.
    destruct (_parse false a (drop q s) 0) as [[l1 r1]|]; simpl; [| reflexivity].
    destruct (fn (_toklist r1)); reflexivity.
Qed.

(** A token [tok] standing after white space [w] and before [R]: an element
    that accepts [tok] alone accepts it there, provided the first character
    of [R] is none it could go on with. *)
Lemma lexeme_run e s loc w tok R r :
  lexeme e = true → plain e = true → forward e = true →
  drop loc s = w ++ tok ++ R → Forall white w →
  (∀ c, head (tok ++ R) = Some c → c ∉ DEFAULT_WHITE_CHARS) →
  (∀ c, head R = Some c → c ∉ footprint e) →
  _parse false e tok 0 = Some (length tok, r) →
  _parse true e s loc = Some (loc + length w + length tok, r)
  ∧ drop (loc + length w + length tok) s = R.
Proof.
  intros Hl Hp Hf Hd Hw Hh HR Htok.
  destruct (preParse_drop DEFAULT_WHITE_CHARS s loc w (tok ++ R) Hd Hw Hh)
    as [Hq Hdq].
  split.
  - rewrite parse_lexeme, Hq, parse_shift, Hdq by assumption.
    destruct R as [|c R].
    + rewrite app_nil_r, Htok. reflexivity.
    + rewrite parse_cut, Htok; [reflexivity | exact Hp | | lia].
      apply HR. reflexivity.
  - rewrite <- drop_drop, Hdq. apply drop_app_length.
Qed.

Lemma literal_run m s loc w R :
  drop loc s = w ++ chars m ++ R → Forall white w →
  (∀ c, head (chars m ++ R) = Some c → c ∉ DEFAULT_WHITE_CHARS) →
  _parse true (Literal m) s loc
    = Some (loc + length w + String.length m, one_token m)
  ∧ drop (loc + length w + String.length m) s = R.
Proof.
  intros Hd Hw Hh.
  destruct (preParse_drop DEFAULT_WHITE_CHARS s loc w (chars m ++ R) Hd Hw Hh)
    as [Hq Hdq].
  split.
  - simpl. rewrite Hq. unfold startswith. rewrite Hdq.
    replace (starts_with (chars m) (chars m ++ R)) with true; [reflexivity |].
    symmetry. apply starts_with_spec. exists R. reflexivity.
  - rewrite <- drop_drop, Hdq, <- length_chars. apply drop_app_length.
Qed.

(** ** Stability under appended input *)

Lemma skip_white_ge sk wc s loc : loc ≤ skip_white sk wc s loc.
Proof. destruct sk; simpl; [apply preParse_ge | lia]. Qed.

Lemma parse_mono e : ∀ sk s loc l r, _parse sk e s loc = Some (l, r) → loc ≤ l.
Proof.
  induction e as [m | m | cs mx | re | | | a IHa b IHb | a IHa b IHb | a IHa
                 | a IHa | a IHa name | a IHa fn]; intros sk s loc l r H;
    pose proof (skip_white_ge sk DEFAULT_WHITE_CHARS s loc) as Hq;
    pose proof (skip_white_ge sk LINE_END_WHITE_CHARS s loc) as Hq';
    simpl in H.
  - destruct (startswith s m _); [| discriminate]. injection H as <- _. lia.
  - destruct (keyword_at s m _); [| discriminate]. injection H as <- _. lia.
  - destruct (match mx with 0 => _ | S _ => _ end) as [|n]; [discriminate |].
    injection H as <- _. lia.
  - destruct (re_match re s _) as [stop|] eqn:Hm; [| discriminate].
    injection H as <- _. apply re_match_Some in Hm as (n & _ & -> & _). lia.
  - destruct (_ <? length s); [discriminate |].
    destruct (_ =? length s); injection H as <- _; lia.
  - destruct (s !! _) as [c|].
    + destruct (Ascii.eqb c LF); [| discriminate]. injection H as <- _. lia.
    + destruct (_ =? length s); [| discriminate]. injection H as <- _. lia.
  - destruct (_parse sk a s _) as [[l1 r1]|] eqn:Ha; [| discriminate].
    destruct (_parse sk b s l1) as [[l2 r2]|] eqn:Hb; [| discriminate].
    injection H as <- _. apply IHa in Ha. apply IHb in Hb. lia.
  - destruct (_parse sk a s _) as [[l1 r1]|] eqn:Ha.
    + injection H as <- _. apply IHa in Ha. lia.
    + apply IHb in H. lia.
  - destruct (_parse sk a s _) as [[l1 r1]|] eqn:Ha.
    + injection H as <- _. apply IHa in Ha. lia.
    + injection H as <- _. lia.
  - destruct (_parse false a s _) as [[l1 r1]|] eqn:Ha; [| discriminate].
    injection H as <- _. apply IHa in Ha. lia.
  - destruct (_parse sk a s loc) as [[l1 r1]|] eqn:Ha; [| discriminate].
    injection H as <- _. apply IHa in Ha. lia.
  - destruct (_parse sk a s loc) as [[l1 r1]|] eqn:Ha; [| discriminate].
    destruct (fn (_toklist r1)); [| discriminate].
    injection H as <- _. apply IHa in Ha. lia.
Qed.

Lemma stable_Literal m s loc l r :
  m ≠ "" → _parse true (Literal m) s loc = Some (l, r) →
  stable_at (Literal m) s loc.
Proof.
  intros Hm H t. simpl in *.
  set (q := preParse DEFAULT_WHITE_CHARS s loc) in *.
  destruct (startswith s m q) eqn:Hs; [| discriminate].
  unfold startswith in Hs. pose proof (starts_with_length _ _ Hs) as Hlen.
  rewrite length_chars, length_drop in Hlen.
  assert (0 < String.length m) by (destruct m; [congruence | simpl; lia]).
  rewrite preParse_app by (fold q; lia). fold q.
  unfold startswith. rewrite drop_app_le by lia.
  rewrite starts_with_app, Hs; [reflexivity |].
  rewrite length_chars, length_drop. lia.
Qed.

(** A lexeme that stopped in front of a character it cannot consume is not
    affected by what comes after that character. *)
Lemma stable_lexeme e s loc l r c :
  lexeme e = true → plain e = true →
  _parse true e s loc = Some (l, r) → s !! l = Some c → c ∉ footprint e →
  stable_at e s loc.
Proof.
  intros Hl Hp H Hc Hf t.
  rewrite !parse_lexeme by exact Hl. rewrite parse_lexeme in H by exact Hl.
  pose proof (parse_mono _ _ _ _ _ _ H) as Hq.
  pose proof (lookup_lt_Some _ _ _ Hc) as Hlt.
  rewrite preParse_app by lia.
  set (q := preParse DEFAULT_WHITE_CHARS s loc) in *.
  rewrite <- (take_drop_middle s l c Hc) at 1 2.
  rewrite <- app_assoc. simpl.
  rewrite !parse_cut; try assumption; try reflexivity;
    rewrite length_take_le; lia.
Qed.

Lemma stable_And e1 e2 s loc :
  skips_first e1 = true → stable_at e1 s loc →
  (∀ l1 r1, _parse true e1 s loc = Some (l1, r1) → stable_at e2 s l1) →
  stable_at (e1 + e2) s loc.
Proof.
  intros H1 Hs1 Hs2 t. rewrite !parse_And by exact H1. rewrite Hs1.
  destruct (_parse true e1 s loc) as [[l1 r1]|] eqn:He1; [| reflexivity].
  rewrite (Hs2 l1 r1 eq_refl). reflexivity.
Qed.

(** The character at which a successful literal was started. *)
Lemma Literal_next m s loc l r :
  m ≠ "" → _parse true (Literal m) s loc = Some (l, r) →
  ∃ c, s !! loc = Some c ∧ (c ∈ DEFAULT_WHITE_CHARS ∨ head (chars m) = Some c).
Proof.
  intros Hm H. simpl in H.
  destruct (preParse_split DEFAULT_WHITE_CHARS s loc) as (w & Hd & Hq & Hw).
  set (q := preParse DEFAULT_WHITE_CHARS s loc) in *.
  destruct (startswith s m q) eqn:Hs; [| discriminate].
  unfold startswith in Hs. apply starts_with_spec in Hs as [rest Hs].
  rewrite Hs in Hd. rewrite <- drop_lookup_head, Hd.
  destruct w as [|c w]; simpl.
  - destruct m as [|c m]; [congruence |]. simpl. eauto.
  - exists c. split; [reflexivity |]. left. apply Forall_cons in Hw. tauto.
Qed.

(** ** The shared beginning of the grammars is stable *)

Lemma Word_next cs name s loc l r :
  _parse true (setResultsName (Word cs 0) name) s loc = Some (l, r) →
  ∀ c, s !! l = Some c → c ∉ cs.
Proof.
  simpl. set (q := preParse DEFAULT_WHITE_CHARS s loc).
  destruct (span_in cs (drop q s)) as [|n] eqn:Hn; [discriminate |].
  intros [= <- _] c Hc. apply (span_in_next cs (drop q s)).
  rewrite lookup_drop, Hn. exact Hc.
Qed.

Lemma keyword_at_next s m q c :
  keyword_at s m q = true → s !! (q + String.length m) = Some c →
  c ∉ DEFAULT_KEYWORD_CHARS.
Proof.
  unfold keyword_at. intros H Hc. apply andb_true_iff in H as [_ H].
  rewrite Hc in H. apply negb_true_iff, char_in_false in H. exact H.
Qed.

Lemma auth_next name s loc l r :
  _parse true (setResultsName _AUTHENTICATION_METHOD name) s loc = Some (l, r) →
  ∀ c, s !! l = Some c → c ∉ DEFAULT_KEYWORD_CHARS.
Proof.
  simpl. rewrite preParse_idem.
  set (q := preParse DEFAULT_WHITE_CHARS s loc).
  destruct (keyword_at s "password" q) eqn:H1.
  - intros [= <- _] c Hc. exact (keyword_at_next _ _ _ _ H1 Hc).
  - destruct (keyword_at s "publickey" q) eqn:H2; [| discriminate].
    intros [= <- _] c Hc. exact (keyword_at_next _ _ _ _ H2 Hc).
Qed.

Lemma auth_footprint name c :
  c ∉ DEFAULT_KEYWORD_CHARS →
  c ∉ footprint (setResultsName _AUTHENTICATION_METHOD name).
Proof.
  intros Hc Hin.
  assert (Forall (λ d, d ∈ DEFAULT_KEYWORD_CHARS)
            (footprint (setResultsName _AUTHENTICATION_METHOD name))) as Hall.
  { apply (bool_decide_unpack _). vm_compute. exact I. }
  rewrite Forall_forall in Hall. exact (Hc (Hall c Hin)).
Qed.

Lemma ip_footprint name c :
  c ∈ DEFAULT_WHITE_CHARS ∨ head (chars "port") = Some c →
  c ∉ footprint (setResultsName _IP_ADDRESS name).
Proof.
  assert (Forall (λ d, d ∉ footprint (setResultsName _IP_ADDRESS name))
            (chars "p" ++ DEFAULT_WHITE_CHARS)) as Hall.
  { apply (bool_decide_unpack _). vm_compute. exact I. }
  rewrite Forall_forall in Hall. intros [Hc | [= <-]]; apply Hall.
  - apply elem_of_app. right. exact Hc.
  - apply elem_of_app. left. simpl. apply list_elem_of_here.
Qed.

(** Uses the outcome [H] of the left part to fix the position at which the
    right part starts. *)
Ltac at_known H :=
  let l := fresh "l" in let r := fresh "r" in let E := fresh "E" in
  intros l r E; rewrite H in E; injection E as <- <-.

Lemma stable_auth_user_from first s loc l r :
  first ≠ "" →
  _parse true (auth_user_from first) s loc = Some (l, r) →
  stable_at (auth_user_from first) s loc.
Proof.
  intros Hfirst H. unfold auth_user_from in *.
  apply parse_And_Some in H as (l4 & r4 & r5 & H & H5 & _); [| reflexivity].
  pose proof H as H1234.
  apply parse_And_Some in H as (l3 & r3 & r4' & H & H4 & _); [| reflexivity].
  pose proof H as H123.
  apply parse_And_Some in H as (l2 & r2 & r3' & H & H3 & _); [| reflexivity].
  pose proof H as H12.
  apply parse_And_Some in H as (l1 & r1 & r2' & H1 & H2 & _); [| reflexivity].
  apply stable_And; [reflexivity | | at_known H1234].
  apply stable_And; [reflexivity | | at_known H123].
  apply stable_And; [reflexivity | | at_known H12].
  apply stable_And; [reflexivity | | at_known H1].
  - exact (stable_Literal _ _ _ _ _ Hfirst H1).
  - destruct (Literal_next "for" _ _ _ _ ltac:(discriminate) H3) as (c & Hc & _).
    refine (stable_lexeme _ _ _ _ _ c _ _ H2 Hc _); [reflexivity .. |].
    apply auth_footprint. exact (auth_next _ _ _ _ _ H2 c Hc).
  - exact (stable_Literal "for" _ _ _ _ ltac:(discriminate) H3).
  - destruct (Literal_next "from" _ _ _ _ ltac:(discriminate) H5) as (c & Hc & _).
    refine (stable_lexeme _ _ _ _ _ c _ _ H4 Hc _); [reflexivity .. |].
    exact (Word_next _ _ _ _ _ _ H4 c Hc).
  - exact (stable_Literal "from" _ _ _ _ ltac:(discriminate) H5).
Qed.

Lemma stable_addr_port head s loc l r :
  skips_first head = true →
  (∀ l0 r0, _parse true head s loc = Some (l0, r0) → stable_at head s loc) →
  _parse true (addr_port head) s loc = Some (l, r) →
  stable_at (addr_port head) s loc.
Proof.
  intros Hsk Hhead H. unfold addr_port in *.
  apply parse_And_Some in H as (l2 & r2 & r3 & H & H3 & _); [| reflexivity].
  pose proof H as H12.
  apply parse_And_Some in H as (l1 & r1 & r2' & H1 & H2 & _); [| exact Hsk].
  apply stable_And; [reflexivity | | at_known H12].
  apply stable_And; [exact Hsk | | at_known H1].
  - exact (Hhead _ _ H1).
  - destruct (Literal_next "port" _ _ _ _ ltac:(discriminate) H3) as (c & Hc & Hc').
    refine (stable_lexeme _ _ _ _ _ c _ _ H2 Hc _); [reflexivity .. |].
    apply ip_footprint. exact Hc'.
  - exact (stable_Literal "port" _ _ _ _ ltac:(discriminate) H3).
Qed.

(** ** The grammars, by their shared beginning *)

Lemma _LOGIN_GRAMMAR_eq :
  _LOGIN_GRAMMAR
  = (login_to_ssh2 + Optional (Literal ":" + _FINGER_PRINT) + StringEnd)%pp.
Proof. reflexivity. Qed.

Lemma _FAILED_CONNECTION_GRAMMAR_eq :
  _FAILED_CONNECTION_GRAMMAR = (failed_to_port + _PORT + StringEnd)%pp.
Proof. reflexivity. Qed.

Lemma _OPENED_CONNECTION_GRAMMAR_eq :
  _OPENED_CONNECTION_GRAMMAR = (opened_to_port + _PORT + LineEnd)%pp.
Proof. reflexivity. Qed.

(** ** Named results *)

Lemma asDict_dict_of r : asDict r = dict_of (_tokdict r).
Proof. reflexivity. Qed.

Lemma fold_insert_lookup_ne (d : list (string * string)) (m : gmap string string) k :
  k ∉ d.*1 → fold_left (λ d kv, <[kv.1 := kv.2]> d) d m !! k = m !! k.
Proof.
  revert m. induction d as [|[k' v] d IH]; intros m Hk; simpl; [reflexivity |].
  simpl in Hk. apply not_elem_of_cons in Hk as [Hne Hk].
  rewrite IH by exact Hk. apply lookup_insert_ne. congruence.
Qed.

Lemma dict_of_app_r d d' k : k ∉ d'.*1 → dict_of (d ++ d') !! k = dict_of d !! k.
Proof.
  intros Hk. unfold dict_of. rewrite fold_left_app.
  apply fold_insert_lookup_ne, Hk.
Qed.

Lemma dict_of_snoc d k v : dict_of (d ++ [(k, v)]) = <[k := v]> (dict_of d).
Proof. unfold dict_of. rewrite fold_left_app. reflexivity. Qed.

Lemma dict_of_absent d k : k ∉ d.*1 → dict_of d !! k = None.
Proof.
  intros Hk. unfold dict_of. rewrite fold_insert_lookup_ne by exact Hk.
  apply lookup_empty.
Qed.

(** The names bound by a successful parse are among [result_names]. *)
Lemma tokdict_names e : ∀ sk s loc l r,
  _parse sk e s loc = Some (l, r) →
  Forall (λ kv, kv.1 ∈ result_names e) (_tokdict r).
Proof.
  induction e as [m | m | cs mx | re | | | a IHa b IHb | a IHa b IHb | a IHa
                 | a IHa | a IHa name | a IHa fn]; intros sk s loc l r H;
    simpl in H.
  - destruct (startswith s m _); [| discriminate]. injection H as _ <-. constructor.
  - destruct (keyword_at s m _); [| discriminate]. injection H as _ <-. constructor.
  - destruct (match mx with 0 => _ | S _ => _ end) as [|n]; [discriminate |].
    injection H as _ <-. constructor.
  - destruct (re_match re s _) as [stop|]; [| discriminate].
    injection H as _ <-. constructor.
  - destruct (_ <? length s); [discriminate |].
    destruct (_ =? length s); injection H as _ <-; constructor.
  - destruct (s !! _) as [c|].
    + destruct (Ascii.eqb c LF); [| discriminate]. injection H as _ <-. constructor.
    + destruct (_ =? length s); [| discriminate]. injection H as _ <-. constructor.
  - destruct (_parse sk a s _) as [[l1 r1]|] eqn:Ha; [| discriminate].
    destruct (_parse sk b s l1) as [[l2 r2]|] eqn:Hb; [| discriminate].
    injection H as _ <-. apply IHa in Ha. apply IHb in Hb.
    simpl. apply Forall_app. split.
    + eapply Forall_impl; [exact Ha |]. intros kv Hkv. apply elem_of_app. auto.
    + eapply Forall_impl; [exact Hb |]. intros kv Hkv. apply elem_of_app. auto.
  - destruct (_parse sk a s _) as [[l1 r1]|] eqn:Ha.
    + injection H as _ <-. apply IHa in Ha. simpl.
      eapply Forall_impl; [exact Ha |]. intros kv Hkv. apply elem_of_app. auto.
    + apply IHb in H. simpl.
      eapply Forall_impl; [exact H |]. intros kv Hkv. apply elem_of_app. auto.
  - destruct (_parse sk a s _) as [[l1 r1]|] eqn:Ha.
    + injection H as _ <-. apply IHa in Ha. exact Ha.
    + injection H as _ <-. constructor.
  - destruct (_parse false a s _) as [[l1 r1]|] eqn:Ha; [| discriminate].
    injection H as _ <-. apply IHa in Ha. exact Ha.
  - destruct (_parse sk a s loc) as [[l1 r1]|] eqn:Ha; [| discriminate].
    injection H as _ <-. apply IHa in Ha. unfold named_results. simpl.
    assert (Forall (λ kv : string * string, kv.1 ∈ result_names a ++ [name])
              (_tokdict r1)) as Ha'.
    { eapply Forall_impl; [exact Ha |]. intros kv Hkv. apply elem_of_app. auto. }
    destruct (_toklist r1); simpl; [exact Ha' |].
    apply Forall_app. split; [exact Ha' |].
    constructor; [| constructor]. apply elem_of_app. right. apply list_elem_of_here.
  - destruct (_parse sk a s loc) as [[l1 r1]|] eqn:Ha; [| discriminate].
    destruct (fn (_toklist r1)); [| discriminate].
    injection H as _ <-. apply IHa in Ha. exact Ha.
Qed.

Lemma tokdict_not_named sk e s loc l r k :
  _parse sk e s loc = Some (l, r) → k ∉ result_names e → k ∉ (_tokdict r).*1.
Proof.
  intros H Hk Hin. apply tokdict_names in H.
  apply list_elem_of_fmap in Hin as ([k' v] & -> & Hin).
  rewrite Forall_forall in H. exact (Hk (H _ Hin)).
Qed.

Lemma asDict_add_l sk e2 s loc l r1 r2 k :
  _parse sk e2 s loc = Some (l, r2) → k ∉ result_names e2 →
  asDict (add_results r1 r2) !! k = asDict r1 !! k.
Proof.
  intros H Hk. rewrite !asDict_dict_of. simpl. apply dict_of_app_r.
  exact (tokdict_not_named _ _ _ _ _ _ _ H Hk).
Qed.

(** ** Tabs *)

Lemma chars_app (a b : string) : chars (a +:+ b) = chars a ++ chars b.
Proof. induction a as [|c a IH]; simpl; [reflexivity | rewrite IH; reflexivity]. Qed.

Lemma white_cases c :
  c ∈ DEFAULT_WHITE_CHARS ↔ c = SPACE ∨ c = LF ∨ c = TAB ∨ c = CR.
Proof.
  unfold DEFAULT_WHITE_CHARS. rewrite !elem_of_cons, elem_of_nil. tauto.
Qed.

Lemma expandtabs_from_cons col c rest :
  expandtabs_from col (c :: rest) =
  if Ascii.eqb c TAB then
    replicate (8 - col mod 8) SPACE
    ++ expandtabs_from (col + (8 - col mod 8)) rest
  else if Ascii.eqb c LF || Ascii.eqb c CR then c :: expandtabs_from 0 rest
  else c :: expandtabs_from (S col) rest.
Proof. reflexivity. Qed.

Lemma expandtabs_from_app col a b :
  ∃ col', expandtabs_from col (a ++ b)
          = expandtabs_from col a ++ expandtabs_from col' b.
Proof.
  revert col. induction a as [|c a IH]; intros col.
  - exists col. reflexivity.
  - rewrite <- app_comm_cons, !expandtabs_from_cons.
    destruct (Ascii.eqb c TAB).
    + destruct (IH (col + (8 - col mod 8))) as [col' ->]. exists col'.
      rewrite app_assoc. reflexivity.
    + destruct (Ascii.eqb c LF || Ascii.eqb c CR).
      * destruct (IH 0) as [col' ->]. exists col'. reflexivity.
      * destruct (IH (S col)) as [col' ->]. exists col'. reflexivity.
Qed.

Lemma expandtabs_from_white col w :
  Forall white w → Forall white (expandtabs_from col w).
Proof.
  intros H. revert col. induction H as [|c w Hc _ IH]; intros col;
    [constructor |].
  rewrite expandtabs_from_cons. destruct (Ascii.eqb c TAB).
  - apply Forall_app. split; [| apply IH].
    apply Forall_replicate. apply white_cases. auto.
  - destruct (Ascii.eqb c LF || Ascii.eqb c CR); constructor; auto.
Qed.

Lemma expandtabs_from_no_tab col a :
  Forall (λ c, c ≠ TAB) a → expandtabs_from col a = a.
Proof.
  intros H. revert col. induction H as [|c a Hc _ IH]; intros col;
    [reflexivity |].
  rewrite expandtabs_from_cons.
  destruct (Ascii.eqb_spec c TAB) as [-> | _]; [congruence |].
  destruct (Ascii.eqb c LF || Ascii.eqb c CR); rewrite IH; reflexivity.
Qed.

Lemma not_white_no_tab a :
  Forall (λ c, c ∉ DEFAULT_WHITE_CHARS) a → Forall (λ c, c ≠ TAB) a.
Proof.
  intros H. eapply Forall_impl; [exact H |].
  intros c Hc ->. apply Hc, white_cases. auto.
Qed.

(** The first character of expanded text is white exactly when the first
    character of the text is (a tab gives at least one space). *)
Lemma expandtabs_from_head col c rest :
  ∃ rest', expandtabs_from col (c :: rest)
           = (if Ascii.eqb c TAB then SPACE else c) :: rest'.
Proof.
  rewrite expandtabs_from_cons. destruct (Ascii.eqb c TAB).
  - assert (∃ n, 8 - col mod 8 = S n) as [n ->].
    { pose proof (Nat.mod_upper_bound col 8). exists (7 - col mod 8). lia. }
    simpl. eauto.
  - destruct (Ascii.eqb c LF || Ascii.eqb c CR); eauto.
Qed.

(** ** The port *)

Lemma span_in_lookup cs u k :
  k < span_in cs u → ∃ c, u !! k = Some c ∧ c ∈ cs.
Proof.
  intros Hk. pose proof (span_in_take cs u) as Hall.
  pose proof (span_in_le cs u) as Hle.
  destruct (lookup_lt_is_Some_2 u k ltac:(lia)) as [c Hc].
  exists c. split; [exact Hc |].
  rewrite Forall_lookup in Hall. apply (Hall k).
  rewrite lookup_take_lt by exact Hk. exact Hc.
Qed.

Lemma span_in_full cs u : Forall (λ c, c ∈ cs) u → span_in cs u = length u.
Proof.
  intros H. rewrite <- (app_nil_r u) at 1. rewrite span_in_all by exact H.
  simpl. lia.
Qed.

Lemma nums_not_white c : c ∈ nums → c ∉ DEFAULT_WHITE_CHARS.
Proof.
  assert (Forall (λ d, d ∉ DEFAULT_WHITE_CHARS) nums) as Hall.
  { apply (bool_decide_unpack _). vm_compute. exact I. }
  rewrite Forall_forall in Hall. apply Hall.
Qed.

Lemma preParse_stay wc s loc c : s !! loc = Some c → c ∉ wc → preParse wc s loc = loc.
Proof.
  intros Hc Hw. unfold preParse.
  rewrite <- drop_lookup_head in Hc.
  destruct (drop loc s) as [|d u]; [discriminate |]. injection Hc as ->.
  rewrite span_in_stop by exact Hw. lia.
Qed.

Lemma Literal_at_other m s loc c :
  s !! loc = Some c → c ∉ DEFAULT_WHITE_CHARS → head (chars m) ≠ Some c →
  m ≠ "" → _parse true (Literal m) s loc = None.
Proof.
  intros Hc Hw Hm Hne. simpl. rewrite (preParse_stay _ _ _ _ Hc Hw).
  unfold startswith. rewrite <- drop_lookup_head in Hc.
  destruct (drop loc s) as [|d u]; [discriminate |]. injection Hc as ->.
  destruct m as [|a m]; [congruence |]. simpl in *.
  destruct (Ascii.eqb_spec a c) as [-> |]; [congruence | reflexivity].
Qed.

Lemma StringEnd_at_char s loc c :
  s !! loc = Some c → c ∉ DEFAULT_WHITE_CHARS → _parse true StringEnd s loc = None.
Proof.
  intros Hc Hw. simpl. rewrite (preParse_stay _ _ _ _ Hc Hw).
  apply lookup_lt_Some in Hc. apply Nat.ltb_lt in Hc. rewrite Hc. reflexivity.
Qed.

Lemma _PORT_alone s :
  _parse false _PORT s 0 = Some (length s, mkResults [text s] [("port", text s)])
  ↔ 1 ≤ length s ≤ 5 ∧ Forall (λ c, c ∈ nums) s.
Proof.
  simpl. rewrite drop_0. pose proof (span_in_le nums s) as Hle. split.
  - destruct (span_in nums s `min` 5) as [|n] eqn:Hn; [discriminate |].
    intros [= Hlen _]. assert (span_in nums s = length s) as Hfull by lia.
    split; [lia |]. pose proof (span_in_take nums s) as Hall.
    rewrite Hfull, take_ge in Hall by lia. exact Hall.
  - intros [Hlen Hall]. rewrite span_in_full by exact Hall.
    rewrite Nat.min_l by lia.
    destruct (length s) as [|n] eqn:Hn; [lia |].
    rewrite <- Hn, take_ge by lia. reflexivity.
Qed.

(** With six digits in front of it, [_PORT] takes five and stops before the
    sixth. *)
Lemma _PORT_six s loc :
  6 ≤ span_in nums (drop (preParse DEFAULT_WHITE_CHARS s loc) s) →
  ∃ r c, _parse true _PORT s loc
         = Some (preParse DEFAULT_WHITE_CHARS s loc + 5, r)
    ∧ s !! (preParse DEFAULT_WHITE_CHARS s loc + 5) = Some c ∧ c ∈ nums.
Proof.
  intros H6. set (q := preParse DEFAULT_WHITE_CHARS s loc) in *.
  destruct (span_in_lookup nums (drop q s) 5 ltac:(lia)) as (c & Hc & Hnum).
  rewrite lookup_drop in Hc.
  eexists _, c. split; [| split; [exact Hc | exact Hnum]].
  simpl. fold q. rewrite Nat.min_r by lia. reflexivity.
Qed.

Lemma parse_setResultsName sk e name s loc :
  _parse sk (setResultsName e name) s loc =
  match _parse sk e s loc with
  | Some (l1, r1) => Some (l1, named_results name r1)
  | None => None
  end.
Proof. reflexivity. Qed.

Lemma six_digits_refuse_login body loc r :
  _parse true login_to_port (expandtabs (chars body)) 0 = Some (loc, r) →
  6 ≤ span_in nums
        (drop (preParse DEFAULT_WHITE_CHARS (expandtabs (chars body)) loc)
           (expandtabs (chars body))) →
  parseString _LOGIN_GRAMMAR body = None.
Proof.
  intros Hhead H6. unfold parseString. set (s := expandtabs (chars body)) in *.
  destruct (_PORT_six s loc H6) as (rp & c & Hport & Hc & Hnum).
  assert (_parse true login_to_ssh2 s 0 = None) as Hnone.
  { unfold login_to_ssh2.
    rewrite parse_And by reflexivity. rewrite parse_And by reflexivity.
    rewrite Hhead, Hport, parse_setResultsName.
    rewrite (Literal_at_other "ssh2" s _ c Hc); [reflexivity | | | discriminate].
    - apply nums_not_white, Hnum.
    - intros [= <-]. revert Hnum. apply (bool_decide_unpack _). vm_compute. exact I. }
  rewrite _LOGIN_GRAMMAR_eq.
  rewrite parse_And_None_l; [reflexivity | reflexivity |].
  apply parse_And_None_l; [reflexivity | exact Hnone].
Qed.

Lemma six_digits_refuse_failed body loc r :
  _parse true failed_to_port (expandtabs (chars body)) 0 = Some (loc, r) →
  6 ≤ span_in nums
        (drop (preParse DEFAULT_WHITE_CHARS (expandtabs (chars body)) loc)
           (expandtabs (chars body))) →
  parseString _FAILED_CONNECTION_GRAMMAR body = None.
Proof.
  intros Hhead H6. unfold parseString. set (s := expandtabs (chars body)) in *.
  destruct (_PORT_six s loc H6) as (rp & c & Hport & Hc & Hnum).
  rewrite _FAILED_CONNECTION_GRAMMAR_eq.
  rewrite parse_And by reflexivity. rewrite parse_And by reflexivity.
  rewrite Hhead, Hport.
  rewrite (StringEnd_at_char s _ c Hc); [reflexivity |].
  apply nums_not_white, Hnum.
Qed.

(** C7: [_PORT] accepts, as a whole string, exactly the strings of one to
    five decimal digits; a body with six or more consecutive digits where the
    port is expected matches neither the login nor the failed_connection
    grammar. *)
Theorem C7_port_one_to_five_digits :
  (∀ s : list ascii,
     _parse false _PORT s 0
       = Some (length s, mkResults [text s] [("port", text s)])
     ↔ 1 ≤ length s ≤ 5 ∧ Forall (λ c, c ∈ nums) s)
  ∧ (∀ body loc r,
       _parse true login_to_port (expandtabs (chars body)) 0 = Some (loc, r) →
       6 ≤ span_in nums
             (drop (preParse DEFAULT_WHITE_CHARS (expandtabs (chars body)) loc)
                (expandtabs (chars body))) →
       parseString _LOGIN_GRAMMAR body = None)
  ∧ (∀ body loc r,
       _parse true failed_to_port (expandtabs (chars body)) 0 = Some (loc, r) →
       6 ≤ span_in nums
             (drop (preParse DEFAULT_WHITE_CHARS (expandtabs (chars body)) loc)
                (expandtabs (chars body))) →
       parseString _FAILED_CONNECTION_GRAMMAR body = None).
Proof.
  split; [exact _PORT_alone |].
  split; [exact six_digits_refuse_login | exact six_digits_refuse_failed].
Qed.

Lemma C7_port_one_to_five_digits_witness :
  (1 ≤ length (chars "65535") ≤ 5 ∧ Forall (λ c, c ∈ nums) (chars "65535"))
  ∧ parseString _LOGIN_GRAMMAR
      "Accepted password for alice from 10.0.0.5 port 123456 ssh2" = None
  ∧ parseString _FAILED_CONNECTION_GRAMMAR
      "Failed password for root from 192.168.1.1 port 123456" = None.
Proof.
  split; [| split].
  - apply (proj1 C7_port_one_to_five_digits (chars "65535")). vm_compute. reflexivity.
  - eapply (proj1 (proj2 C7_port_one_to_five_digits)).
    + vm_compute. reflexivity.
    + vm_compute. lia.
  - eapply (proj2 (proj2 C7_port_one_to_five_digits)).
    + vm_compute. reflexivity.
    + vm_compute. lia.
Defined.

(** ** The authentication method *)

Ltac decide_now := apply (bool_decide_unpack _); vm_compute; exact I.

Lemma parse_auth s loc :
  _parse true _AUTHENTICATION_METHOD s loc =
  if keyword_at s "password" (preParse DEFAULT_WHITE_CHARS s loc)
  then Some (preParse DEFAULT_WHITE_CHARS s loc + 8, one_token "password")
  else if keyword_at s "publickey" (preParse DEFAULT_WHITE_CHARS s loc)
  then Some (preParse DEFAULT_WHITE_CHARS s loc + 9, one_token "publickey")
  else None.
Proof.
  simpl. rewrite preParse_idem.
  destruct (keyword_at s "password" _); [reflexivity |].
  destruct (keyword_at s "publickey" _); reflexivity.
Qed.

Lemma auth_result name s loc l r :
  _parse true (setResultsName _AUTHENTICATION_METHOD name) s loc = Some (l, r) →
  r = mkResults ["password"] [(name, "password")]
  ∨ r = mkResults ["publickey"] [(name, "publickey")].
Proof.
  rewrite parse_setResultsName, parse_auth.
  destruct (keyword_at s "password" _).
  - intros [= _ <-]. left. reflexivity.
  - destruct (keyword_at s "publickey" _); [| discriminate].
    intros [= _ <-]. right. reflexivity.
Qed.

Lemma Literal_result sk m s loc l r :
  _parse sk (Literal m) s loc = Some (l, r) → r = one_token m.
Proof.
  simpl. destruct (startswith s m _); [| discriminate]. intros [= _ <-].
  reflexivity.
Qed.

(** Strips the outermost element of a grammar from a successful parse [H],
    keeping the value of the name [k] that this element does not bind. *)
Ltac peel H :=
  let l := fresh "l" in let ra := fresh "ra" in let rb := fresh "rb" in
  let Hb := fresh "Hb" in
  apply parse_And_Some in H as (l & ra & rb & H & Hb & ->); [| reflexivity];
  rewrite (asDict_add_l _ _ _ _ _ _ _ _ Hb) by decide_now;
  clear Hb.

Lemma auth_first_value first s l r :
  _parse true
    (Literal first + setResultsName _AUTHENTICATION_METHOD "authentication_method")
    s 0 = Some (l, r) →
  asDict r !! "authentication_method" = Some "password"
  ∨ asDict r !! "authentication_method" = Some "publickey".
Proof.
  intros H.
  apply parse_And_Some in H as (l1 & r1 & r2 & H1 & H2 & ->); [| reflexivity].
  apply Literal_result in H1 as ->.
  apply auth_result in H2 as [-> | ->]; [left | right]; reflexivity.
Qed.

Lemma login_auth_value body r :
  parseString _LOGIN_GRAMMAR body = Some r →
  asDict r !! "authentication_method" = Some "password"
  ∨ asDict r !! "authentication_method" = Some "publickey".
Proof.
  unfold parseString.
  destruct (_parse true _LOGIN_GRAMMAR _ 0) as [[l r']|] eqn:H; [| discriminate].
  intros [= <-]. unfold _LOGIN_GRAMMAR in H.
  do 9 peel H. exact (auth_first_value _ _ _ _ H).
Qed.

Lemma failed_auth_value body r :
  parseString _FAILED_CONNECTION_GRAMMAR body = Some r →
  asDict r !! "authentication_method" = Some "password"
  ∨ asDict r !! "authentication_method" = Some "publickey".
Proof.
  unfold parseString.
  destruct (_parse true _FAILED_CONNECTION_GRAMMAR _ 0) as [[l r']|] eqn:H;
    [| discriminate].
  intros [= <-]. unfold _FAILED_CONNECTION_GRAMMAR in H.
  do 7 peel H. exact (auth_first_value _ _ _ _ H).
Qed.

(** A keyword accepted at the start of a longer token leaves the rest of
    the token in front of the literal [for], which then fails. *)
Lemma keyword_then_for s q m tok rest :
  drop q s = tok ++ rest → tok ≠ chars m →
  Forall (λ c, c ∉ DEFAULT_WHITE_CHARS) tok →
  Forall (λ c, c ∉ DEFAULT_WHITE_CHARS) (chars m) →
  (∀ c, head rest = Some c → c ∈ DEFAULT_WHITE_CHARS) →
  keyword_at s m q = true →
  _parse true (Literal "for") s (q + String.length m) = None.
Proof.
  intros Hd Hne Htok Hm Hrest Hk.
  pose proof Hk as Hs. unfold keyword_at in Hs.
  apply andb_true_iff in Hs as [Hs _]. apply andb_true_iff in Hs as [Hs _].
  unfold startswith in Hs. apply starts_with_spec in Hs as [x Hx].
  rewrite Hd in Hx. apply app_eq_app in Hx as [y [[-> ->] | [Hmy ->]]].
  - destruct y as [|c y]; [rewrite app_nil_r in Hne; congruence |].
    assert (s !! (q + String.length m) = Some c) as Hc.
    { rewrite <- lookup_drop, Hd, <- app_assoc, <- length_chars.
      rewrite lookup_app_r by lia. rewrite Nat.sub_diag. reflexivity. }
    apply (Literal_at_other "for" s _ c Hc); [| | discriminate].
    + apply Forall_app in Htok as [_ Htok]. apply Forall_cons in Htok. tauto.
    + intros [= <-]. apply (keyword_at_next _ _ _ _ Hk) in Hc.
      revert Hc. decide_now.
  - destruct y as [|c y]; [rewrite app_nil_r in Hmy; congruence |].
    exfalso. rewrite Hmy in Hm. apply Forall_app in Hm as [_ Hm].
    apply Forall_cons in Hm as [Hc _]. apply Hc, Hrest. reflexivity.
Qed.

Lemma auth_position_rejects first s w0 w1 tok rest :
  s = w0 ++ chars first ++ w1 ++ tok ++ rest →
  Forall white w0 → Forall white w1 →
  (∃ c m, chars first = c :: m ∧ c ∉ DEFAULT_WHITE_CHARS) →
  tok ≠ [] → Forall (λ c, c ∉ DEFAULT_WHITE_CHARS) tok →
  (∀ c, head rest = Some c → c ∈ DEFAULT_WHITE_CHARS) →
  tok ≠ chars "password" → tok ≠ chars "publickey" →
  _parse true
    (Literal first + setResultsName _AUTHENTICATION_METHOD "authentication_method"
     + Literal "for") s 0 = None.
Proof.
  intros -> Hw0 Hw1 (c0 & m0 & Hfirst & Hc0) Hne Htok Hrest Hpw Hpk.
  destruct (literal_run first (w0 ++ chars first ++ w1 ++ tok ++ rest) 0 w0
              (w1 ++ tok ++ rest)) as [H1 Hd1]; [reflexivity | exact Hw0 | |].
  { rewrite Hfirst. simpl. intros c [= <-]. exact Hc0. }
  set (s := w0 ++ chars first ++ w1 ++ tok ++ rest) in *.
  set (l1 := 0 + length w0 + String.length first) in *.
  destruct (preParse_drop DEFAULT_WHITE_CHARS s l1 w1 (tok ++ rest) Hd1 Hw1)
    as [Hq Hdq].
  { destruct tok as [|c tok]; [congruence |]. simpl. intros d [= <-].
    apply Forall_cons in Htok. tauto. }
  rewrite parse_And by reflexivity. rewrite parse_And by reflexivity.
  rewrite H1, parse_setResultsName, parse_auth, Hq.
  destruct (keyword_at s "password" (l1 + length w1)) eqn:K1.
  - pose proof (keyword_then_for s _ "password" tok rest Hdq Hpw Htok
                  ltac:(decide_now) Hrest K1) as Hfor.
    simpl String.length in Hfor. rewrite Hfor. reflexivity.
  - destruct (keyword_at s "publickey" (l1 + length w1)) eqn:K2; [| reflexivity].
    pose proof (keyword_then_for s _ "publickey" tok rest Hdq Hpk Htok
                  ltac:(decide_now) Hrest K2) as Hfor.
    simpl String.length in Hfor. rewrite Hfor. reflexivity.
Qed.

Lemma chars_inj (a b : string) : chars a = chars b → a = b.
Proof.
  intros H. rewrite <- (string_of_list_ascii_of_string a),
    <- (string_of_list_ascii_of_string b), H. reflexivity.
Qed.

Lemma expandtabs_from_head_white col rest :
  (∀ c, head rest = Some c → c ∈ DEFAULT_WHITE_CHARS) →
  ∀ c, head (expandtabs_from col rest) = Some c → c ∈ DEFAULT_WHITE_CHARS.
Proof.
  intros Hrest c. destruct rest as [|d rest]; [discriminate |].
  destruct (expandtabs_from_head col d rest) as [rest' ->]. simpl.
  intros [= <-]. destruct (Ascii.eqb d TAB).
  - apply white_cases. auto.
  - apply Hrest. reflexivity.
Qed.

(** Expanding tabs keeps a token where it stands: the white space around it
    stays white space, the token and the literal in front of it are
    unchanged. *)
Lemma expandtabs_token_position w0 first w1 tok rest :
  Forall white w0 → Forall white w1 → Forall (λ c, c ≠ TAB) first →
  Forall (λ c, c ∉ DEFAULT_WHITE_CHARS) tok →
  (∀ c, head rest = Some c → c ∈ DEFAULT_WHITE_CHARS) →
  ∃ w0' w1' rest',
    expandtabs (w0 ++ first ++ w1 ++ tok ++ rest)
      = w0' ++ first ++ w1' ++ tok ++ rest'
    ∧ Forall white w0' ∧ Forall white w1'
    ∧ (∀ c, head rest' = Some c → c ∈ DEFAULT_WHITE_CHARS).
Proof.
  intros Hw0 Hw1 Hfirst Htok Hrest. unfold expandtabs.
  destruct (expandtabs_from_app 0 w0 (first ++ w1 ++ tok ++ rest)) as [c1 ->].
  destruct (expandtabs_from_app c1 first (w1 ++ tok ++ rest)) as [c2 ->].
  destruct (expandtabs_from_app c2 w1 (tok ++ rest)) as [c3 ->].
  destruct (expandtabs_from_app c3 tok rest) as [c4 ->].
  rewrite (expandtabs_from_no_tab c1 first) by exact Hfirst.
  rewrite (expandtabs_from_no_tab c3 tok) by (apply not_white_no_tab, Htok).
  exists (expandtabs_from 0 w0), (expandtabs_from c2 w1), (expandtabs_from c4 rest).
  split; [reflexivity |].
  split; [apply expandtabs_from_white, Hw0 |].
  split; [apply expandtabs_from_white, Hw1 |].
  apply expandtabs_from_head_white, Hrest.
Qed.

Lemma other_token_rejected first (w0 w1 tok rest : string) :
  (∃ c m, chars first = c :: m ∧ c ∉ DEFAULT_WHITE_CHARS) →
  Forall (λ c, c ≠ TAB) (chars first) →
  all_white w0 → all_white w1 → is_token tok → ends_token rest →
  tok ≠ "password" → tok ≠ "publickey" →
  _parse true
    (Literal first + setResultsName _AUTHENTICATION_METHOD "authentication_method"
     + Literal "for")
    (expandtabs (chars (w0 +:+ first +:+ w1 +:+ tok +:+ rest))) 0 = None.
Proof.
  intros Hfirst Hnotab Hw0 Hw1 [Hne Htok] Hrest Hpw Hpk.
  rewrite !chars_app.
  destruct (expandtabs_token_position (chars w0) (chars first) (chars w1)
              (chars tok) (chars rest) Hw0 Hw1 Hnotab Htok Hrest)
    as (w0' & w1' & rest' & -> & Hw0' & Hw1' & Hrest').
  eapply auth_position_rejects; try reflexivity; try eassumption.
  - destruct tok; [congruence | discriminate].
  - intros H. apply Hpw, chars_inj, H.
  - intros H. apply Hpk, chars_inj, H.
Qed.

(** C6: the authentication method of a matched login or failed_connection
    body is password or publickey, both are accepted, and any other token in
    that position (passwords, for one) makes the grammar fail. *)
Theorem C6_authentication_method_keywords :
  (∀ body r,
     parseString _LOGIN_GRAMMAR body = Some r
     ∨ parseString _FAILED_CONNECTION_GRAMMAR body = Some r →
     asDict r !! "authentication_method" = Some "password"
     ∨ asDict r !! "authentication_method" = Some "publickey")
  ∧ (∀ method, method = "password" ∨ method = "publickey" →
       (asDict <$> parseString _LOGIN_GRAMMAR
          ("Accepted " +:+ method +:+ " for alice from 10.0.0.5 port 22 ssh2"))
         ≫= (.!! "authentication_method") = Some method
       ∧ (asDict <$> parseString _FAILED_CONNECTION_GRAMMAR
            ("Failed " +:+ method +:+ " for root from 192.168.1.1 port 22"))
           ≫= (.!! "authentication_method") = Some method)
  ∧ (∀ w0 w1 tok rest : string,
       all_white w0 → all_white w1 → is_token tok → ends_token rest →
       tok ≠ "password" → tok ≠ "publickey" →
       parseString _LOGIN_GRAMMAR (w0 +:+ "Accepted" +:+ w1 +:+ tok +:+ rest)
         = None
       ∧ parseString _FAILED_CONNECTION_GRAMMAR
           (w0 +:+ "Failed" +:+ w1 +:+ tok +:+ rest) = None).
Proof.
  split; [| split].
  - intros body r [H | H];
      [exact (login_auth_value _ _ H) | exact (failed_auth_value _ _ H)].
  - intros method [-> | ->]; split; vm_compute; reflexivity.
  - intros w0 w1 tok rest Hw0 Hw1 Htok Hrest Hpw Hpk. split.
    + unfold parseString, _LOGIN_GRAMMAR.
      do 8 (rewrite parse_And_None_l; [reflexivity | reflexivity |]).
      apply other_token_rejected; try assumption;
        [eexists _, _; split; [reflexivity | decide_now] | decide_now].
    + unfold parseString, _FAILED_CONNECTION_GRAMMAR.
      do 6 (rewrite parse_And_None_l; [reflexivity | reflexivity |]).
      apply other_token_rejected; try assumption;
        [eexists _, _; split; [reflexivity | decide_now] | decide_now].
Qed.

Lemma C6_authentication_method_keywords_witness :
  (asDict
     (mkResults
        ["Accepted"; "password"; "for"; "alice"; "from"; "10.0.0.5"; "port";
         "22"; "ssh2"]
        [("authentication_method", "password"); ("username", "alice");
         ("address", "10.0.0.5"); ("port", "22"); ("protocol", "ssh2")])
     !! "authentication_method" = Some "password"
   ∨ asDict
       (mkResults
          ["Accepted"; "password"; "for"; "alice"; "from"; "10.0.0.5"; "port";
           "22"; "ssh2"]
          [("authentication_method", "password"); ("username", "alice");
           ("address", "10.0.0.5"); ("port", "22"); ("protocol", "ssh2")])
       !! "authentication_method" = Some "publickey")
  ∧ ((asDict <$> parseString _LOGIN_GRAMMAR
        ("Accepted " +:+ "publickey" +:+ " for alice from 10.0.0.5 port 22 ssh2"))
       ≫= (.!! "authentication_method") = Some "publickey"
     ∧ (asDict <$> parseString _FAILED_CONNECTION_GRAMMAR
          ("Failed " +:+ "publickey" +:+ " for root from 192.168.1.1 port 22"))
         ≫= (.!! "authentication_method") = Some "publickey")
  ∧ (parseString _LOGIN_GRAMMAR
       ("" +:+ "Accepted" +:+ " " +:+ "passwords"
        +:+ " for alice from 10.0.0.5 port 22 ssh2") = None
     ∧ parseString _FAILED_CONNECTION_GRAMMAR
         ("" +:+ "Failed" +:+ " " +:+ "passwords"
          +:+ " for alice from 10.0.0.5 port 22 ssh2") = None).
Proof.
  split; [| split].
  - apply (proj1 C6_authentication_method_keywords
             "Accepted password for alice from 10.0.0.5 port 22 ssh2").
    left. vm_compute. reflexivity.
  - apply (proj1 (proj2 C6_authentication_method_keywords)). right. reflexivity.
  - apply (proj2 (proj2 C6_authentication_method_keywords)).
    + constructor.
    + unfold all_white. decide_now.
    + split; [discriminate | decide_now].
    + intros c [= <-]. decide_now.
    + discriminate.
    + discriminate.
Defined.

(** ** The opened_connection grammar and white space *)

Lemma head_after_white w x R c :
  Forall white w → head (w ++ x :: R) = Some c →
  c ∈ DEFAULT_WHITE_CHARS ∨ c = x.
Proof.
  intros Hw. destruct w as [|d w]; simpl; intros [= <-].
  - right. reflexivity.
  - left. apply Forall_cons in Hw. tauto.
Qed.

Lemma head_white w c : Forall white w → head w = Some c → c ∈ DEFAULT_WHITE_CHARS.
Proof.
  intros Hw. destruct w as [|d w]; simpl; intros [= <-].
  apply Forall_cons in Hw. tauto.
Qed.

(** At the end of the input, or with nothing but white space left, the end
    of a line is found. *)
Lemma LineEnd_white s loc :
  Forall white (drop loc s) → loc ≤ length s →
  ∃ l toks, _parse true LineEnd s loc = Some (l, mkResults toks []).
Proof.
  intros Hw Hloc. simpl.
  pose proof (preParse_ge LINE_END_WHITE_CHARS s loc) as Hge.
  pose proof (preParse_le LINE_END_WHITE_CHARS s loc Hloc) as Hle.
  set (q := preParse LINE_END_WHITE_CHARS s loc) in *.
  destruct (s !! q) as [c|] eqn:Hc.
  - pose proof (preParse_next _ _ _ _ Hc) as Hnot.
    assert (c ∈ DEFAULT_WHITE_CHARS) as Hwc.
    { rewrite Forall_lookup in Hw. apply (Hw (q - loc)).
      rewrite lookup_drop. replace (loc + (q - loc)) with q by lia. exact Hc. }
    apply white_cases in Hwc as [-> | [-> | [-> | ->]]];
      try (exfalso; apply Hnot; decide_now).
    eexists _, _. reflexivity.
  - apply lookup_ge_None_1 in Hc.
    replace (q =? length s) with true by (symmetry; apply Nat.eqb_eq; lia).
    eexists _, _. reflexivity.
Qed.

Lemma opened_tolerates_white w1 w2 w3 w4 :
  Forall white w1 → Forall white w2 → Forall white w3 → Forall white w4 →
  ∃ l toks,
    _parse true _OPENED_CONNECTION_GRAMMAR
      (chars "Connection from" ++ w1 ++ chars "10.0.0.5" ++ w2
       ++ chars "port" ++ w3 ++ chars "22" ++ w4) 0
    = Some (l, mkResults toks [("address", "10.0.0.5"); ("port", "22")]).
Proof.
  intros Hw1 Hw2 Hw3 Hw4.
  set (s := chars "Connection from" ++ _).
  destruct (literal_run "Connection from" s 0 []
              (w1 ++ chars "10.0.0.5" ++ w2 ++ chars "port" ++ w3
               ++ chars "22" ++ w4)) as [H1 D1];
    [reflexivity | constructor | intros c [= <-]; decide_now |].
  destruct (lexeme_run (setResultsName _IP_ADDRESS "address") s _ w1
              (chars "10.0.0.5") (w2 ++ chars "port" ++ w3 ++ chars "22" ++ w4)
              (mkResults ["10.0.0.5"] [("address", "10.0.0.5")])
              eq_refl eq_refl eq_refl D1 Hw1) as [H2 D2].
  { intros c [= <-]. decide_now. }
  { intros c Hc. apply ip_footprint.
    apply (head_after_white _ _ _ _ Hw2) in Hc as [Hc | ->]; [left | right];
      [exact Hc | reflexivity]. }
  { vm_compute. reflexivity. }
  destruct (literal_run "port" s _ w2 (w3 ++ chars "22" ++ w4) D2 Hw2)
    as [H3 D3]; [intros c [= <-]; decide_now |].
  destruct (lexeme_run _PORT s _ w3 (chars "22") w4
              (mkResults ["22"] [("port", "22")])
              eq_refl eq_refl eq_refl D3 Hw3) as [H4 D4].
  { intros c [= <-]. decide_now. }
  { intros c Hc Hn. apply (nums_not_white c Hn), (head_white w4 c Hw4 Hc). }
  { vm_compute. reflexivity. }
  destruct (LineEnd_white s _ ltac:(rewrite D4; exact Hw4)) as (l & toks & H5).
  { apply parse_bound in H4; [lia | reflexivity |].
    apply parse_bound in H3; [lia | reflexivity |].
    apply parse_bound in H2; [lia | reflexivity |].
    apply parse_bound in H1; [lia | reflexivity | lia]. }
  unfold _OPENED_CONNECTION_GRAMMAR.
  rewrite parse_And by reflexivity. rewrite parse_And by reflexivity.
  rewrite parse_And by reflexivity. rewrite parse_And by reflexivity.
  rewrite H1, H2, H3, H4, H5. eexists _, _. reflexivity.
Qed.

Lemma expandtabs_opened_white (w1 w2 w3 w4 : string) :
  all_white w1 → all_white w2 → all_white w3 → all_white w4 →
  ∃ w1' w2' w3' w4',
    expandtabs (chars ("Connection from" +:+ w1 +:+ "10.0.0.5" +:+ w2
                       +:+ "port" +:+ w3 +:+ "22" +:+ w4))
    = chars "Connection from" ++ w1' ++ chars "10.0.0.5" ++ w2'
      ++ chars "port" ++ w3' ++ chars "22" ++ w4'
    ∧ Forall white w1' ∧ Forall white w2' ∧ Forall white w3' ∧ Forall white w4'.
Proof.
  intros H1 H2 H3 H4. rewrite !chars_app. unfold expandtabs.
  destruct (expandtabs_from_app 0 (chars "Connection from")
              (chars w1 ++ chars "10.0.0.5" ++ chars w2 ++ chars "port"
               ++ chars w3 ++ chars "22" ++ chars w4)) as [c1 ->].
  destruct (expandtabs_from_app c1 (chars w1)
              (chars "10.0.0.5" ++ chars w2 ++ chars "port"
               ++ chars w3 ++ chars "22" ++ chars w4)) as [c2 ->].
  destruct (expandtabs_from_app c2 (chars "10.0.0.5")
              (chars w2 ++ chars "port" ++ chars w3 ++ chars "22" ++ chars w4))
    as [c3 ->].
  destruct (expandtabs_from_app c3 (chars w2)
              (chars "port" ++ chars w3 ++ chars "22" ++ chars w4)) as [c4 ->].
  destruct (expandtabs_from_app c4 (chars "port")
              (chars w3 ++ chars "22" ++ chars w4)) as [c5 ->].
  destruct (expandtabs_from_app c5 (chars w3) (chars "22" ++ chars w4))
    as [c6 ->].
  destruct (expandtabs_from_app c6 (chars "22") (chars w4)) as [c7 ->].
  rewrite (expandtabs_from_no_tab 0 (chars "Connection from")) by decide_now.
  rewrite (expandtabs_from_no_tab c2 (chars "10.0.0.5")) by decide_now.
  rewrite (expandtabs_from_no_tab c4 (chars "port")) by decide_now.
  rewrite (expandtabs_from_no_tab c6 (chars "22")) by decide_now.
  eexists _, _, _, _. split; [reflexivity |].
  repeat split; apply expandtabs_from_white; assumption.
Qed.

Lemma Connection_column (x : list ascii) :
  expandtabs (chars "Connection" ++ x)
  = chars "Connection" ++ expandtabs_from 10 x.
Proof. reflexivity. Qed.

(** With anything but one space between them, the two words are not the
    literal: after [Connection], which ends in column 10, a tab becomes six
    spaces. *)
Lemma Connection_from_apart (sep rest : string) :
  all_white sep → sep ≠ " " →
  _parse true (Literal "Connection from")
    (expandtabs (chars ("Connection" +:+ sep +:+ "from" +:+ rest))) 0 = None.
Proof.
  intros Hw Hne. rewrite !chars_app, Connection_column.
  destruct sep as [|x sep]; [vm_compute; reflexivity |].
  unfold all_white in Hw. simpl chars in Hw.
  apply Forall_cons in Hw as [Hx Hw].
  apply white_cases in Hx as [-> | [-> | [-> | ->]]];
    try (vm_compute; reflexivity).
  destruct sep as [|y sep]; [exfalso; apply Hne; reflexivity |].
  simpl chars in Hw. apply Forall_cons in Hw as [Hy _].
  apply white_cases in Hy as [-> | [-> | [-> | ->]]]; vm_compute; reflexivity.
Qed.

(** C10: the two words of [Connection from] must be exactly one space apart:
    with any other white space between them, none included (so two spaces,
    a tab, a line break, or the words run together), the grammar fails,
    whatever follows; while any white space between the other elements of the
    grammar is accepted. *)
Theorem C10_connection_from_single_space :
  (∀ sep rest : string,
     all_white sep → sep ≠ " " →
     parseString _OPENED_CONNECTION_GRAMMAR
       ("Connection" +:+ sep +:+ "from" +:+ rest) = None)
  ∧ (∀ rest : string,
       parseString _OPENED_CONNECTION_GRAMMAR ("Connection  from" +:+ rest) = None
       ∧ parseString _OPENED_CONNECTION_GRAMMAR
           ("Connection" +:+ String TAB "from" +:+ rest) = None)
  ∧ (∀ w1 w2 w3 w4 : string,
       all_white w1 → all_white w2 → all_white w3 → all_white w4 →
       ∃ r,
         parseString _OPENED_CONNECTION_GRAMMAR
           ("Connection from" +:+ w1 +:+ "10.0.0.5" +:+ w2 +:+ "port" +:+ w3
            +:+ "22" +:+ w4) = Some r
         ∧ asDict r !! "address" = Some "10.0.0.5"
         ∧ asDict r !! "port" = Some "22").
Proof.
  assert (∀ sep rest : string,
            all_white sep → sep ≠ " " →
            parseString _OPENED_CONNECTION_GRAMMAR
              ("Connection" +:+ sep +:+ "from" +:+ rest) = None) as Hapart.
  { intros sep rest Hw Hne. unfold parseString, _OPENED_CONNECTION_GRAMMAR.
    do 4 (rewrite parse_And_None_l; [reflexivity | reflexivity |]).
    apply Connection_from_apart; assumption. }
  split; [exact Hapart |]. split.
  - intros rest. split.
    + apply (Hapart "  " rest); [unfold all_white; decide_now | discriminate].
    + apply (Hapart (String TAB "") rest);
        [unfold all_white; decide_now | discriminate].
  - intros w1 w2 w3 w4 H1 H2 H3 H4. unfold parseString.
    destruct (expandtabs_opened_white w1 w2 w3 w4 H1 H2 H3 H4)
      as (w1' & w2' & w3' & w4' & -> & H1' & H2' & H3' & H4').
    destruct (opened_tolerates_white w1' w2' w3' w4' H1' H2' H3' H4')
      as (l & toks & ->).
    eexists. split; [reflexivity |]. split; reflexivity.
Qed.

Lemma C10_connection_from_single_space_witness :
  parseString _OPENED_CONNECTION_GRAMMAR
    ("Connection" +:+ "" +:+ "from" +:+ " 10.0.0.5 port 22") = None
  ∧ parseString _OPENED_CONNECTION_GRAMMAR
      ("Connection" +:+ String LF "" +:+ "from" +:+ " 10.0.0.5 port 22") = None
  ∧ parseString _OPENED_CONNECTION_GRAMMAR
      ("Connection" +:+ "   " +:+ "from" +:+ " 10.0.0.5 port 22") = None
  ∧ ∃ r,
      parseString _OPENED_CONNECTION_GRAMMAR
        ("Connection from" +:+ "  " +:+ "10.0.0.5" +:+ String TAB ""
         +:+ "port" +:+ String LF " " +:+ "22" +:+ " ") = Some r
      ∧ asDict r !! "address" = Some "10.0.0.5"
      ∧ asDict r !! "port" = Some "22".
Proof.
  split; [| split; [| split]].
  - apply (proj1 C10_connection_from_single_space);
      [unfold all_white; decide_now | discriminate].
  - apply (proj1 C10_connection_from_single_space);
      [unfold all_white; decide_now | discriminate].
  - apply (proj1 C10_connection_from_single_space);
      [unfold all_white; decide_now | discriminate].
  - apply (proj2 (proj2 C10_connection_from_single_space));
      unfold all_white; decide_now.
Defined.

(** ** The optional fingerprint of the login grammar *)

Lemma parse_Optional e s loc :
  skips_first e = true →
  _parse true (Optional e) s loc =
  match _parse true e s loc with
  | Some res => Some res
  | None => Some (preParse DEFAULT_WHITE_CHARS s loc, no_tokens)
  end.
Proof. intros H. simpl. rewrite parse_preParse_idem by exact H. reflexivity. Qed.

Lemma Literal_at_end m s loc :
  m ≠ "" → length s ≤ loc → _parse true (Literal m) s loc = None.
Proof.
  intros Hm Hloc. simpl. rewrite preParse_past by exact Hloc.
  unfold startswith. rewrite drop_ge by exact Hloc.
  destruct m; [congruence | reflexivity].
Qed.

Lemma StringEnd_at_end s :
  _parse true StringEnd s (length s) = Some (S (length s), no_tokens).
Proof.
  simpl. rewrite preParse_past by lia.
  rewrite Nat.ltb_irrefl, Nat.eqb_refl. reflexivity.
Qed.

Lemma StringEnd_white s loc :
  loc ≤ length s → Forall white (drop loc s) →
  _parse true StringEnd s loc = Some (S (length s), no_tokens).
Proof.
  intros Hloc Hw. simpl.
  destruct (preParse_drop DEFAULT_WHITE_CHARS s loc (drop loc s) []) as [Hq _];
    [symmetry; apply app_nil_r | exact Hw | discriminate |].
  rewrite Hq, length_drop. replace (loc + (length s - loc)) with (length s) by lia.
  rewrite Nat.ltb_irrefl, Nat.eqb_refl. reflexivity.
Qed.

Lemma stable_setResultsName e name s loc :
  stable_at e s loc → stable_at (setResultsName e name) s loc.
Proof. intros H t. rewrite !parse_setResultsName, H. reflexivity. Qed.

Lemma stable_login_to_port s l r :
  _parse true login_to_port s 0 = Some (l, r) → stable_at login_to_port s 0.
Proof.
  apply stable_addr_port; [reflexivity |].
  intros l0 r0. apply stable_auth_user_from. discriminate.
Qed.

Lemma stable_failed_to_port s l r :
  _parse true failed_to_port s 0 = Some (l, r) → stable_at failed_to_port s 0.
Proof.
  apply stable_addr_port; [reflexivity |].
  intros l0 r0. apply stable_auth_user_from. discriminate.
Qed.

Lemma stable_opened_to_port s l r :
  _parse true opened_to_port s 0 = Some (l, r) → stable_at opened_to_port s 0.
Proof.
  apply stable_addr_port; [reflexivity |].
  intros l0 r0. apply stable_Literal. discriminate.
Qed.

Lemma stable_login_to_ssh2 s l r :
  _parse true login_to_ssh2 s 0 = Some (l, r) → stable_at login_to_ssh2 s 0.
Proof.
  intros H. unfold login_to_ssh2 in *.
  apply parse_And_Some in H as (l2 & r2 & r3 & H & H3 & _); [| reflexivity].
  pose proof H as H12.
  apply parse_And_Some in H as (l1 & r1 & r2' & H1 & H2 & _); [| reflexivity].
  rewrite parse_setResultsName in H3.
  destruct (_parse true (Literal "ssh2") s l2) as [[l3 r3']|] eqn:H3';
    [| discriminate].
  apply stable_And; [reflexivity | | at_known H12].
  apply stable_And; [reflexivity | | at_known H1].
  - exact (stable_login_to_port _ _ _ H1).
  - destruct (Literal_next "ssh2" _ _ _ _ ltac:(discriminate) H3')
      as (c & Hc & Hc').
    refine (stable_lexeme _ _ _ _ _ c _ _ H2 Hc _); [reflexivity .. |].
    assert (Forall (λ d, d ∉ footprint _PORT) (chars "s" ++ DEFAULT_WHITE_CHARS))
      as Hall by decide_now.
    rewrite Forall_forall in Hall. apply Hall, elem_of_app.
    destruct Hc' as [Hc' | [= <-]]; [right; exact Hc' | left].
    apply list_elem_of_here.
  - apply stable_setResultsName.
    exact (stable_Literal "ssh2" _ _ _ _ ltac:(discriminate) H3').
Qed.

(** The fingerprint element on its own text. *)
Lemma _FINGER_PRINT_alone (h : string) :
  h ≠ "" → Forall (λ c, c ∈ chars ":" ++ hexnums) (chars h) →
  _parse false _FINGER_PRINT (chars "RSA " ++ chars h) 0
  = Some (length (chars "RSA " ++ chars h),
          mkResults ["RSA " +:+ h] [("fingerprint", "RSA " +:+ h)]).
Proof.
  intros Hne Hall.
  assert (0 < length (chars h)) as Hlen.
  { destruct h; [congruence | simpl; lia]. }
  unfold _FINGER_PRINT. rewrite parse_setResultsName.
  cbn [_parse skip_white].
  replace (startswith (chars "RSA " ++ chars h) "RSA " 0) with true
    by reflexivity.
  change (drop (0 + String.length "RSA ") (chars "RSA " ++ chars h))
    with (chars h).
  rewrite span_in_full by exact Hall.
  destruct (length (chars h)) as [|n] eqn:Hn; [lia |].
  rewrite <- Hn, take_ge by lia.
  rewrite string_of_list_ascii_of_string, length_app. reflexivity.
Qed.

Lemma login_without_fingerprint s r :
  _parse true login_to_ssh2 s 0 = Some (length s, r) →
  _parse true _LOGIN_GRAMMAR s 0
  = Some (S (length s), add_results (add_results r no_tokens) no_tokens).
Proof.
  intros H. rewrite _LOGIN_GRAMMAR_eq.
  rewrite parse_And by reflexivity. rewrite parse_And by reflexivity.
  rewrite H, parse_Optional by reflexivity.
  rewrite (parse_And_None_l (Literal ":"));
    [| reflexivity | apply Literal_at_end; [discriminate | lia]].
  rewrite preParse_past by lia. rewrite StringEnd_at_end. reflexivity.
Qed.

Lemma login_with_fingerprint s r w1 w2 (h : string) :
  _parse true login_to_ssh2 s 0 = Some (length s, r) →
  Forall white w1 → Forall white w2 →
  h ≠ "" → Forall (λ c, c ∈ chars ":" ++ hexnums) (chars h) →
  ∃ l,
    _parse true _LOGIN_GRAMMAR
      (s ++ w1 ++ chars ":" ++ w2 ++ chars "RSA " ++ chars h) 0
    = Some (l,
            add_results
              (add_results r
                 (add_results (one_token ":")
                    (mkResults ["RSA " +:+ h] [("fingerprint", "RSA " +:+ h)])))
              no_tokens).
Proof.
  intros H Hw1 Hw2 Hne Hall.
  set (tail := w1 ++ chars ":" ++ w2 ++ chars "RSA " ++ chars h).
  pose proof (stable_login_to_ssh2 _ _ _ H tail) as Hhead. rewrite H in Hhead.
  set (s' := s ++ tail) in *.
  assert (drop (length s) s' = tail) as D0 by apply drop_app_length.
  destruct (literal_run ":" s' (length s) w1 (w2 ++ chars "RSA " ++ chars h)
              D0 Hw1) as [H1 D1]; [intros c [= <-]; decide_now |].
  destruct (lexeme_run _FINGER_PRINT s'
              (length s + length w1 + String.length ":") w2
              (chars "RSA " ++ chars h) []
              (mkResults ["RSA " +:+ h] [("fingerprint", "RSA " +:+ h)])
              eq_refl eq_refl eq_refl) as [H2 D2].
  { rewrite app_nil_r. exact D1. }
  { exact Hw2. }
  { intros c [= <-]. decide_now. }
  { discriminate. }
  { apply _FINGER_PRINT_alone; assumption. }
  rewrite _LOGIN_GRAMMAR_eq.
  rewrite parse_And by reflexivity. rewrite parse_And by reflexivity.
  rewrite Hhead, parse_Optional by reflexivity.
  rewrite parse_And by reflexivity. rewrite H1, H2.
  rewrite StringEnd_white; [eexists; reflexivity | | rewrite D2; constructor].
  apply (f_equal length) in D2. rewrite length_drop in D2. simpl in D2.
  assert (0 < length (chars "RSA " ++ chars h)) by (simpl; lia).
  assert (length s ≤ length s') by (unfold s'; rewrite length_app; lia).
  apply parse_bound in H2; [lia | reflexivity |].
  apply parse_bound in H1; [lia | reflexivity | lia].
Qed.

Lemma hex_colon_no_tab (h : list ascii) :
  Forall (λ c, c ∈ chars ":" ++ hexnums) h → Forall (λ c, c ≠ TAB) h.
Proof.
  intros H. eapply Forall_impl; [exact H |].
  intros c Hc ->. revert Hc. decide_now.
Qed.

Lemma expandtabs_fingerprint_suffix (body w1 w2 h : string) :
  all_white w1 → all_white w2 →
  Forall (λ c, c ∈ chars ":" ++ hexnums) (chars h) →
  ∃ w1' w2',
    expandtabs (chars (body +:+ w1 +:+ ":" +:+ w2 +:+ "RSA " +:+ h))
    = expandtabs (chars body) ++ w1' ++ chars ":" ++ w2' ++ chars "RSA "
      ++ chars h
    ∧ Forall white w1' ∧ Forall white w2'.
Proof.
  intros H1 H2 Hh. rewrite !chars_app. unfold expandtabs.
  destruct (expandtabs_from_app 0 (chars body)
              (chars w1 ++ chars ":" ++ chars w2 ++ chars "RSA " ++ chars h))
    as [c1 ->].
  destruct (expandtabs_from_app c1 (chars w1)
              (chars ":" ++ chars w2 ++ chars "RSA " ++ chars h)) as [c2 ->].
  destruct (expandtabs_from_app c2 (chars ":")
              (chars w2 ++ chars "RSA " ++ chars h)) as [c3 ->].
  destruct (expandtabs_from_app c3 (chars w2) (chars "RSA " ++ chars h))
    as [c4 ->].
  destruct (expandtabs_from_app c4 (chars "RSA ") (chars h)) as [c5 ->].
  rewrite (expandtabs_from_no_tab c2 (chars ":")) by decide_now.
  rewrite (expandtabs_from_no_tab c4 (chars "RSA ")) by decide_now.
  rewrite (expandtabs_from_no_tab c5 (chars h)) by (apply hex_colon_no_tab, Hh).
  eexists _, _. split; [reflexivity |].
  split; apply expandtabs_from_white; assumption.
Qed.

(** C5: a body that the login grammar matches up to and including ssh2 and
    that ends there is matched, without a fingerprint; continued with a
    colon, RSA, a space and hex digits or colons, it is matched with that
    text, RSA included, as its fingerprint.  The other tokens are the same
    in both cases. *)
Theorem C5_fingerprint_is_optional :
  ∀ body r,
    _parse true login_to_ssh2 (expandtabs (chars body)) 0
      = Some (length (expandtabs (chars body)), r) →
    (∃ r', parseString _LOGIN_GRAMMAR body = Some r'
           ∧ asDict r' = asDict r
           ∧ asDict r' !! "fingerprint" = None)
    ∧ (∀ w1 w2 h : string,
         all_white w1 → all_white w2 →
         h ≠ "" → Forall (λ c, c ∈ chars ":" ++ hexnums) (chars h) →
         ∃ r', parseString _LOGIN_GRAMMAR
                 (body +:+ w1 +:+ ":" +:+ w2 +:+ "RSA " +:+ h) = Some r'
               ∧ asDict r' = <["fingerprint" := "RSA " +:+ h]> (asDict r)
               ∧ asDict r' !! "fingerprint" = Some ("RSA " +:+ h)).
Proof.
  intros body r H. split.
  - unfold parseString. rewrite (login_without_fingerprint _ _ H).
    exists (add_results (add_results r no_tokens) no_tokens).
    split; [reflexivity |].
    assert (asDict (add_results (add_results r no_tokens) no_tokens) = asDict r)
      as ->.
    { rewrite !asDict_dict_of. simpl. rewrite !app_nil_r. reflexivity. }
    split; [reflexivity |].
    rewrite asDict_dict_of. apply dict_of_absent.
    apply (tokdict_not_named _ _ _ _ _ _ _ H). decide_now.
  - intros w1 w2 h Hw1 Hw2 Hne Hh. unfold parseString.
    destruct (expandtabs_fingerprint_suffix body w1 w2 h Hw1 Hw2 Hh)
      as (w1' & w2' & -> & Hw1' & Hw2').
    destruct (login_with_fingerprint _ r w1' w2' h H Hw1' Hw2' Hne Hh)
      as [l ->].
    exists (add_results
              (add_results r
                 (add_results (one_token ":")
                    (mkResults ["RSA " +:+ h] [("fingerprint", "RSA " +:+ h)])))
              no_tokens).
    split; [reflexivity |].
    assert (asDict
              (add_results
                 (add_results r
                    (add_results (one_token ":")
                       (mkResults ["RSA " +:+ h]
                          [("fingerprint", "RSA " +:+ h)])))
                 no_tokens)
            = <["fingerprint" := "RSA " +:+ h]> (asDict r)) as ->.
    { rewrite !asDict_dict_of. simpl. rewrite app_nil_r. apply dict_of_snoc. }
    split; [reflexivity | apply lookup_insert_eq].
Qed.

Lemma C5_fingerprint_is_optional_witness :
  (∃ r', parseString _LOGIN_GRAMMAR
           "Accepted publickey for bob from 10.0.0.5 port 2222 ssh2" = Some r'
         ∧ asDict r'
           = asDict
               (mkResults
                  ["Accepted"; "publickey"; "for"; "bob"; "from"; "10.0.0.5";
                   "port"; "2222"; "ssh2"]
                  [("authentication_method", "publickey"); ("username", "bob");
                   ("address", "10.0.0.5"); ("port", "2222");
                   ("protocol", "ssh2")])
         ∧ asDict r' !! "fingerprint" = None)
  ∧ (∃ r', parseString _LOGIN_GRAMMAR
             ("Accepted publickey for bob from 10.0.0.5 port 2222 ssh2"
              +:+ "" +:+ ":" +:+ " " +:+ "RSA " +:+ "aa:bb:cc:dd") = Some r'
           ∧ asDict r'
             = <["fingerprint" := "RSA " +:+ "aa:bb:cc:dd"]>
                 (asDict
                    (mkResults
                       ["Accepted"; "publickey"; "for"; "bob"; "from";
                        "10.0.0.5"; "port"; "2222"; "ssh2"]
                       [("authentication_method", "publickey");
                        ("username", "bob"); ("address", "10.0.0.5");
                        ("port", "2222"); ("protocol", "ssh2")]))
           ∧ asDict r' !! "fingerprint" = Some ("RSA " +:+ "aa:bb:cc:dd")).
Proof.
  assert (_parse true login_to_ssh2
            (expandtabs
               (chars "Accepted publickey for bob from 10.0.0.5 port 2222 ssh2"))
            0
          = Some (length
                    (expandtabs
                       (chars
                          "Accepted publickey for bob from 10.0.0.5 port 2222 ssh2")),
                  mkResults
                    ["Accepted"; "publickey"; "for"; "bob"; "from"; "10.0.0.5";
                     "port"; "2222"; "ssh2"]
                    [("authentication_method", "publickey"); ("username", "bob");
                     ("address", "10.0.0.5"); ("port", "2222");
                     ("protocol", "ssh2")])) as H
    by (vm_compute; reflexivity).
  split.
  - exact (proj1 (C5_fingerprint_is_optional _ _ H)).
  - apply (proj2 (C5_fingerprint_is_optional _ _ H)).
    + constructor.
    + unfold all_white. decide_now.
    + discriminate.
    + decide_now.
Defined.

(** ** Text after a match *)

Lemma parse_Combine sk e s loc :
  _parse sk (Combine e) s loc =
  match _parse false e s (skip_white sk DEFAULT_WHITE_CHARS s loc) with
  | Some (l1, r) => Some (l1, mkResults [String.concat "" (_toklist r)] (_tokdict r))
  | None => None
  end.
Proof. reflexivity. Qed.

Lemma parse_And_false e1 e2 s loc :
  _parse false (e1 + e2) s loc =
  match _parse false e1 s loc with
  | Some (l1, r1) =>
      match _parse false e2 s l1 with
      | Some (l2, r2) => Some (l2, add_results r1 r2)
      | None => None
      end
  | None => None
  end.
Proof. reflexivity. Qed.

Lemma parse_Literal_false m s loc :
  _parse false (Literal m) s loc =
  if startswith s m loc then Some (loc + String.length m, one_token m) else None.
Proof. reflexivity. Qed.

(** After a successful end-of-input test only white space is left. *)
Lemma StringEnd_Some s loc l r :
  _parse true StringEnd s loc = Some (l, r) → Forall white (drop loc s).
Proof.
  simpl. destruct (preParse_split DEFAULT_WHITE_CHARS s loc) as (w & Hd & Hq & Hw).
  set (q := preParse DEFAULT_WHITE_CHARS s loc) in *.
  destruct (q <? length s) eqn:Hlt; [discriminate |]. intros _.
  apply Nat.ltb_ge in Hlt. rewrite (drop_ge s q) in Hd by exact Hlt.
  rewrite app_nil_r in Hd. rewrite Hd. exact Hw.
Qed.

Lemma StringEnd_garbage s loc w c rest :
  drop loc s = w ++ c :: rest → Forall white w → c ∉ DEFAULT_WHITE_CHARS →
  _parse true StringEnd s loc = None.
Proof.
  intros Hd Hw Hc.
  destruct (preParse_drop DEFAULT_WHITE_CHARS s loc w (c :: rest) Hd Hw)
    as [Hq Hdq]; [intros d [= <-]; exact Hc |].
  simpl. rewrite Hq.
  apply (f_equal length) in Hdq. rewrite length_drop in Hdq. simpl in Hdq.
  replace (loc + length w <? length s) with true
    by (symmetry; apply Nat.ltb_lt; lia).
  reflexivity.
Qed.

Lemma Literal_garbage m s loc w c rest :
  drop loc s = w ++ c :: rest → Forall white w → c ∉ DEFAULT_WHITE_CHARS →
  head (chars m) ≠ Some c → m ≠ "" →
  _parse true (Literal m) s loc = None
  ∧ preParse DEFAULT_WHITE_CHARS s loc = loc + length w
  ∧ drop (loc + length w) s = c :: rest.
Proof.
  intros Hd Hw Hc Hm Hne.
  destruct (preParse_drop DEFAULT_WHITE_CHARS s loc w (c :: rest) Hd Hw)
    as [Hq Hdq]; [intros d [= <-]; exact Hc |].
  split; [| split; assumption].
  rewrite <- parse_preParse_idem by reflexivity. rewrite Hq.
  apply (Literal_at_other m s _ c); try assumption.
  rewrite <- drop_lookup_head, Hdq. reflexivity.
Qed.

(** An element that stopped where only white space follows stops at the
    same place when white space and a character it cannot consume are
    appended. *)
Lemma end_token_garbage e s q l r W c rest :
  plain e = true → _parse false e s q = Some (l, r) → q ≤ length s →
  Forall white (drop l s) → Forall white W →
  (∀ d, d ∈ DEFAULT_WHITE_CHARS → d ∉ footprint e) → c ∉ footprint e →
  _parse false e (s ++ W ++ c :: rest) q = Some (l, r).
Proof.
  intros Hp H Hq Hd HW Hwf Hc.
  pose proof (parse_bound e Hp _ _ _ _ _ H Hq) as [Hql Hl].
  assert (_parse false e (take l s) q = Some (l, r)) as Hpre.
  { rewrite <- H. rewrite <- (take_drop l s) at 2.
    destruct (drop l s) as [|x u] eqn:Hu; [rewrite app_nil_r; reflexivity |].
    symmetry. apply parse_cut; [exact Hp | | rewrite length_take_le; lia].
    apply Hwf. apply Forall_cons in Hd. tauto. }
  rewrite <- Hpre. rewrite <- (take_drop l s) at 1. rewrite <- app_assoc.
  assert (∃ x u, drop l s ++ W ++ c :: rest = x :: u ∧ x ∉ footprint e)
    as (x & u & -> & Hx).
  { destruct (drop l s) as [|x u]; simpl.
    - destruct W as [|x W]; simpl; [eauto |].
      eexists _, _. split; [reflexivity |]. apply Hwf.
      apply Forall_cons in HW. tauto.
    - eexists _, _. split; [reflexivity |]. apply Hwf.
      apply Forall_cons in Hd. tauto. }
  apply parse_cut; [exact Hp | exact Hx | rewrite length_take_le; lia].
Qed.

Lemma _PORT_consumes s loc l r :
  _parse true _PORT s loc = Some (l, r) → preParse DEFAULT_WHITE_CHARS s loc < l.
Proof.
  simpl. destruct (span_in nums _ `min` 5) as [|n]; [discriminate |].
  intros [= <- _]. lia.
Qed.

Lemma _PORT_end_garbage s loc l r W c rest :
  _parse true _PORT s loc = Some (l, r) → loc ≤ length s →
  Forall white (drop l s) → Forall white W → c ∉ nums →
  _parse true _PORT (s ++ W ++ c :: rest) loc = Some (l, r).
Proof.
  intros H Hloc Hd HW Hc.
  pose proof (_PORT_consumes _ _ _ _ H) as Hlt.
  pose proof (parse_bound _PORT eq_refl _ _ _ _ _ H Hloc) as [_ Hl].
  rewrite parse_lexeme in * by reflexivity.
  rewrite preParse_app by lia.
  apply end_token_garbage; try assumption; try reflexivity.
  - apply preParse_le, Hloc.
  - intros d Hd' Hn. exact (nums_not_white d Hn Hd').
Qed.

Lemma _FINGER_PRINT_end_garbage s loc l r W c rest :
  _parse true _FINGER_PRINT s loc = Some (l, r) → loc ≤ length s →
  Forall white (drop l s) → Forall white W → c ∉ chars ":" ++ hexnums →
  _parse true _FINGER_PRINT (s ++ W ++ c :: rest) loc = Some (l, r).
Proof.
  intros H Hloc Hd HW Hc. unfold _FINGER_PRINT in *.
  rewrite parse_setResultsName, parse_Combine, parse_And_false,
    parse_Literal_false in *.
  cbn [skip_white] in *.
  pose proof (preParse_le DEFAULT_WHITE_CHARS s loc Hloc) as Hqle.
  set (q := preParse DEFAULT_WHITE_CHARS s loc) in *.
  destruct (startswith s "RSA " q) eqn:Hs; [| discriminate].
  unfold startswith in Hs. pose proof (starts_with_length _ _ Hs) as Hlen.
  rewrite length_drop in Hlen. simpl in Hlen.
  rewrite preParse_app by (fold q; lia). fold q.
  unfold startswith. rewrite drop_app_le by lia.
  rewrite starts_with_app, Hs by (rewrite length_drop; simpl; lia).
  destruct (_parse false (Word (chars ":" ++ hexnums) 0) s (q + String.length "RSA "))
    as [[l' r']|] eqn:Hw; [| discriminate].
  assert (l' = l) as -> by (injection H as -> _; reflexivity).
  rewrite (end_token_garbage (Word (chars ":" ++ hexnums) 0) _ _ _ _ W c rest
             eq_refl Hw); try assumption.
  - simpl. lia.
  - intros d Hd'. revert d Hd'. apply Forall_forall. decide_now.
Qed.

Lemma failed_trailing s l r W c rest :
  _parse true _FAILED_CONNECTION_GRAMMAR s 0 = Some (l, r) →
  Forall white W → c ∉ DEFAULT_WHITE_CHARS → c ∉ nums →
  _parse true _FAILED_CONNECTION_GRAMMAR (s ++ W ++ c :: rest) 0 = None.
Proof.
  intros H HW Hc Hn. rewrite _FAILED_CONNECTION_GRAMMAR_eq in *.
  apply parse_And_Some in H as (l2 & r12 & r3 & H & H3 & _); [| reflexivity].
  apply parse_And_Some in H as (l1 & r1 & r2 & H1 & H2 & _); [| reflexivity].
  pose proof (parse_bound failed_to_port eq_refl _ _ _ _ _ H1 ltac:(lia)) as [_ Hl1].
  pose proof (parse_bound _PORT eq_refl _ _ _ _ _ H2 Hl1) as [_ Hl2].
  pose proof (StringEnd_Some _ _ _ _ H3) as Hd.
  rewrite parse_And by reflexivity. rewrite parse_And by reflexivity.
  rewrite (stable_failed_to_port _ _ _ H1), H1.
  rewrite (_PORT_end_garbage _ _ _ _ W c rest H2) by assumption.
  rewrite (StringEnd_garbage _ l2 (drop l2 s ++ W) c rest);
    [reflexivity | | apply Forall_app; auto | exact Hc].
  rewrite drop_app_le by exact Hl2. rewrite <- app_assoc. reflexivity.
Qed.

Lemma login_trailing s l r W c rest :
  _parse true _LOGIN_GRAMMAR s 0 = Some (l, r) →
  Forall white W → c ∉ DEFAULT_WHITE_CHARS → c ∉ chars ":" ++ hexnums →
  _parse true _LOGIN_GRAMMAR (s ++ W ++ c :: rest) 0 = None.
Proof.
  intros H HW Hc Hn. rewrite _LOGIN_GRAMMAR_eq in *.
  apply parse_And_Some in H as (l2 & r12 & r3 & H & H3 & _); [| reflexivity].
  apply parse_And_Some in H as (l1 & r1 & r2 & H1 & H2 & _); [| reflexivity].
  pose proof (parse_bound login_to_ssh2 eq_refl _ _ _ _ _ H1 ltac:(lia)) as [_ Hl1].
  pose proof (StringEnd_Some _ _ _ _ H3) as Hd.
  rewrite parse_And by reflexivity. rewrite parse_And by reflexivity.
  rewrite (stable_login_to_ssh2 _ _ _ H1), H1.
  rewrite parse_Optional in * by reflexivity.
  destruct (_parse true (Literal ":" + _FINGER_PRINT) s l1) as [[l2' r2']|] eqn:Hin.
  - injection H2 as -> ->.
    apply parse_And_Some in Hin as (la & ra & rb & Ha & Hb & _); [| reflexivity].
    pose proof (parse_bound (Literal ":") eq_refl _ _ _ _ _ Ha Hl1) as [_ Hla].
    pose proof (parse_bound _FINGER_PRINT eq_refl _ _ _ _ _ Hb Hla) as [_ Hl2].
    rewrite parse_And by reflexivity.
    rewrite (stable_Literal ":" _ _ _ _ ltac:(discriminate) Ha), Ha.
    rewrite (_FINGER_PRINT_end_garbage _ _ _ _ W c rest Hb) by assumption.
    rewrite (StringEnd_garbage _ l2 (drop l2 s ++ W) c rest);
      [reflexivity | | apply Forall_app; auto | exact Hc].
    rewrite drop_app_le by exact Hl2. rewrite <- app_assoc. reflexivity.
  - injection H2 as <- _.
    destruct (preParse_split DEFAULT_WHITE_CHARS s l1) as (w & Hw & _ & Hww).
    assert (Forall white (drop l1 s)) as Hd1.
    { rewrite Hw. apply Forall_app. auto. }
    destruct (Literal_garbage ":" (s ++ W ++ c :: rest) l1 (drop l1 s ++ W)
                c rest) as (Hlit & Hq & Hdq);
      [rewrite drop_app_le by exact Hl1; rewrite <- app_assoc; reflexivity
      | apply Forall_app; auto | exact Hc | | discriminate |].
    { intros [= <-]. apply Hn. decide_now. }
    rewrite (parse_And_None_l (Literal ":")) by (reflexivity || exact Hlit).
    rewrite Hq.
    rewrite (StringEnd_garbage _ _ [] c rest Hdq);
      [reflexivity | constructor | exact Hc].
Qed.

Lemma LineEnd_Some s loc l r :
  _parse true LineEnd s loc = Some (l, r) →
  (s !! preParse LINE_END_WHITE_CHARS s loc = Some LF
   ∨ preParse LINE_END_WHITE_CHARS s loc = length s)
  ∧ _tokdict r = [].
Proof.
  simpl. set (q := preParse LINE_END_WHITE_CHARS s loc).
  destruct (s !! q) as [c|] eqn:Hc.
  - destruct (Ascii.eqb_spec c LF) as [-> |]; [| discriminate].
    intros [= _ <-]. split; [left |]; reflexivity.
  - destruct (Nat.eqb_spec q (length s)) as [Hq |]; [| discriminate].
    intros [= _ <-]. split; [right; exact Hq | reflexivity].
Qed.

Lemma LineEnd_line_break s loc l r rest :
  _parse true LineEnd s loc = Some (l, r) → loc ≤ length s →
  ∃ l' toks,
    _parse true LineEnd (s ++ LF :: rest) loc = Some (l', mkResults toks []).
Proof.
  intros H Hloc. apply LineEnd_Some in H as [[Hlf | Hend] _]; simpl.
  - pose proof (lookup_lt_Some _ _ _ Hlf) as Hlt.
    rewrite preParse_app by exact Hlt.
    rewrite lookup_app_l, Hlf by exact Hlt. simpl.
    eexists _, _. reflexivity.
  - destruct (preParse_split LINE_END_WHITE_CHARS s loc) as (w & Hd & Hq & Hw).
    rewrite Hend, drop_all, app_nil_r in Hd.
    destruct (preParse_drop LINE_END_WHITE_CHARS (s ++ LF :: rest) loc w
                (LF :: rest)) as [Hq' Hd'].
    { rewrite drop_app_le by exact Hloc. rewrite Hd. reflexivity. }
    { exact Hw. }
    { intros c [= <-]. decide_now. }
    rewrite Hq', <- drop_lookup_head, Hd'. simpl.
    eexists _, _. reflexivity.
Qed.

(** The character after the port, when the end of the line was found. *)
Lemma LineEnd_next s loc l r x :
  _parse true LineEnd s loc = Some (l, r) → s !! loc = Some x →
  x ∈ LINE_END_WHITE_CHARS ∨ x = LF.
Proof.
  intros H Hx. apply LineEnd_Some in H as [H _].
  destruct (preParse_split LINE_END_WHITE_CHARS s loc) as (w & Hd & Hq & Hw).
  destruct w as [|d w].
  - simpl in Hq. rewrite Nat.add_0_r in Hq. rewrite Hq in H.
    destruct H as [H | H].
    + right. congruence.
    + apply lookup_lt_Some in Hx. lia.
  - left. rewrite <- drop_lookup_head, Hd in Hx. injection Hx as <-.
    apply Forall_cons in Hw. tauto.
Qed.

Lemma _PORT_line_break s loc l r rest :
  _parse true _PORT s loc = Some (l, r) → loc ≤ length s →
  (∀ x, s !! l = Some x → x ∉ nums) →
  _parse true _PORT (s ++ LF :: rest) loc = Some (l, r).
Proof.
  intros H Hloc Hnext.
  destruct (s !! l) as [x|] eqn:Hx.
  - rewrite (stable_lexeme _PORT s loc l r x eq_refl eq_refl H Hx); [exact H |].
    apply Hnext. reflexivity.
  - pose proof (_PORT_consumes _ _ _ _ H) as Hlt.
    pose proof (parse_bound _PORT eq_refl _ _ _ _ _ H Hloc) as [_ Hl].
    rewrite parse_lexeme in * by reflexivity.
    rewrite preParse_app by lia.
    rewrite parse_cut; [exact H | reflexivity | decide_now |].
    apply preParse_le, Hloc.
Qed.

Lemma opened_line_break s l r rest :
  _parse true _OPENED_CONNECTION_GRAMMAR s 0 = Some (l, r) →
  ∃ l' toks,
    _parse true _OPENED_CONNECTION_GRAMMAR (s ++ LF :: rest) 0
    = Some (l', mkResults toks (_tokdict r)).
Proof.
  intros H. rewrite _OPENED_CONNECTION_GRAMMAR_eq in *.
  apply parse_And_Some in H as (l2 & r12 & r3 & H & H3 & ->); [| reflexivity].
  apply parse_And_Some in H as (l1 & r1 & r2 & H1 & H2 & ->); [| reflexivity].
  pose proof (parse_bound opened_to_port eq_refl _ _ _ _ _ H1 ltac:(lia))
    as [_ Hl1].
  pose proof (parse_bound _PORT eq_refl _ _ _ _ _ H2 Hl1) as [_ Hl2].
  destruct (LineEnd_line_break _ _ _ _ rest H3 Hl2) as (l' & toks & H3').
  rewrite parse_And by reflexivity. rewrite parse_And by reflexivity.
  rewrite (stable_opened_to_port _ _ _ H1), H1.
  rewrite (_PORT_line_break _ _ _ _ rest H2 Hl1), H3'.
  - apply LineEnd_Some in H3 as [_ Hr3].
    eexists _, _. unfold add_results. simpl. rewrite Hr3. reflexivity.
  - intros x Hx. apply (LineEnd_next _ _ _ _ _ H3) in Hx.
    destruct Hx as [Hx | ->]; [| decide_now].
    revert x Hx. apply Forall_forall. decide_now.
Qed.

Lemma expandtabs_trailing (body W : string) c rest :
  all_white W → c ∉ DEFAULT_WHITE_CHARS →
  ∃ W' rest',
    expandtabs (chars (body +:+ W +:+ String c rest))
    = expandtabs (chars body) ++ W' ++ c :: rest'
    ∧ Forall white W'.
Proof.
  intros HW Hc. rewrite !chars_app. unfold expandtabs.
  destruct (expandtabs_from_app 0 (chars body) (chars W ++ chars (String c rest)))
    as [c1 ->].
  destruct (expandtabs_from_app c1 (chars W) (chars (String c rest))) as [c2 ->].
  destruct (expandtabs_from_head c2 c (chars rest)) as [rest' Hr].
  simpl chars. rewrite Hr.
  destruct (Ascii.eqb_spec c TAB) as [-> |].
  - exfalso. apply Hc, white_cases. auto.
  - eexists _, _. split; [reflexivity |]. apply expandtabs_from_white, HW.
Qed.

Lemma expandtabs_line_break (body rest : string) :
  expandtabs (chars (body +:+ String LF rest))
  = expandtabs (chars body) ++ LF :: expandtabs (chars rest).
Proof.
  rewrite chars_app. unfold expandtabs.
  destruct (expandtabs_from_app 0 (chars body) (chars (String LF rest)))
    as [c1 ->].
  reflexivity.
Qed.

(** C3, the claim as stated fails: a failed_connection body stays matched
    when a space, a line break or a digit is appended, and a login body
    stays matched when a space or a fingerprint clause is appended. *)
Lemma C3_counterexample :
  parseString _FAILED_CONNECTION_GRAMMAR
    "Failed password for root from 192.168.1.1 port 22" ≠ None
  ∧ parseString _FAILED_CONNECTION_GRAMMAR
      ("Failed password for root from 192.168.1.1 port 22" +:+ " ") ≠ None
  ∧ parseString _FAILED_CONNECTION_GRAMMAR
      ("Failed password for root from 192.168.1.1 port 22" +:+ String LF "")
      ≠ None
  ∧ parseString _FAILED_CONNECTION_GRAMMAR
      ("Failed password for root from 192.168.1.1 port 22" +:+ "0") ≠ None
  ∧ parseString _LOGIN_GRAMMAR
      "Accepted password for alice from 10.0.0.5 port 22 ssh2" ≠ None
  ∧ parseString _LOGIN_GRAMMAR
      ("Accepted password for alice from 10.0.0.5 port 22 ssh2" +:+ " ") ≠ None
  ∧ parseString _LOGIN_GRAMMAR
      ("Accepted password for alice from 10.0.0.5 port 22 ssh2"
       +:+ ": RSA aa:bb") ≠ None.
Proof. repeat split; vm_compute; discriminate. Qed.

(** ** Record construction *)

Section ParseMessageProperties.
Context {DateTimeValues : Type}.
Implicit Types (parser_mediator : ParserMediator DateTimeValues)
  (date_time : DateTimeValues) (tokens : gmap string string)
  (event_data : SSHEventData DateTimeValues).

Lemma supported_keys key :
  key ∈ _SUPPORTED_KEYS ↔
  key = "login" ∨ key = "failed_connection" ∨ key = "opened_connection".
Proof.
  unfold _SUPPORTED_KEYS, MESSAGE_GRAMMARS. simpl.
  rewrite !elem_of_union, !elem_of_singleton, elem_of_empty. tauto.
Qed.

(** What [_ParseMessage] does for a supported key: one event data is
    produced, every attribute read from the tokens under its own name. *)
Lemma _ParseMessage_supported parser_mediator key date_time tokens :
  key ∈ _SUPPORTED_KEYS →
  ∃ event_data,
    _ParseMessage parser_mediator key date_time tokens
      = inr (ProduceEventData parser_mediator event_data)
    ∧ data_type event_data = "syslog:ssh:" +:+ key
    ∧ address event_data = tokens !! "address"
    ∧ authentication_method event_data = tokens !! "authentication_method"
    ∧ body event_data = tokens !! "body"
    ∧ fingerprint event_data = tokens !! "fingerprint"
    ∧ hostname event_data = tokens !! "hostname"
    ∧ pid event_data = tokens !! "pid"
    ∧ protocol event_data = tokens !! "protocol"
    ∧ port event_data = tokens !! "port"
    ∧ reporter event_data = tokens !! "reporter"
    ∧ severity event_data = tokens !! "severity"
    ∧ username event_data = tokens !! "username"
    ∧ last_written_time event_data = Some date_time.
Proof.
  intros Hkey. unfold _ParseMessage.
  rewrite bool_decide_eq_false_2 by (intros Hn; exact (Hn Hkey)).
  apply supported_keys in Hkey as [-> | [-> | ->]]; cbn;
    eexists; repeat split.
Qed.

(** C1 (as amended): for category opened_connection the attributes
    username, authentication_method and protocol are copied from the token
    mapping like every other attribute; each is None exactly when the
    mapping has no entry under that key. *)
Theorem C1_opened_connection_copies_tokens parser_mediator date_time tokens :
  ∃ event_data,
    _ParseMessage parser_mediator "opened_connection" date_time tokens
      = inr (ProduceEventData parser_mediator event_data)
    ∧ username event_data = tokens !! "username"
    ∧ authentication_method event_data = tokens !! "authentication_method"
    ∧ protocol event_data = tokens !! "protocol"
    ∧ (username event_data = None ↔ tokens !! "username" = None)
    ∧ (authentication_method event_data = None
       ↔ tokens !! "authentication_method" = None)
    ∧ (protocol event_data = None ↔ tokens !! "protocol" = None).
Proof.
  eexists. split; [reflexivity |]. cbn. repeat split; auto.
Qed.

(** C2: a key outside login, failed_connection, opened_connection makes
    [_ParseMessage] raise ParseError; the call returns no mediator, so no
    event data is produced. *)
Theorem C2_unknown_key_raises parser_mediator key date_time tokens :
  key ≠ "login" → key ≠ "failed_connection" → key ≠ "opened_connection" →
  _ParseMessage parser_mediator key date_time tokens
    = inl (ParseError ("Unable to parse message, unknown structure: " +:+ key)).
Proof.
  intros H1 H2 H3. unfold _ParseMessage.
  rewrite bool_decide_eq_true_2; [reflexivity |].
  rewrite supported_keys. intros [? | [? | ?]]; contradiction.
Qed.

(** C9: for a supported key every attribute among address,
    authentication_method, body, fingerprint, hostname, pid, protocol,
    port, reporter, severity and username is the token mapping's value
    under the same name (None when the name is not in the mapping), and
    last_written_time is the date_time argument. *)
Theorem C9_attributes_from_tokens parser_mediator key date_time tokens :
  key ∈ _SUPPORTED_KEYS →
  ∃ event_data,
    _ParseMessage parser_mediator key date_time tokens
      = inr (ProduceEventData parser_mediator event_data)
    ∧ address event_data = tokens !! "address"
    ∧ authentication_method event_data = tokens !! "authentication_method"
    ∧ body event_data = tokens !! "body"
    ∧ fingerprint event_data = tokens !! "fingerprint"
    ∧ hostname event_data = tokens !! "hostname"
    ∧ pid event_data = tokens !! "pid"
    ∧ protocol event_data = tokens !! "protocol"
    ∧ port event_data = tokens !! "port"
    ∧ reporter event_data = tokens !! "reporter"
    ∧ severity event_data = tokens !! "severity"
    ∧ username event_data = tokens !! "username"
    ∧ last_written_time event_data = Some date_time.
Proof.
  intros Hkey.
  destruct (_ParseMessage_supported parser_mediator key date_time tokens Hkey)
    as (event_data & Hrun & _ & Hrest).
  exists event_data. split; [exact Hrun | exact Hrest].
Qed.
End ParseMessageProperties.

(** C1, the claim as stated fails: for opened_connection and a token mapping
    that has a username, an authentication_method and a protocol, the
    produced event data carries all three. *)
Lemma C1_counterexample :
  ∃ event_data : SSHEventData unit,
    _ParseMessage (mkMediator []) "opened_connection" tt
      (<["username" := "root"]>
         (<["authentication_method" := "password"]>
            (<["protocol" := "ssh2"]> ∅)))
      = inr (mkMediator [event_data])
    ∧ username event_data = Some "root"
    ∧ authentication_method event_data = Some "password"
    ∧ protocol event_data = Some "ssh2".
Proof. eexists. split; [reflexivity |]. cbn. repeat split; vm_compute; reflexivity. Qed.

Lemma C2_unknown_key_raises_witness :
  _ParseMessage (mkMediator []) "logout" tt (∅ : gmap string string)
    = inl (ParseError "Unable to parse message, unknown structure: logout").
Proof.
  apply (C2_unknown_key_raises (DateTimeValues := unit)); discriminate.
Defined.

Lemma C9_attributes_from_tokens_witness :
  ∃ event_data : SSHEventData unit,
    _ParseMessage (mkMediator []) "failed_connection" tt
      (<["port" := "22"]> ∅)
      = inr (ProduceEventData (mkMediator []) event_data)
    ∧ address event_data = (<["port" := "22"]> ∅ : gmap string string) !! "address"
    ∧ authentication_method event_data
      = (<["port" := "22"]> ∅ : gmap string string) !! "authentication_method"
    ∧ body event_data = (<["port" := "22"]> ∅ : gmap string string) !! "body"
    ∧ fingerprint event_data
      = (<["port" := "22"]> ∅ : gmap string string) !! "fingerprint"
    ∧ hostname event_data = (<["port" := "22"]> ∅ : gmap string string) !! "hostname"
    ∧ pid event_data = (<["port" := "22"]> ∅ : gmap string string) !! "pid"
    ∧ protocol event_data = (<["port" := "22"]> ∅ : gmap string string) !! "protocol"
    ∧ port event_data = (<["port" := "22"]> ∅ : gmap string string) !! "port"
    ∧ reporter event_data = (<["port" := "22"]> ∅ : gmap string string) !! "reporter"
    ∧ severity event_data = (<["port" := "22"]> ∅ : gmap string string) !! "severity"
    ∧ username event_data = (<["port" := "22"]> ∅ : gmap string string) !! "username"
    ∧ last_written_time event_data = Some tt.
Proof.
  apply (C9_attributes_from_tokens (DateTimeValues := unit)).
  apply supported_keys. right; left; reflexivity.
Defined.

(** ** Classification *)

Lemma first_match_spec grammars body key tokens :
  first_match grammars body = Some (key, tokens) ↔
  ∃ i grammar r,
    grammars !! i = Some (key, grammar)
    ∧ parseString grammar body = Some r ∧ tokens = asDict r
    ∧ ∀ j key' grammar',
        j < i → grammars !! j = Some (key', grammar') →
        parseString grammar' body = None.
Proof.
  induction grammars as [|[k g] rest IH]; simpl.
  - split; [discriminate | intros (i & g & r & H & _); discriminate].
  - destruct (parseString g body) as [r0|] eqn:Hg.
    + split.
      * intros [= <- <-]. exists 0, g, r0. repeat split; auto. intros; lia.
      * intros (i & g' & r & Hi & Hr & -> & Hbefore).
        destruct i as [|i].
        -- injection Hi as <- <-. rewrite Hg in Hr. injection Hr as <-.
           reflexivity.
        -- specialize (Hbefore 0 k g ltac:(lia) eq_refl). congruence.
    + rewrite IH. split.
      * intros (i & g' & r & Hi & Hr & -> & Hbefore).
        exists (S i), g', r. repeat split; auto.
        intros [|j] k' g'' Hj Hl; [injection Hl as <- <-; exact Hg |].
        apply (Hbefore j k' g''); [lia | exact Hl].
      * intros (i & g' & r & Hi & Hr & -> & Hbefore).
        destruct i as [|i]; [injection Hi as <- <-; congruence |].
        exists i, g', r. repeat split; auto.
        intros j k' g'' Hj Hl. apply (Hbefore (S j) k' g''); [lia | exact Hl].
Qed.

(** C4: the grammars are tried in the order login, failed_connection,
    opened_connection, and the category returned is that of the first
    grammar in this order that matches the body. *)
Theorem C4_first_match_wins :
  MESSAGE_GRAMMARS.*1 = ["login"; "failed_connection"; "opened_connection"]
  ∧ (∀ body,
       classify body =
       match parseString _LOGIN_GRAMMAR body with
       | Some tokens => Some ("login", asDict tokens)
       | None =>
           match parseString _FAILED_CONNECTION_GRAMMAR body with
           | Some tokens => Some ("failed_connection", asDict tokens)
           | None =>
               match parseString _OPENED_CONNECTION_GRAMMAR body with
               | Some tokens => Some ("opened_connection", asDict tokens)
               | None => None
               end
           end
       end)
  ∧ (∀ body key tokens,
       classify body = Some (key, tokens) ↔
       ∃ i grammar r,
         MESSAGE_GRAMMARS !! i = Some (key, grammar)
         ∧ parseString grammar body = Some r ∧ tokens = asDict r
         ∧ ∀ j key' grammar',
             j < i → MESSAGE_GRAMMARS !! j = Some (key', grammar') →
             parseString grammar' body = None).
Proof.
  split; [reflexivity |]. split.
  - intros body. unfold classify, MESSAGE_GRAMMARS. simpl.
    destruct (parseString _LOGIN_GRAMMAR body); [reflexivity |].
    destruct (parseString _FAILED_CONNECTION_GRAMMAR body); [reflexivity |].
    destruct (parseString _OPENED_CONNECTION_GRAMMAR body); reflexivity.
  - intros body key tokens. apply first_match_spec.
Qed.

Lemma C4_first_match_wins_witness :
  ∃ i grammar r,
    MESSAGE_GRAMMARS !! i = Some ("failed_connection", grammar)
    ∧ parseString grammar "Failed password for root from 192.168.1.1 port 22"
      = Some r
    ∧ asDict
        (mkResults
           ["Failed"; "password"; "for"; "root"; "from"; "192.168.1.1"; "port";
            "22"]
           [("authentication_method", "password"); ("username", "root");
            ("address", "192.168.1.1"); ("port", "22")])
      = asDict r
    ∧ ∀ j key' grammar',
        j < i → MESSAGE_GRAMMARS !! j = Some (key', grammar') →
        parseString grammar' "Failed password for root from 192.168.1.1 port 22"
        = None.
Proof.
  apply (proj1 (proj2 (proj2 C4_first_match_wins) _ _ _)).
  vm_compute. reflexivity.
Defined.

(** C8: the body [Accepted password for alice from 10.0.0.5 port 22 ssh2] is
    classified as login, with username alice, authentication_method
    password, address 10.0.0.5, port 22, protocol ssh2 and no fingerprint. *)
Theorem C8_login_scenario :
  ∃ tokens,
    classify "Accepted password for alice from 10.0.0.5 port 22 ssh2"
      = Some ("login", tokens)
    ∧ tokens !! "username" = Some "alice"
    ∧ tokens !! "authentication_method" = Some "password"
    ∧ tokens !! "address" = Some "10.0.0.5"
    ∧ tokens !! "port" = Some "22"
    ∧ tokens !! "protocol" = Some "ssh2"
    ∧ tokens !! "fingerprint" = None
    ∧ dom tokens
      = list_to_set
          ["username"; "authentication_method"; "address"; "port"; "protocol"].
Proof.
  exists (dict_of [("authentication_method", "password"); ("username", "alice");
                   ("address", "10.0.0.5"); ("port", "22"); ("protocol", "ssh2")]).
  do 7 (split; [vm_compute; reflexivity |]).
  vm_compute. reflexivity.
Qed.

(** * Further properties *)

(** ** [_ParseMessage] *)

Section ParseMessageOutcome.
Context {DateTimeValues : Type}.
Implicit Types (parser_mediator : ParserMediator DateTimeValues)
  (date_time : DateTimeValues) (tokens : gmap string string).

(** X1: [_ParseMessage] has two outcomes only.  For a key that is not the
    name of one of the [MESSAGE_GRAMMARS] it raises ParseError; for any other
    key it hands exactly one event data to the mediator, after those already
    produced.  The if/elif chain leaves no supported key without event data. *)
Theorem X1_ParseMessage_outcomes parser_mediator key date_time tokens :
  ((key ∉ (MESSAGE_GRAMMARS.*1))
   ∧ _ParseMessage parser_mediator key date_time tokens
     = inl (ParseError ("Unable to parse message, unknown structure: " +:+ key)))
  ∨ (key ∈ (MESSAGE_GRAMMARS.*1)
     ∧ ∃ event_data,
         _ParseMessage parser_mediator key date_time tokens
         = inr (mkMediator (produced parser_mediator ++ [event_data]))).
Proof.
  destruct (decide (key ∈ _SUPPORTED_KEYS)) as [Hin | Hout].
  - right. split.
    + unfold _SUPPORTED_KEYS in Hin. apply elem_of_list_to_set in Hin. exact Hin.
    + destruct (_ParseMessage_supported parser_mediator key date_time tokens Hin)
        as (event_data & Hrun & _).
      exists event_data. exact Hrun.
  - left. split.
    + intros Hin. apply Hout. unfold _SUPPORTED_KEYS.
      apply elem_of_list_to_set. exact Hin.
    + unfold _ParseMessage. rewrite bool_decide_eq_true_2 by exact Hout.
      reflexivity.
Qed.

(** X2: the data type of the event data produced for a supported key is
    [syslog:ssh:] followed by the key, the [DATA_TYPE] of the class chosen
    for that key. *)
Theorem X2_data_type_of_key parser_mediator key date_time tokens :
  key ∈ _SUPPORTED_KEYS →
  ∃ event_data,
    _ParseMessage parser_mediator key date_time tokens
      = inr (ProduceEventData parser_mediator event_data)
    ∧ data_type event_data = "syslog:ssh:" +:+ key.
Proof.
  intros Hkey.
  destruct (_ParseMessage_supported parser_mediator key date_time tokens Hkey)
    as (event_data & Hrun & Htype & _).
  exists event_data. split; assumption.
Qed.

(** X3: [_ParseMessage] reads the tokens under the eleven names of
    [TOKEN_NAMES] only: two token mappings that agree on these names give the
    same outcome, whatever else they hold. *)
Theorem X3_other_tokens_ignored parser_mediator key date_time tokens tokens' :
  (∀ name, name ∈ TOKEN_NAMES → tokens !! name = tokens' !! name) →
  _ParseMessage parser_mediator key date_time tokens
  = _ParseMessage parser_mediator key date_time tokens'.
Proof.
  intros Hsame. unfold _ParseMessage.
  destruct (bool_decide (key ∉ _SUPPORTED_KEYS)); [reflexivity |].
  destruct (if String.eqb key "login" then _ else _) as [event_data|];
    [| reflexivity].
  rewrite !(Hsame _) by (unfold TOKEN_NAMES; rewrite !elem_of_cons; tauto).
  reflexivity.
Qed.
End ParseMessageOutcome.

Lemma X2_data_type_of_key_witness :
  ∃ event_data : SSHEventData unit,
    _ParseMessage (mkMediator []) "opened_connection" tt
      (<["port" := "22"]> ∅)
      = inr (ProduceEventData (mkMediator []) event_data)
    ∧ data_type event_data = "syslog:ssh:" +:+ "opened_connection".
Proof.
  apply (X2_data_type_of_key (DateTimeValues := unit)).
  apply supported_keys. right; right; reflexivity.
Defined.

Lemma X3_other_tokens_ignored_witness :
  _ParseMessage (mkMediator []) "login" tt
    (<["port" := "22"]> (<["facility" := "auth"]> ∅))
  = _ParseMessage (mkMediator []) "login" tt
      (<["port" := "22"]> (<["priority" := "6"]> ∅)).
Proof.
  apply (X3_other_tokens_ignored (DateTimeValues := unit)).
  apply Forall_forall. decide_now.
Defined.

(** ** What an element consumes *)

Lemma rep_ends_chars (one : list ascii → list nat) (P : ascii → Prop) lo hi :
  (∀ u, Forall (λ n, Forall P (take n u)) (one u)) →
  ∀ u, Forall (λ n, Forall P (take n u)) (rep_ends one lo hi u).
Proof.
  intros Hone. revert lo. induction hi as [|hi IH]; intros lo u; simpl.
  - constructor; [constructor | constructor].
  - apply Forall_app. split.
    + apply Forall_bind. eapply Forall_impl; [apply Hone |].
      intros n Hn. simpl. apply Forall_fmap.
      eapply Forall_impl; [apply IH |].
      intros k Hk. simpl in *. rewrite <- take_take_drop.
      apply Forall_app. auto.
    + destruct lo; constructor; constructor.
Qed.

Lemma re_ends_chars r u :
  Forall (λ n, Forall (λ c, c ∈ re_chars r) (take n u)) (re_ends r u).
Proof.
  revert u. induction r as [cs | a IHa b IHb | a IHa b IHb | a IHa lo hi];
    intros u; simpl.
  - destruct u as [|c u]; [constructor |].
    destruct (char_in c cs) eqn:Hc; constructor; [| constructor].
    simpl. rewrite take_0. constructor; [apply char_in_true, Hc | constructor].
  - apply Forall_bind. eapply Forall_impl; [apply IHa |].
    intros n Hn. simpl. apply Forall_fmap.
    eapply Forall_impl; [apply IHb |].
    intros k Hk. simpl in *. rewrite <- take_take_drop.
    apply Forall_app. split.
    + eapply Forall_impl; [exact Hn |]. intros c Hc. apply elem_of_app. auto.
    + eapply Forall_impl; [exact Hk |]. intros c Hc. apply elem_of_app. auto.
  - apply Forall_app. split.
    + eapply Forall_impl; [apply IHa |]. intros n Hn. simpl in *.
      eapply Forall_impl; [exact Hn |]. intros c Hc. apply elem_of_app. auto.
    + eapply Forall_impl; [apply IHb |]. intros n Hn. simpl in *.
      eapply Forall_impl; [exact Hn |]. intros c Hc. apply elem_of_app. auto.
  - apply rep_ends_chars. exact IHa.
Qed.

Lemma rep_ends_min (one : list ascii → list nat) m lo hi :
  (∀ u, Forall (λ n, m ≤ n) (one u)) →
  ∀ u, Forall (λ n, (lo `min` hi) * m ≤ n) (rep_ends one lo hi u).
Proof.
  intros Hone. revert lo. induction hi as [|hi IH]; intros lo u; simpl.
  - constructor; [| constructor]. rewrite Nat.min_0_r. simpl. lia.
  - apply Forall_app. split.
    + apply Forall_bind. eapply Forall_impl; [apply Hone |].
      intros n Hn. simpl. apply Forall_fmap.
      eapply Forall_impl; [apply (IH (pred lo)) |].
      intros k Hk. unfold compose. cbn beta in *. destruct lo as [|lo].
      * rewrite Nat.min_0_l. lia.
      * change (Nat.pred (S lo)) with lo in Hk.
        rewrite <- Nat.succ_min_distr, Nat.mul_succ_l. lia.
    + destruct lo; constructor; [rewrite Nat.min_0_l; lia | constructor].
Qed.

Lemma re_ends_min r u : Forall (λ n, re_min r ≤ n) (re_ends r u).
Proof.
  revert u. induction r as [cs | a IHa b IHb | a IHa b IHb | a IHa lo hi];
    intros u; simpl.
  - destruct u as [|c u]; [constructor |].
    destruct (char_in c cs); constructor; [lia | constructor].
  - apply Forall_bind. eapply Forall_impl; [apply IHa |].
    intros n Hn. simpl. apply Forall_fmap.
    eapply Forall_impl; [apply IHb |]. intros k Hk. simpl in *. lia.
  - apply Forall_app. split.
    + eapply Forall_impl; [apply IHa |]. intros n Hn. simpl in *. lia.
    + eapply Forall_impl; [apply IHb |]. intros n Hn. simpl in *. lia.
  - apply rep_ends_min. exact IHa.
Qed.

Lemma head_Forall {A} (P : A → Prop) (l : list A) x :
  Forall P l → head l = Some x → P x.
Proof. intros H. destruct l; [discriminate |]. intros [= <-]. apply Forall_cons in H. tauto. Qed.

(** A successful element moves on by at least [min_len]. *)
Lemma parse_min_len e : ∀ sk s loc l r,
  _parse sk e s loc = Some (l, r) → loc + min_len e ≤ l.
Proof.
  induction e as [m | m | cs mx | re | | | a IHa b IHb | a IHa b IHb | a IHa
                 | a IHa | a IHa name | a IHa fn]; intros sk s loc l r H;
    pose proof (skip_white_ge sk DEFAULT_WHITE_CHARS s loc) as Hq;
    pose proof (parse_mono _ _ _ _ _ _ H) as Hmono;
    simpl in H; simpl min_len; try lia.
  - destruct (startswith s m _); [| discriminate]. injection H as <- _. lia.
  - destruct (keyword_at s m _); [| discriminate]. injection H as <- _. lia.
  - destruct (match mx with 0 => _ | S _ => _ end) as [|n]; [discriminate |].
    injection H as <- _. lia.
  - destruct (re_match re s _) as [stop|] eqn:Hm; [| discriminate].
    injection H as <- _. apply re_match_Some in Hm as (n & Hn & -> & _).
    apply (head_Forall _ _ _ (re_ends_min re _)) in Hn. lia.
  - destruct (_parse sk a s _) as [[l1 r1]|] eqn:Ha; [| discriminate].
    destruct (_parse sk b s l1) as [[l2 r2]|] eqn:Hb; [| discriminate].
    injection H as <- _. apply IHa in Ha. apply IHb in Hb. lia.
  - destruct (_parse sk a s _) as [[l1 r1]|] eqn:Ha.
    + injection H as <- _. apply IHa in Ha. lia.
    + apply IHb in H. lia.
  - destruct (_parse false a s _) as [[l1 r1]|] eqn:Ha; [| discriminate].
    injection H as <- _. apply IHa in Ha. lia.
  - destruct (_parse sk a s loc) as [[l1 r1]|] eqn:Ha; [| discriminate].
    injection H as <- _. apply IHa in Ha. lia.
  - destruct (_parse sk a s loc) as [[l1 r1]|] eqn:Ha; [| discriminate].
    destruct (fn (_toklist r1)); [| discriminate].
    injection H as <- _. apply IHa in Ha. lia.
Qed.

Lemma text_app (a b : list ascii) : text (a ++ b) = text a +:+ text b.
Proof.
  induction a as [|c a IH]; [reflexivity |].
  change (String c (text (a ++ b)) = String c (text a +:+ text b)).
  f_equal. exact IH.
Qed.

Lemma append_empty_r (a : string) : a +:+ "" = a.
Proof.
  induction a as [|c a IH]; [reflexivity |].
  change (String c (a +:+ "") = String c a). f_equal. exact IH.
Qed.

Lemma append_assoc (a b c : string) : (a +:+ b) +:+ c = a +:+ (b +:+ c).
Proof.
  induction a as [|x a IH]; [reflexivity |].
  change (String x ((a +:+ b) +:+ c) = String x (a +:+ (b +:+ c))).
  f_equal. exact IH.
Qed.

Lemma concat_cons (x : string) (xs : list string) :
  String.concat "" (x :: xs) = x +:+ String.concat "" xs.
Proof.
  destruct xs as [|y xs]; [symmetry; apply append_empty_r | reflexivity].
Qed.

Lemma concat_app (xs ys : list string) :
  String.concat "" (xs ++ ys) = String.concat "" xs +:+ String.concat "" ys.
Proof.
  induction xs as [|x xs IH]; [reflexivity |].
  rewrite <- app_comm_cons, !concat_cons, IH, append_assoc. reflexivity.
Qed.

(** Without white space skipping, the tokens of an element put together are
    the text it consumed, and that text is made of characters of its
    [footprint]. *)
Lemma parse_false_text e : plain e = true →
  ∀ s loc l r, _parse false e s loc = Some (l, r) →
  String.concat "" (_toklist r) = text (take (l - loc) (drop loc s))
  ∧ Forall (λ c, c ∈ footprint e) (take (l - loc) (drop loc s)).
Proof.
  induction e as [m | m | cs mx | re | | | a IHa b IHb | a IHa b IHb | a IHa
                 | a IHa | a IHa name | a IHa fn]; intros Hp s loc l r H;
    simpl in Hp; try discriminate;
    try (apply andb_true_iff in Hp as [Hpa Hpb]);
    pose proof (parse_mono _ _ _ _ _ _ H) as Hmono; simpl in H.
  - unfold startswith in H.
    destruct (starts_with (chars m) (drop loc s)) eqn:Hs; [| discriminate].
    injection H as <- <-. apply starts_with_spec in Hs as [rest ->].
    replace (loc + String.length m - loc) with (length (chars m))
      by (rewrite length_chars; lia).
    rewrite take_app_length. simpl. rewrite string_of_list_ascii_of_string.
    split; [reflexivity |]. apply Forall_forall. auto.
  - unfold keyword_at, startswith in H.
    destruct (starts_with (chars m) (drop loc s)) eqn:Hs; [| discriminate].
    destruct (_ && _); [| discriminate].
    injection H as <- <-. apply starts_with_spec in Hs as [rest ->].
    replace (loc + String.length m - loc) with (length (chars m))
      by (rewrite length_chars; lia).
    rewrite take_app_length. simpl. rewrite string_of_list_ascii_of_string.
    split; [reflexivity |]. apply Forall_forall. intros c Hc.
    apply elem_of_app. auto.
  - pose proof (span_in_take cs (drop loc s)) as Hall.
    destruct (match mx with 0 => _ | S _ => _ end) as [|n] eqn:Hn;
      [discriminate |].
    injection H as <- <-. replace (loc + S n - loc) with (S n) by lia.
    split; [reflexivity |].
    replace (take (S n) (drop loc s))
      with (take (S n) (take (span_in cs (drop loc s)) (drop loc s)))
      by (rewrite take_take; f_equal; destruct mx; lia).
    apply Forall_take, Hall.
  - destruct (re_match re s loc) as [stop|] eqn:Hm; [| discriminate].
    injection H as <- <-. split; [reflexivity |].
    apply re_match_Some in Hm as (n & Hn & -> & _).
    replace (loc + n - loc) with n by lia.
    exact (head_Forall _ _ _ (re_ends_chars re _) Hn).
  - destruct (_parse false a s loc) as [[l1 r1]|] eqn:Ha; [| discriminate].
    destruct (_parse false b s l1) as [[l2 r2]|] eqn:Hb; [| discriminate].
    injection H as <- <-.
    pose proof (parse_mono _ _ _ _ _ _ Ha) as H1.
    pose proof (parse_mono _ _ _ _ _ _ Hb) as H2.
    destruct (IHa Hpa _ _ _ _ Ha) as [Ta Fa].
    destruct (IHb Hpb _ _ _ _ Hb) as [Tb Fb].
    assert (take (l2 - loc) (drop loc s)
            = take (l1 - loc) (drop loc s) ++ take (l2 - l1) (drop l1 s)) as ->.
    { replace (drop l1 s) with (drop (l1 - loc) (drop loc s))
        by (rewrite drop_drop; f_equal; lia).
      rewrite take_take_drop. f_equal. lia. }
    simpl. rewrite concat_app, Ta, Tb, text_app. split; [reflexivity |].
    apply Forall_app. split.
    + eapply Forall_impl; [exact Fa |]. intros c Hc. apply elem_of_app. auto.
    + eapply Forall_impl; [exact Fb |]. intros c Hc. apply elem_of_app. auto.
  - destruct (_parse false a s loc) as [[l1 r1]|] eqn:Ha.
    + injection H as <- <-. destruct (IHa Hpa _ _ _ _ Ha) as [Ta Fa].
      split; [exact Ta |].
      eapply Forall_impl; [exact Fa |]. intros c Hc. apply elem_of_app. auto.
    + destruct (IHb Hpb _ _ _ _ H) as [Tb Fb]. split; [exact Tb |].
      eapply Forall_impl; [exact Fb |]. intros c Hc. apply elem_of_app. auto.
  - destruct (_parse false a s loc) as [[l1 r1]|] eqn:Ha.
    + injection H as <- <-. exact (IHa Hp _ _ _ _ Ha).
    + injection H as <- <-. rewrite Nat.sub_diag, take_0.
      split; [reflexivity | constructor].
  - destruct (_parse false a s loc) as [[l1 r1]|] eqn:Ha; [| discriminate].
    injection H as <- <-. destruct (IHa Hp _ _ _ _ Ha) as [Ta Fa].
    split; [exact Ta | exact Fa].
  - destruct (_parse false a s loc) as [[l1 r1]|] eqn:Ha; [| discriminate].
    injection H as <- <-. destruct (IHa Hp _ _ _ _ Ha) as [Ta Fa].
    split; [| exact Fa]. unfold named_results.
    destruct (_toklist r1) eqn:Ht; [rewrite Ht |]; exact Ta.
  - destruct (_parse false a s loc) as [[l1 r1]|] eqn:Ha; [| discriminate].
    destruct (fn (_toklist r1)); [| discriminate].
    injection H as <- <-. exact (IHa Hp _ _ _ _ Ha).
Qed.

(** ** The tokens of each element *)

Lemma length_text (l : list ascii) : String.length (text l) = length l.
Proof. rewrite <- length_chars, list_ascii_of_string_of_list_ascii. reflexivity. Qed.

Lemma text_nonempty (l : list ascii) : 0 < length l → text l ≠ "".
Proof. destruct l; simpl; [lia | discriminate]. Qed.

Lemma Word_result cs mx name s loc l r :
  _parse true (setResultsName (Word cs mx) name) s loc = Some (l, r) →
  ∃ t, r = mkResults [t] [(name, t)]
       ∧ t ≠ "" ∧ Forall (λ c, c ∈ cs) (chars t)
       ∧ (mx ≠ 0 → String.length t ≤ mx).
Proof.
  simpl. set (q := preParse DEFAULT_WHITE_CHARS s loc).
  pose proof (span_in_take cs (drop q s)) as Hall.
  pose proof (span_in_le cs (drop q s)) as Hle.
  destruct (match mx with 0 => _ | S _ => _ end) as [|n] eqn:Hn; [discriminate |].
  intros [= _ <-]. eexists. split; [reflexivity |].
  assert (S n ≤ span_in cs (drop q s)) as Hn' by (destruct mx; lia).
  assert (length (take (S n) (drop q s)) = S n) as Hlen
    by (apply length_take_le; lia).
  split; [apply text_nonempty; lia |]. split.
  - rewrite list_ascii_of_string_of_list_ascii.
    replace (take (S n) (drop q s))
      with (take (S n) (take (span_in cs (drop q s)) (drop q s)))
      by (rewrite take_take; f_equal; lia).
    apply Forall_take, Hall.
  - intros Hmx. rewrite length_text, Hlen. destruct mx; [congruence | lia].
Qed.

Lemma _USERNAME_result s loc l r :
  _parse true _USERNAME s loc = Some (l, r) →
  ∃ u, r = mkResults [u] [("username", u)] ∧ username_shaped u.
Proof.
  intros H. apply Word_result in H as (u & -> & Hne & Hall & _).
  exists u. split; [reflexivity | split; assumption].
Qed.

Lemma _PORT_result s loc l r :
  _parse true _PORT s loc = Some (l, r) →
  ∃ p, r = mkResults [p] [("port", p)] ∧ port_shaped p.
Proof.
  intros H. apply Word_result in H as (p & -> & Hne & Hall & Hmx).
  exists p. split; [reflexivity |]. split; [| exact Hall].
  specialize (Hmx ltac:(discriminate)).
  destruct p; [congruence | simpl in *; lia].
Qed.

Lemma method_result name s loc l r :
  _parse true (setResultsName _AUTHENTICATION_METHOD name) s loc = Some (l, r) →
  ∃ m, r = mkResults [m] [(name, m)] ∧ method_shaped m.
Proof.
  intros H. apply auth_result in H as [-> | ->]; eexists;
    (split; [reflexivity |]); [left | right]; reflexivity.
Qed.

Lemma unnamed_tokdict sk e s loc l r :
  result_names e = [] → _parse sk e s loc = Some (l, r) → _tokdict r = [].
Proof.
  intros Hn H. apply tokdict_names in H. rewrite Hn in H.
  destruct (_tokdict r) as [|kv d]; [reflexivity |].
  apply Forall_cons in H as [H _]. apply elem_of_nil in H. contradiction.
Qed.

Lemma address_footprint :
  Forall (λ c, c ∈ ADDRESS_CHARS) (footprint _IP_ADDRESS).
Proof. decide_now. Qed.

Lemma parse_MatchFirst_false e1 e2 s loc :
  _parse false (e1 <|> e2) s loc =
  match _parse false e1 s loc with
  | Some res => Some res
  | None => _parse false e2 s loc
  end.
Proof. reflexivity. Qed.

Lemma Regex_result sk re s loc l r :
  _parse sk (Regex re) s loc = Some (l, r) → ∃ t, r = one_token t.
Proof.
  simpl. destruct (re_match re s _); [| discriminate].
  intros [= _ <-]. eauto.
Qed.

Lemma _IP_ADDRESS_one_token s loc l r :
  _parse false _IP_ADDRESS s loc = Some (l, r) → ∃ a, r = mkResults [a] [].
Proof.
  unfold _IP_ADDRESS. rewrite parse_MatchFirst_false.
  destruct (_parse false ipv4_address s loc) as [[l4 r4]|] eqn:H4.
  - intros [= _ <-]. apply Regex_result in H4 as [t ->]. eauto.
  - unfold ipv6_address. rewrite parse_Combine. cbn [skip_white].
    destruct (_parse false (_ <|> _) s loc) as [[l6 r6]|] eqn:H6;
      [| discriminate].
    intros [= _ <-].
    rewrite (unnamed_tokdict false
               (_full_ipv6_address <|> _mixed_ipv6_address
                <|> _short_ipv6_address)%pp _ _ _ _ eq_refl H6).
    eauto.
Qed.

(** The address is one token: the text consumed by [_IP_ADDRESS]. *)
Lemma _IP_ADDRESS_result name s loc l r :
  _parse true (setResultsName _IP_ADDRESS name) s loc = Some (l, r) →
  ∃ a, r = mkResults [a] [(name, a)] ∧ address_shaped a.
Proof.
  rewrite parse_setResultsName, parse_lexeme by reflexivity.
  rewrite parse_shift by reflexivity.
  set (u := drop (preParse DEFAULT_WHITE_CHARS s loc) s).
  destruct (_parse false _IP_ADDRESS u 0) as [[l0 r0]|] eqn:H;
    unfold shift; simpl; [| discriminate].
  intros [= _ <-].
  destruct (parse_false_text _IP_ADDRESS eq_refl _ _ _ _ H) as [Htext Hchars].
  pose proof (parse_min_len _ _ _ _ _ _ H) as Hmin.
  change (min_len _IP_ADDRESS) with 2 in Hmin.
  pose proof (parse_bound _IP_ADDRESS eq_refl _ _ _ _ _ H ltac:(lia)) as [_ Hlen].
  destruct (_IP_ADDRESS_one_token _ _ _ _ H) as [a ->].
  exists a. split; [reflexivity |].
  simpl in Htext. rewrite Htext, Nat.sub_0_r, drop_0 in *.
  split.
  - apply text_nonempty. rewrite length_take_le by exact Hlen. lia.
  - rewrite list_ascii_of_string_of_list_ascii.
    eapply Forall_impl; [exact Hchars |].
    intros c Hc. exact (proj1 (Forall_forall _ _) address_footprint c Hc).
Qed.

Lemma Word_token sk cs mx s loc l r :
  _parse sk (Word cs mx) s loc = Some (l, r) →
  ∃ t, r = one_token t ∧ t ≠ "" ∧ Forall (λ c, c ∈ cs) (chars t).
Proof.
  simpl. set (q := skip_white sk DEFAULT_WHITE_CHARS s loc).
  pose proof (span_in_take cs (drop q s)) as Hall.
  pose proof (span_in_le cs (drop q s)) as Hle.
  destruct (match mx with 0 => _ | S _ => _ end) as [|n] eqn:Hn; [discriminate |].
  intros [= _ <-]. eexists. split; [reflexivity |].
  assert (S n ≤ span_in cs (drop q s)) as Hn' by (destruct mx; lia).
  split.
  - apply text_nonempty. rewrite length_take_le by lia. lia.
  - rewrite list_ascii_of_string_of_list_ascii.
    replace (take (S n) (drop q s))
      with (take (S n) (take (span_in cs (drop q s)) (drop q s)))
      by (rewrite take_take; f_equal; lia).
    apply Forall_take, Hall.
Qed.

Lemma protocol_result s loc l r :
  _parse true (setResultsName (Literal "ssh2") "protocol") s loc = Some (l, r) →
  r = mkResults ["ssh2"] [("protocol", "ssh2")].
Proof.
  rewrite parse_setResultsName.
  destruct (_parse true (Literal "ssh2") s loc) as [[l1 r1]|] eqn:H;
    [| discriminate].
  intros [= _ <-]. apply Literal_result in H as ->. reflexivity.
Qed.

Lemma _FINGER_PRINT_result s loc l r :
  _parse true _FINGER_PRINT s loc = Some (l, r) →
  ∃ f, r = mkResults [f] [("fingerprint", f)] ∧ fingerprint_shaped f.
Proof.
  unfold _FINGER_PRINT.
  rewrite parse_setResultsName, parse_Combine, parse_And_false,
    parse_Literal_false.
  destruct (startswith s "RSA " _); [| discriminate].
  destruct (_parse false (Word (chars ":" ++ hexnums) 0) s _) as [[l1 r1]|] eqn:Hw;
    [| discriminate].
  intros [= _ <-]. apply Word_token in Hw as (h & -> & Hne & Hall).
  exists ("RSA " +:+ h). split.
  - unfold named_results, add_results, one_token. simpl _toklist.
    rewrite !concat_cons. simpl String.concat. rewrite append_empty_r.
    reflexivity.
  - exists h. auto.
Qed.

Lemma fingerprint_clause_result s loc l r :
  _parse true (Optional (Literal ":" + _FINGER_PRINT)) s loc = Some (l, r) →
  r = no_tokens
  ∨ ∃ f, r = mkResults [":"; f] [("fingerprint", f)] ∧ fingerprint_shaped f.
Proof.
  rewrite parse_Optional by reflexivity.
  destruct (_parse true (Literal ":" + _FINGER_PRINT) s loc) as [[l1 r1]|] eqn:H.
  - intros [= _ <-]. right.
    apply parse_And_Some in H as (la & ra & rb & Ha & Hb & ->); [| reflexivity].
    apply Literal_result in Ha as ->.
    apply _FINGER_PRINT_result in Hb as (f & -> & Hf).
    exists f. split; [reflexivity | exact Hf].
  - intros [= _ <-]. left. reflexivity.
Qed.

Lemma StringEnd_result sk s loc l r :
  _parse sk StringEnd s loc = Some (l, r) → r = no_tokens.
Proof.
  simpl. destruct (_ <? length s); [discriminate |].
  destruct (_ =? length s); intros [= _ <-]; reflexivity.
Qed.

Lemma LineEnd_result s loc l r :
  _parse true LineEnd s loc = Some (l, r) → ∃ toks, r = mkResults toks [].
Proof.
  intros H. apply LineEnd_Some in H as [_ H].
  destruct r as [toks d]. simpl in H. subst d. eauto.
Qed.

(** ** The tokens of each grammar *)

Lemma auth_user_from_result first s loc l r :
  _parse true (auth_user_from first) s loc = Some (l, r) →
  ∃ m u,
    r = mkResults [first; m; "for"; u; "from"]
          [("authentication_method", m); ("username", u)]
    ∧ method_shaped m ∧ username_shaped u.
Proof.
  intros H. unfold auth_user_from in H.
  apply parse_And_Some in H as (l4 & r4 & r5 & H & H5 & ->); [| reflexivity].
  apply parse_And_Some in H as (l3 & r3 & r4' & H & H4 & ->); [| reflexivity].
  apply parse_And_Some in H as (l2 & r2 & r3' & H & H3 & ->); [| reflexivity].
  apply parse_And_Some in H as (l1 & r1 & r2' & H1 & H2 & ->); [| reflexivity].
  apply Literal_result in H1 as ->. apply Literal_result in H3 as ->.
  apply Literal_result in H5 as ->.
  apply method_result in H2 as (m & -> & Hm).
  apply _USERNAME_result in H4 as (u & -> & Hu).
  exists m, u. split; [reflexivity | split; assumption].
Qed.

Lemma addr_port_result head s loc l r :
  skips_first head = true →
  _parse true (addr_port head) s loc = Some (l, r) →
  ∃ l0 r0 a,
    _parse true head s loc = Some (l0, r0)
    ∧ r = add_results
            (add_results r0 (mkResults [a] [("address", a)])) (one_token "port")
    ∧ address_shaped a.
Proof.
  intros Hsk H. unfold addr_port in H.
  apply parse_And_Some in H as (l2 & r2 & r3 & H & H3 & ->); [| reflexivity].
  apply parse_And_Some in H as (l1 & r1 & r2' & H1 & H2 & ->); [| exact Hsk].
  apply Literal_result in H3 as ->.
  apply _IP_ADDRESS_result in H2 as (a & -> & Ha).
  exists l1, r1, a. split; [exact H1 | split; [reflexivity | exact Ha]].
Qed.

Lemma opened_result s l r :
  _parse true _OPENED_CONNECTION_GRAMMAR s 0 = Some (l, r) →
  ∃ a p, _tokdict r = [("address", a); ("port", p)]
         ∧ address_shaped a ∧ port_shaped p.
Proof.
  rewrite _OPENED_CONNECTION_GRAMMAR_eq. intros H.
  apply parse_And_Some in H as (l2 & r12 & r3 & H & H3 & ->); [| reflexivity].
  apply parse_And_Some in H as (l1 & r1 & r2 & H1 & H2 & ->); [| reflexivity].
  apply addr_port_result in H1 as (l0 & r0 & a & H0 & -> & Ha);
    [| reflexivity].
  apply Literal_result in H0 as ->.
  apply _PORT_result in H2 as (p & -> & Hp).
  apply LineEnd_result in H3 as [toks ->].
  exists a, p. split; [reflexivity | split; assumption].
Qed.

Lemma failed_result s l r :
  _parse true _FAILED_CONNECTION_GRAMMAR s 0 = Some (l, r) →
  ∃ m u a p,
    r = mkResults ["Failed"; m; "for"; u; "from"; a; "port"; p]
          [("authentication_method", m); ("username", u); ("address", a);
           ("port", p)]
    ∧ method_shaped m ∧ username_shaped u ∧ address_shaped a ∧ port_shaped p.
Proof.
  rewrite _FAILED_CONNECTION_GRAMMAR_eq. intros H.
  apply parse_And_Some in H as (l2 & r12 & r3 & H & H3 & ->); [| reflexivity].
  apply parse_And_Some in H as (l1 & r1 & r2 & H1 & H2 & ->); [| reflexivity].
  apply addr_port_result in H1 as (l0 & r0 & a & H0 & -> & Ha);
    [| reflexivity].
  apply auth_user_from_result in H0 as (m & u & -> & Hm & Hu).
  apply _PORT_result in H2 as (p & -> & Hp).
  apply StringEnd_result in H3 as ->.
  exists m, u, a, p. split; [reflexivity | auto].
Qed.

Lemma login_result s l r :
  _parse true _LOGIN_GRAMMAR s 0 = Some (l, r) →
  ∃ m u a p,
    method_shaped m ∧ username_shaped u ∧ address_shaped a ∧ port_shaped p
    ∧ (r = mkResults
             ["Accepted"; m; "for"; u; "from"; a; "port"; p; "ssh2"]
             [("authentication_method", m); ("username", u); ("address", a);
              ("port", p); ("protocol", "ssh2")]
       ∨ ∃ f,
           fingerprint_shaped f
           ∧ r = mkResults
                   ["Accepted"; m; "for"; u; "from"; a; "port"; p; "ssh2";
                    ":"; f]
                   [("authentication_method", m); ("username", u);
                    ("address", a); ("port", p); ("protocol", "ssh2");
                    ("fingerprint", f)]).
Proof.
  rewrite _LOGIN_GRAMMAR_eq. intros H.
  apply parse_And_Some in H as (l2 & r12 & r3 & H & H3 & ->); [| reflexivity].
  apply parse_And_Some in H as (l1 & r1 & r2 & H1 & H2 & ->); [| reflexivity].
  unfold login_to_ssh2 in H1.
  apply parse_And_Some in H1 as (lb & rab & rc & H1 & Hc & ->); [| reflexivity].
  apply parse_And_Some in H1 as (la & ra & rb & Ha & Hb & ->); [| reflexivity].
  apply addr_port_result in Ha as (l0 & r0 & a & H0 & -> & Haddr);
    [| reflexivity].
  apply auth_user_from_result in H0 as (m & u & -> & Hm & Hu).
  apply _PORT_result in Hb as (p & -> & Hp).
  apply protocol_result in Hc as ->.
  apply StringEnd_result in H3 as ->.
  exists m, u, a, p. do 4 (split; [assumption |]).
  apply fingerprint_clause_result in H2 as [-> | (f & -> & Hf)].
  - left. reflexivity.
  - right. exists f. split; [exact Hf | reflexivity].
Qed.

Lemma parseString_Some e body r :
  parseString e body = Some r →
  ∃ l, _parse true e (expandtabs (chars body)) 0 = Some (l, r).
Proof.
  unfold parseString.
  destruct (_parse true e (expandtabs (chars body)) 0) as [[l r']|];
    [| discriminate].
  intros [= <-]. eauto.
Qed.

(** X4: the token mapping of a body matched by the opened_connection grammar
    has exactly the two entries address and port; the address is a
    non-empty text of hex digits, colons and dots, the port one to five
    decimal digits. *)
Theorem X4_opened_connection_tokens body r :
  parseString _OPENED_CONNECTION_GRAMMAR body = Some r →
  ∃ a p, asDict r = dict_of [("address", a); ("port", p)]
         ∧ address_shaped a ∧ port_shaped p.
Proof.
  intros [l H]%parseString_Some.
  apply opened_result in H as (a & p & Hd & Ha & Hp).
  exists a, p. rewrite asDict_dict_of, Hd. auto.
Qed.

(** X5: the token mapping of a body matched by the failed_connection grammar
    has exactly the entries authentication_method, username, address and
    port: the method is password or publickey, the user name a non-empty
    alphanumeric text, the address made of hex digits, colons and dots, the
    port one to five decimal digits. *)
Theorem X5_failed_connection_tokens body r :
  parseString _FAILED_CONNECTION_GRAMMAR body = Some r →
  ∃ m u a p,
    asDict r
      = dict_of [("authentication_method", m); ("username", u);
                 ("address", a); ("port", p)]
    ∧ method_shaped m ∧ username_shaped u ∧ address_shaped a ∧ port_shaped p.
Proof.
  intros [l H]%parseString_Some.
  apply failed_result in H as (m & u & a & p & -> & Hshapes).
  exists m, u, a, p. split; [reflexivity | exact Hshapes].
Qed.

(** X6: the token mapping of a body matched by the login grammar has the
    entries authentication_method, username, address, port and protocol,
    the protocol being ssh2, and either no other entry or a fingerprint made
    of [RSA ] and a non-empty text of colons and hex digits. *)
Theorem X6_login_tokens body r :
  parseString _LOGIN_GRAMMAR body = Some r →
  ∃ m u a p,
    method_shaped m ∧ username_shaped u ∧ address_shaped a ∧ port_shaped p
    ∧ (asDict r
         = dict_of [("authentication_method", m); ("username", u);
                    ("address", a); ("port", p); ("protocol", "ssh2")]
       ∨ ∃ f,
           fingerprint_shaped f
           ∧ asDict r
             = dict_of [("authentication_method", m); ("username", u);
                        ("address", a); ("port", p); ("protocol", "ssh2");
                        ("fingerprint", f)]).
Proof.
  intros [l H]%parseString_Some.
  apply login_result in H as (m & u & a & p & Hm & Hu & Ha & Hp & Hr).
  exists m, u, a, p. do 4 (split; [assumption |]).
  destruct Hr as [-> | (f & Hf & ->)]; [left; reflexivity |].
  right. exists f. split; [exact Hf | reflexivity].
Qed.

Lemma X4_opened_connection_tokens_witness :
  ∃ a p,
    asDict
      (mkResults ["Connection from"; "2001:db8::1"; "port"; "22"]
         [("address", "2001:db8::1"); ("port", "22")])
    = dict_of [("address", a); ("port", p)]
    ∧ address_shaped a ∧ port_shaped p.
Proof.
  apply (X4_opened_connection_tokens "Connection from 2001:db8::1 port 22").
  vm_compute. reflexivity.
Defined.

Lemma X5_failed_connection_tokens_witness :
  ∃ m u a p,
    asDict
      (mkResults
         ["Failed"; "password"; "for"; "root"; "from"; "192.168.1.1"; "port";
          "22"]
         [("authentication_method", "password"); ("username", "root");
          ("address", "192.168.1.1"); ("port", "22")])
    = dict_of [("authentication_method", m); ("username", u);
               ("address", a); ("port", p)]
    ∧ method_shaped m ∧ username_shaped u ∧ address_shaped a ∧ port_shaped p.
Proof.
  apply (X5_failed_connection_tokens
           "Failed password for root from 192.168.1.1 port 22").
  vm_compute. reflexivity.
Defined.

Lemma X6_login_tokens_witness :
  ∃ m u a p,
    method_shaped m ∧ username_shaped u ∧ address_shaped a ∧ port_shaped p
    ∧ (asDict
         (mkResults
            ["Accepted"; "publickey"; "for"; "bob"; "from"; "10.0.0.5"; "port";
             "2222"; "ssh2"; ":"; "RSA aa:bb:cc:dd"]
            [("authentication_method", "publickey"); ("username", "bob");
             ("address", "10.0.0.5"); ("port", "2222"); ("protocol", "ssh2");
             ("fingerprint", "RSA aa:bb:cc:dd")])
         = dict_of [("authentication_method", m); ("username", u);
                    ("address", a); ("port", p); ("protocol", "ssh2")]
       ∨ ∃ f,
           fingerprint_shaped f
           ∧ asDict
               (mkResults
                  ["Accepted"; "publickey"; "for"; "bob"; "from"; "10.0.0.5";
                   "port"; "2222"; "ssh2"; ":"; "RSA aa:bb:cc:dd"]
                  [("authentication_method", "publickey"); ("username", "bob");
                   ("address", "10.0.0.5"); ("port", "2222");
                   ("protocol", "ssh2"); ("fingerprint", "RSA aa:bb:cc:dd")])
             = dict_of [("authentication_method", m); ("username", u);
                        ("address", a); ("port", p); ("protocol", "ssh2");
                        ("fingerprint", f)]).
Proof.
  apply (X6_login_tokens
           "Accepted publickey for bob from 10.0.0.5 port 2222 ssh2: RSA aa:bb:cc:dd").
  vm_compute. reflexivity.
Defined.

(** ** From a matched body to event data *)


Section EventsOfMatches.
Context {DateTimeValues : Type}.
Implicit Types (parser_mediator : ParserMediator DateTimeValues)
  (date_time : DateTimeValues).



End EventsOfMatches.




(** ** The grammars exclude one another *)

Lemma And_first_literal m e s loc l r :
  _parse true (Literal m + e) s loc = Some (l, r) →
  startswith s m (preParse DEFAULT_WHITE_CHARS s loc) = true.
Proof.
  intros H.
  apply parse_And_Some in H as (l1 & r1 & r2 & H1 & _ & _); [| reflexivity].
  simpl in H1. destruct (startswith s m _); [reflexivity | discriminate].
Qed.

Lemma login_first_literal s l r :
  _parse true _LOGIN_GRAMMAR s 0 = Some (l, r) →
  startswith s "Accepted" (preParse DEFAULT_WHITE_CHARS s 0) = true.
Proof.
  intros H. unfold _LOGIN_GRAMMAR in H.
  do 9 (apply parse_And_Some in H as (? & ? & ? & H & _ & _); [| reflexivity]).
  exact (And_first_literal _ _ _ _ _ _ H).
Qed.

Lemma failed_first_literal s l r :
  _parse true _FAILED_CONNECTION_GRAMMAR s 0 = Some (l, r) →
  startswith s "Failed" (preParse DEFAULT_WHITE_CHARS s 0) = true.
Proof.
  intros H. unfold _FAILED_CONNECTION_GRAMMAR in H.
  do 7 (apply parse_And_Some in H as (? & ? & ? & H & _ & _); [| reflexivity]).
  exact (And_first_literal _ _ _ _ _ _ H).
Qed.

Lemma opened_first_literal s l r :
  _parse true _OPENED_CONNECTION_GRAMMAR s 0 = Some (l, r) →
  startswith s "Connection from" (preParse DEFAULT_WHITE_CHARS s 0) = true.
Proof.
  intros H. unfold _OPENED_CONNECTION_GRAMMAR in H.
  do 3 (apply parse_And_Some in H as (? & ? & ? & H & _ & _); [| reflexivity]).
  exact (And_first_literal _ _ _ _ _ _ H).
Qed.

Lemma startswith_same_head s m1 m2 q c1 c2 u1 u2 :
  chars m1 = c1 :: u1 → chars m2 = c2 :: u2 →
  startswith s m1 q = true → startswith s m2 q = true → c1 = c2.
Proof.
  unfold startswith. intros -> ->. destruct (drop q s) as [|c u]; simpl;
    [discriminate |].
  intros [->%Ascii.eqb_eq _]%andb_true_iff [->%Ascii.eqb_eq _]%andb_true_iff.
  reflexivity.
Qed.

(** X10: no body is matched by two of the three grammars: of any two of
    them at least one fails, so the order of [MESSAGE_GRAMMARS] never decides
    between two matches. *)
Theorem X10_grammars_exclusive body :
  (parseString _LOGIN_GRAMMAR body = None
   ∨ parseString _FAILED_CONNECTION_GRAMMAR body = None)
  ∧ (parseString _LOGIN_GRAMMAR body = None
     ∨ parseString _OPENED_CONNECTION_GRAMMAR body = None)
  ∧ (parseString _FAILED_CONNECTION_GRAMMAR body = None
     ∨ parseString _OPENED_CONNECTION_GRAMMAR body = None).
Proof.
  unfold parseString. set (s := expandtabs (chars body)).
  destruct (_parse true _LOGIN_GRAMMAR s 0) as [[l1 r1]|] eqn:H1;
    destruct (_parse true _FAILED_CONNECTION_GRAMMAR s 0) as [[l2 r2]|] eqn:H2;
    destruct (_parse true _OPENED_CONNECTION_GRAMMAR s 0) as [[l3 r3]|] eqn:H3;
    simpl; try (repeat split; auto; fail); exfalso.
  all: try apply login_first_literal in H1.
  all: try apply failed_first_literal in H2.
  all: try apply opened_first_literal in H3.
  - pose proof (startswith_same_head s "Accepted" "Failed" _ _ _ _ _
                  eq_refl eq_refl H1 H2).
    discriminate.
  - pose proof (startswith_same_head s "Accepted" "Failed" _ _ _ _ _
                  eq_refl eq_refl H1 H2).
    discriminate.
  - pose proof (startswith_same_head s "Accepted" "Connection from" _ _ _ _ _
                  eq_refl eq_refl H1 H3).
    discriminate.
  - pose proof (startswith_same_head s "Failed" "Connection from" _ _ _ _ _
                  eq_refl eq_refl H2 H3).
    discriminate.
Qed.

(** ** White space around a body *)

Lemma white_not_keyword_char c :
  c ∈ DEFAULT_WHITE_CHARS → char_in c DEFAULT_KEYWORD_CHARS = false.
Proof.
  intros Hc. apply char_in_false. revert c Hc. apply Forall_forall. decide_now.
Qed.

Lemma preParse_lead wc w s loc :
  preParse wc (w ++ s) (length w + loc) = length w + preParse wc s loc.
Proof.
  unfold preParse. rewrite drop_app_add. lia.
Qed.

Lemma skip_white_lead sk wc w s loc :
  skip_white sk wc (w ++ s) (length w + loc) = length w + skip_white sk wc s loc.
Proof. destruct sk; simpl; [apply preParse_lead | reflexivity]. Qed.

Lemma keyword_at_lead w s m q :
  Forall white w →
  keyword_at (w ++ s) m (length w + q) = keyword_at s m q.
Proof.
  intros Hw. unfold keyword_at, startswith. rewrite drop_app_add.
  f_equal; [f_equal |].
  - destruct q as [|b].
    + rewrite Nat.add_0_r. destruct (length w) as [|n] eqn:Hn; [reflexivity |].
      rewrite lookup_app_l by lia.
      destruct (w !! n) as [c|] eqn:Hc; [| reflexivity].
      rewrite white_not_keyword_char; [reflexivity |].
      rewrite Forall_lookup in Hw. exact (Hw n c Hc).
    + replace (length w + S b) with (S (length w + b)) by lia.
      rewrite lookup_app_r by lia.
      replace (length w + b - length w) with b by lia. reflexivity.
  - rewrite <- Nat.add_assoc, lookup_app_r by lia.
    replace (length w + (q + String.length m) - length w)
      with (q + String.length m) by lia.
    reflexivity.
Qed.

(** White space put in front of the input moves every parse to the right
    and changes nothing else. *)
Lemma parse_lead e : ∀ sk w s loc,
  Forall white w →
  _parse sk e (w ++ s) (length w + loc) = shift (length w) (_parse sk e s loc).
Proof.
  induction e as [m | m | cs mx | re | | | a IHa b IHb | a IHa b IHb | a IHa
                 | a IHa | a IHa name | a IHa fn]; intros sk w s loc Hw;
    simpl; rewrite ?skip_white_lead.
  - unfold startswith. rewrite drop_app_add.
    destruct (starts_with _ _); simpl; [| reflexivity].
    unfold shift. simpl. do 2 f_equal. lia.
  - rewrite keyword_at_lead by exact Hw.
    destruct (keyword_at _ _ _); simpl; [| reflexivity].
    unfold shift. simpl. do 2 f_equal. lia.
  - rewrite drop_app_add.
    destruct (match mx with 0 => _ | S _ => _ end) as [|n]; simpl;
      [reflexivity |].
    unfold shift. simpl. do 2 f_equal. lia.
  - unfold re_match. rewrite drop_app_add.
    set (q := skip_white sk DEFAULT_WHITE_CHARS s loc).
    destruct (head (re_ends re (drop q s))) as [n|]; simpl; [| reflexivity].
    unfold shift. simpl.
    replace (length w + q + n - (length w + q)) with (q + n - q) by lia.
    do 2 f_equal. lia.
  - rewrite length_app.
    set (q := skip_white sk DEFAULT_WHITE_CHARS s loc).
    destruct (Nat.ltb_spec q (length s)) as [Hlt | Hge].
    + replace (length w + q <? length w + length s) with true
        by (symmetry; apply Nat.ltb_lt; lia).
      reflexivity.
    + replace (length w + q <? length w + length s) with false
        by (symmetry; apply Nat.ltb_ge; lia).
      destruct (Nat.eqb_spec q (length s)) as [Heq | Hne].
      * replace (length w + q =? length w + length s) with true
          by (symmetry; apply Nat.eqb_eq; lia).
        unfold shift. simpl. do 2 f_equal. lia.
      * replace (length w + q =? length w + length s) with false
          by (symmetry; apply Nat.eqb_neq; lia).
        reflexivity.
  - rewrite length_app, lookup_app_r by lia.
    set (q := skip_white sk LINE_END_WHITE_CHARS s loc).
    replace (length w + q - length w) with q by lia.
    destruct (s !! q) as [c|].
    + destruct (Ascii.eqb c LF); [| reflexivity].
      unfold shift. simpl. do 2 f_equal. lia.
    + destruct (Nat.eqb_spec q (length s)) as [Heq | Hne].
      * replace (length w + q =? length w + length s) with true
          by (symmetry; apply Nat.eqb_eq; lia).
        unfold shift. simpl. do 2 f_equal. lia.
      * replace (length w + q =? length w + length s) with false
          by (symmetry; apply Nat.eqb_neq; lia).
        reflexivity.
  - rewrite IHa by exact Hw.
    destruct (_parse sk a s _) as [[l1 r1]|]; simpl; [| reflexivity].
    rewrite IHb by exact Hw.
    destruct (_parse sk b s l1) as [[l2 r2]|]; reflexivity.
  - rewrite IHa by exact Hw.
    destruct (_parse sk a s _) as [[l1 r1]|]; simpl; [reflexivity |].
    apply IHb, Hw.
  - rewrite IHa by exact Hw.
    destruct (_parse sk a s _) as [[l1 r1]|]; reflexivity.
  - rewrite IHa by exact Hw.
    destruct (_parse false a s _) as [[l1 r1]|]; reflexivity.
  - rewrite IHa by exact Hw.
    destruct (_parse sk a s loc) as [[l1 r1]|]; reflexivity.
  - rewrite IHa by exact Hw.
    destruct (_parse sk a s loc) as [[l1 r1]|]; simpl; [| reflexivity].
    destruct (fn (_toklist r1)); reflexivity.
Qed.

Lemma parse_lead_start e w s :
  skips_first e = true → Forall white w →
  snd <$> _parse true e (w ++ s) 0 = snd <$> _parse true e s 0.
Proof.
  intros He Hw.
  rewrite <- (parse_preParse_idem e (w ++ s) 0) by exact He.
  assert (preParse DEFAULT_WHITE_CHARS (w ++ s) 0
          = preParse DEFAULT_WHITE_CHARS (w ++ s) (length w + 0)) as ->.
  { rewrite preParse_lead. unfold preParse. rewrite !drop_0.
    rewrite span_in_all by exact Hw. lia. }
  rewrite parse_preParse_idem by exact He.
  rewrite parse_lead by exact Hw.
  destruct (_parse true e s 0) as [[l r]|]; reflexivity.
Qed.

Lemma expandtabs_lead (W body : string) :
  all_white W → Forall (λ c, c ≠ TAB) (chars body) →
  ∃ w, expandtabs (chars (W +:+ body)) = w ++ expandtabs (chars body)
       ∧ Forall white w.
Proof.
  intros HW Hb. rewrite chars_app. unfold expandtabs.
  destruct (expandtabs_from_app 0 (chars W) (chars body)) as [col ->].
  rewrite !(expandtabs_from_no_tab _ (chars body)) by exact Hb.
  eexists. split; [reflexivity |]. apply expandtabs_from_white, HW.
Qed.

(** X11: white space in front of a body without tabs changes neither
    whether a grammar matches it nor the tokens. *)
Theorem X11_leading_white_space (W body : string) :
  all_white W → Forall (λ c, c ≠ TAB) (chars body) →
  parseString _LOGIN_GRAMMAR (W +:+ body) = parseString _LOGIN_GRAMMAR body
  ∧ parseString _FAILED_CONNECTION_GRAMMAR (W +:+ body)
    = parseString _FAILED_CONNECTION_GRAMMAR body
  ∧ parseString _OPENED_CONNECTION_GRAMMAR (W +:+ body)
    = parseString _OPENED_CONNECTION_GRAMMAR body.
Proof.
  intros HW Hb. unfold parseString.
  destruct (expandtabs_lead W body HW Hb) as (w & -> & Hw).
  repeat split; apply parse_lead_start; (reflexivity || exact Hw).
Qed.

Lemma X11_leading_white_space_witness :
  parseString _LOGIN_GRAMMAR
    (String TAB " " +:+ "Accepted password for alice from 10.0.0.5 port 22 ssh2")
  = parseString _LOGIN_GRAMMAR
      "Accepted password for alice from 10.0.0.5 port 22 ssh2"
  ∧ parseString _FAILED_CONNECTION_GRAMMAR
      (String TAB " " +:+ "Accepted password for alice from 10.0.0.5 port 22 ssh2")
    = parseString _FAILED_CONNECTION_GRAMMAR
        "Accepted password for alice from 10.0.0.5 port 22 ssh2"
  ∧ parseString _OPENED_CONNECTION_GRAMMAR
      (String TAB " " +:+ "Accepted password for alice from 10.0.0.5 port 22 ssh2")
    = parseString _OPENED_CONNECTION_GRAMMAR
        "Accepted password for alice from 10.0.0.5 port 22 ssh2".
Proof.
  apply X11_leading_white_space; [unfold all_white |]; decide_now.
Defined.

Lemma Literal_white_None m s loc :
  m ≠ "" → loc ≤ length s → Forall white (drop loc s) →
  _parse true (Literal m) s loc = None
  ∧ preParse DEFAULT_WHITE_CHARS s loc = length s.
Proof.
  intros Hm Hloc Hw.
  destruct (preParse_drop DEFAULT_WHITE_CHARS s loc (drop loc s) []) as [Hq _];
    [symmetry; apply app_nil_r | exact Hw | discriminate |].
  rewrite length_drop in Hq. replace (loc + (length s - loc)) with (length s) in Hq by lia.
  split; [| exact Hq].
  rewrite <- parse_preParse_idem by reflexivity. rewrite Hq.
  apply Literal_at_end; [exact Hm | lia].
Qed.

Lemma white_tail_cases (W : list ascii) :
  Forall white W → W = [] ∨ ∃ c rest, W = [] ++ c :: rest ∧ c ∈ DEFAULT_WHITE_CHARS.
Proof.
  intros HW. destruct W as [|c rest]; [left; reflexivity | right].
  exists c, rest. split; [reflexivity |]. apply Forall_cons in HW. tauto.
Qed.

Lemma white_not_fingerprint_char c :
  c ∈ DEFAULT_WHITE_CHARS → c ∉ chars ":" ++ hexnums.
Proof. revert c. apply Forall_forall. decide_now. Qed.

Lemma failed_trailing_white s l r W :
  _parse true _FAILED_CONNECTION_GRAMMAR s 0 = Some (l, r) → Forall white W →
  ∃ l', _parse true _FAILED_CONNECTION_GRAMMAR (s ++ W) 0 = Some (l', r).
Proof.
  intros H HW.
  destruct (white_tail_cases W HW) as [-> | (c & rest & -> & Hc)];
    [rewrite app_nil_r; eauto |].
  rewrite _FAILED_CONNECTION_GRAMMAR_eq in *.
  apply parse_And_Some in H as (l2 & r12 & r3 & H & H3 & ->); [| reflexivity].
  apply parse_And_Some in H as (l1 & r1 & r2 & H1 & H2 & ->); [| reflexivity].
  pose proof (parse_bound failed_to_port eq_refl _ _ _ _ _ H1 ltac:(lia)) as [_ Hl1].
  pose proof (parse_bound _PORT eq_refl _ _ _ _ _ H2 Hl1) as [_ Hl2].
  pose proof (StringEnd_Some _ _ _ _ H3) as Hd.
  rewrite (StringEnd_white s l2 Hl2 Hd) in H3. injection H3 as _ <-.
  rewrite parse_And by reflexivity. rewrite parse_And by reflexivity.
  rewrite (stable_failed_to_port _ _ _ H1), H1.
  rewrite (_PORT_end_garbage _ _ _ _ [] c rest H2);
    [| assumption | assumption | constructor
     | intros Hn; exact (nums_not_white c Hn Hc)].
  rewrite StringEnd_white; [eauto | rewrite length_app; lia |].
  rewrite drop_app_le by exact Hl2. apply Forall_app. split; [exact Hd |].
  constructor; [exact Hc |]. apply Forall_cons in HW. tauto.
Qed.

Lemma login_trailing_white s l r W :
  _parse true _LOGIN_GRAMMAR s 0 = Some (l, r) → Forall white W →
  ∃ l', _parse true _LOGIN_GRAMMAR (s ++ W) 0 = Some (l', r).
Proof.
  intros H HW.
  destruct (white_tail_cases W HW) as [-> | (c & rest & -> & Hc)];
    [rewrite app_nil_r; eauto |].
  assert (Forall white (c :: rest)) as HW' by exact HW.
  rewrite _LOGIN_GRAMMAR_eq in *.
  apply parse_And_Some in H as (l2 & r12 & r3 & H & H3 & ->); [| reflexivity].
  apply parse_And_Some in H as (l1 & r1 & r2 & H1 & H2 & ->); [| reflexivity].
  pose proof (parse_bound login_to_ssh2 eq_refl _ _ _ _ _ H1 ltac:(lia)) as [_ Hl1].
  pose proof (StringEnd_Some _ _ _ _ H3) as Hd.
  rewrite parse_And by reflexivity. rewrite parse_And by reflexivity.
  rewrite (stable_login_to_ssh2 _ _ _ H1), H1.
  rewrite parse_Optional in * by reflexivity.
  destruct (_parse true (Literal ":" + _FINGER_PRINT) s l1) as [[l2' r2']|] eqn:Hin.
  - injection H2 as -> ->.
    apply parse_And_Some in Hin as (la & ra & rb & Ha & Hb & ->); [| reflexivity].
    pose proof (parse_bound (Literal ":") eq_refl _ _ _ _ _ Ha Hl1) as [_ Hla].
    pose proof (parse_bound _FINGER_PRINT eq_refl _ _ _ _ _ Hb Hla) as [_ Hl2].
    rewrite (StringEnd_white s l2 Hl2 Hd) in H3. injection H3 as _ <-.
    rewrite parse_And by reflexivity.
    rewrite (stable_Literal ":" _ _ _ _ ltac:(discriminate) Ha), Ha.
    rewrite (_FINGER_PRINT_end_garbage _ _ _ _ [] c rest Hb);
      [| assumption | assumption | constructor
       | apply white_not_fingerprint_char, Hc].
    rewrite StringEnd_white; [eauto | rewrite length_app; lia |].
    rewrite drop_app_le by exact Hl2. apply Forall_app. split; assumption.
  - injection H2 as <- <-.
    destruct (preParse_split DEFAULT_WHITE_CHARS s l1) as (w & Hw & Hq & Hww).
    assert (Forall white (drop l1 s)) as Hd1.
    { rewrite Hw. apply Forall_app. auto. }
    assert (preParse DEFAULT_WHITE_CHARS s l1 ≤ length s) as Hqle
      by (apply preParse_le, Hl1).
    rewrite (StringEnd_white s _ Hqle Hd) in H3. injection H3 as _ <-.
    destruct (Literal_white_None ":" (s ++ [] ++ c :: rest) l1) as [Hlit Hq'];
      [discriminate | rewrite length_app; lia | |].
    { rewrite drop_app_le by exact Hl1. apply Forall_app. split; assumption. }
    rewrite (parse_And_None_l (Literal ":")) by (reflexivity || exact Hlit).
    rewrite Hq', StringEnd_at_end. eauto.
Qed.

Lemma _PORT_next s loc l r c rest :
  _parse true _PORT s loc = Some (l, r) → loc ≤ length s →
  (∀ x, s !! l = Some x → x ∉ nums) → c ∉ nums →
  _parse true _PORT (s ++ c :: rest) loc = Some (l, r).
Proof.
  intros H Hloc Hnext Hc.
  destruct (s !! l) as [x|] eqn:Hx.
  - rewrite (stable_lexeme _PORT s loc l r x eq_refl eq_refl H Hx); [exact H |].
    apply Hnext. reflexivity.
  - pose proof (_PORT_consumes _ _ _ _ H) as Hlt.
    pose proof (parse_bound _PORT eq_refl _ _ _ _ _ H Hloc) as [_ Hl].
    rewrite parse_lexeme in * by reflexivity.
    rewrite preParse_app by lia.
    rewrite parse_cut; [exact H | reflexivity | exact Hc |].
    apply preParse_le, Hloc.
Qed.

Lemma line_end_white_is_white c :
  c ∈ LINE_END_WHITE_CHARS → c ∈ DEFAULT_WHITE_CHARS.
Proof. revert c. apply Forall_forall. decide_now. Qed.

Lemma opened_trailing_white s l r W :
  _parse true _OPENED_CONNECTION_GRAMMAR s 0 = Some (l, r) → Forall white W →
  ∃ l' toks,
    _parse true _OPENED_CONNECTION_GRAMMAR (s ++ W) 0
    = Some (l', mkResults toks (_tokdict r)).
Proof.
  intros H HW.
  destruct (white_tail_cases W HW) as [-> | (c & rest & -> & Hc)].
  { rewrite app_nil_r, H. destruct r. eauto. }
  assert (Forall white (c :: rest)) as HW' by exact HW.
  simpl app.
  rewrite _OPENED_CONNECTION_GRAMMAR_eq in *.
  apply parse_And_Some in H as (l2 & r12 & r3 & H & H3 & ->); [| reflexivity].
  apply parse_And_Some in H as (l1 & r1 & r2 & H1 & H2 & ->); [| reflexivity].
  pose proof (parse_bound opened_to_port eq_refl _ _ _ _ _ H1 ltac:(lia))
    as [_ Hl1].
  pose proof (parse_bound _PORT eq_refl _ _ _ _ _ H2 Hl1) as [_ Hl2].
  assert (∃ l' toks, _parse true LineEnd (s ++ c :: rest) l2
                     = Some (l', mkResults toks [])) as (l' & toks & H3').
  { pose proof (LineEnd_Some _ _ _ _ H3) as [[Hlf | Hend] _].
    - pose proof (lookup_lt_Some _ _ _ Hlf) as Hlt. simpl.
      rewrite preParse_app by exact Hlt.
      rewrite lookup_app_l, Hlf by exact Hlt. simpl. eauto.
    - apply LineEnd_white; [| rewrite length_app; lia].
      rewrite drop_app_le by exact Hl2. apply Forall_app. split; [| exact HW'].
      destruct (preParse_split LINE_END_WHITE_CHARS s l2) as (w & Hd & _ & Hw).
      rewrite Hend, drop_all, app_nil_r in Hd. rewrite Hd.
      eapply Forall_impl; [exact Hw |]. apply line_end_white_is_white. }
  rewrite parse_And by reflexivity. rewrite parse_And by reflexivity.
  rewrite (stable_opened_to_port _ _ _ H1), H1.
  rewrite (_PORT_next _ _ _ _ c rest H2 Hl1), H3'.
  - apply LineEnd_Some in H3 as [_ Hr3].
    eexists _, _. unfold add_results. simpl. rewrite Hr3. reflexivity.
  - intros x Hx. apply (LineEnd_next _ _ _ _ _ H3) in Hx.
    destruct Hx as [Hx | ->]; [| decide_now].
    revert x Hx. apply Forall_forall. decide_now.
  - intros Hn. exact (nums_not_white c Hn Hc).
Qed.

Lemma expandtabs_trailing_white (body W : string) :
  all_white W →
  ∃ W', expandtabs (chars (body +:+ W)) = expandtabs (chars body) ++ W'
        ∧ Forall white W'.
Proof.
  intros HW. rewrite chars_app. unfold expandtabs.
  destruct (expandtabs_from_app 0 (chars body) (chars W)) as [c1 ->].
  eexists. split; [reflexivity |]. apply expandtabs_from_white, HW.
Qed.

(** X12: white space after a body that the login or the failed_connection
    grammar matches is ignored: the grammar returns the same result. *)
Theorem X12_trailing_white_space G (body W : string) r :
  G = _LOGIN_GRAMMAR ∨ G = _FAILED_CONNECTION_GRAMMAR →
  all_white W →
  parseString G body = Some r →
  parseString G (body +:+ W) = Some r.
Proof.
  intros HG HW H.
  destruct (expandtabs_trailing_white body W HW) as (W' & HE & HW').
  apply parseString_Some in H as [l H]. unfold parseString. rewrite HE.
  destruct HG as [-> | ->].
  - destruct (login_trailing_white _ _ _ W' H HW') as [l' ->]. reflexivity.
  - destruct (failed_trailing_white _ _ _ W' H HW') as [l' ->]. reflexivity.
Qed.

Lemma X12_trailing_white_space_witness :
  parseString _FAILED_CONNECTION_GRAMMAR
    ("Failed password for root from 10.0.0.5 port 22" +:+ String CR (String LF " "))
  = Some (mkResults
            ["Failed"; "password"; "for"; "root"; "from"; "10.0.0.5"; "port"; "22"]
            [("authentication_method", "password"); ("username", "root");
             ("address", "10.0.0.5"); ("port", "22")]).
Proof.
  apply X12_trailing_white_space;
    [right; reflexivity | unfold all_white; decide_now | vm_compute; reflexivity].
Defined.

(** X13: white space, line breaks included, after a body that the
    opened_connection grammar matches leaves it matched with the same
    named tokens. *)
Theorem X13_opened_trailing_white_space (body W : string) r :
  all_white W →
  parseString _OPENED_CONNECTION_GRAMMAR body = Some r →
  ∃ r', parseString _OPENED_CONNECTION_GRAMMAR (body +:+ W) = Some r'
        ∧ asDict r' = asDict r.
Proof.
  intros HW H.
  destruct (expandtabs_trailing_white body W HW) as (W' & HE & HW').
  apply parseString_Some in H as [l H]. unfold parseString. rewrite HE.
  destruct (opened_trailing_white _ _ _ W' H HW') as (l' & toks & ->).
  eexists. split; reflexivity.
Qed.

Lemma X13_opened_trailing_white_space_witness :
  ∃ r', parseString _OPENED_CONNECTION_GRAMMAR
          ("Connection from 10.0.0.5 port 22" +:+ String CR (String LF " "))
        = Some r'
        ∧ asDict r'
          = asDict (mkResults ["Connection from"; "10.0.0.5"; "port"; "22"]
                      [("address", "10.0.0.5"); ("port", "22")]).
Proof.
  apply X13_opened_trailing_white_space;
    [unfold all_white; decide_now | vm_compute; reflexivity].
Defined.

(** ** Messages the grammars accept *)

Lemma text_chars (u : string) : text (chars u) = u.
Proof. apply string_of_list_ascii_of_string. Qed.

Lemma chars_nonempty (t : string) : t ≠ "" → 0 < length (chars t).
Proof. destruct t; [congruence | simpl; lia]. Qed.

Lemma Word_whole cs mx (t : string) :
  t ≠ "" → Forall (λ c, c ∈ cs) (chars t) → (mx = 0 ∨ String.length t ≤ mx) →
  _parse false (Word cs mx) (chars t) 0 = Some (length (chars t), one_token t).
Proof.
  intros Hne Hall Hmx. cbn [_parse skip_white].
  rewrite drop_0, span_in_full by exact Hall.
  pose proof (chars_nonempty t Hne) as Hpos.
  assert ((if mx is 0 then length (chars t) else length (chars t) `min` mx)
          = length (chars t)) as ->.
  { destruct mx; [reflexivity |]. rewrite length_chars in *.
    destruct Hmx; [discriminate | lia]. }
  destruct (length (chars t)) as [|n] eqn:Hn; [lia |].
  rewrite <- Hn, take_ge, text_chars by lia. reflexivity.
Qed.

Lemma _USERNAME_whole u :
  username_shaped u →
  _parse false _USERNAME (chars u) 0
  = Some (length (chars u), mkResults [u] [("username", u)]).
Proof.
  intros [Hne Hall]. unfold _USERNAME.
  rewrite parse_setResultsName, Word_whole by auto. reflexivity.
Qed.

Lemma _PORT_whole p :
  port_shaped p →
  _parse false _PORT (chars p) 0
  = Some (length (chars p), mkResults [p] [("port", p)]).
Proof.
  intros [Hlen Hall]. unfold _PORT.
  rewrite parse_setResultsName, Word_whole; [reflexivity | | exact Hall | lia].
  intros ->. simpl in Hlen. lia.
Qed.

Lemma address_whole name (a : string) :
  is_address a = true →
  _parse false (setResultsName _IP_ADDRESS name) (chars a) 0
  = Some (length (chars a), mkResults [a] [(name, a)])
  ∧ 0 < length (chars a) ∧ Forall (λ c, c ∈ ADDRESS_CHARS) (chars a).
Proof.
  unfold is_address. intros H.
  destruct (_parse false _IP_ADDRESS (chars a) 0) as [[l r]|] eqn:Hp;
    [| discriminate].
  apply Nat.eqb_eq in H. subst l.
  destruct (parse_false_text _IP_ADDRESS eq_refl _ _ _ _ Hp) as [Htext Hchars].
  pose proof (parse_min_len _ _ _ _ _ _ Hp) as Hmin.
  change (min_len _IP_ADDRESS) with 2 in Hmin.
  destruct (_IP_ADDRESS_one_token _ _ _ _ Hp) as [t ->].
  simpl in Htext.
  rewrite Nat.sub_0_r, drop_0 in Htext, Hchars.
  rewrite take_ge in Htext, Hchars by (rewrite length_chars; lia).
  rewrite text_chars in Htext. subst t.
  rewrite parse_setResultsName, Hp, length_chars.
  split; [reflexivity |]. split; [lia |].
  eapply Forall_impl; [exact Hchars |].
  intros c Hc. exact (proj1 (Forall_forall _ _) address_footprint c Hc).
Qed.

Lemma address_chars_not_white c : c ∈ ADDRESS_CHARS → c ∉ DEFAULT_WHITE_CHARS.
Proof. revert c. apply Forall_forall. decide_now. Qed.

Lemma alphanums_not_white c : c ∈ alphanums → c ∉ DEFAULT_WHITE_CHARS.
Proof. revert c. apply Forall_forall. decide_now. Qed.

Lemma head_Forall_app {A} (P : A → Prop) (t R : list A) :
  0 < length t → Forall P t → ∀ c, head (t ++ R) = Some c → P c.
Proof.
  intros Hpos Hall c. destruct t as [|d t]; [simpl in Hpos; lia |].
  simpl. intros [= <-]. apply Forall_cons in Hall. tauto.
Qed.

Lemma head_white_app w R :
  Forall white w → w ≠ [] →
  ∀ c, head (w ++ R) = Some c → c ∈ DEFAULT_WHITE_CHARS.
Proof.
  intros Hw Hne. apply (head_Forall_app white); [| exact Hw].
  destruct w; [congruence | simpl; lia].
Qed.

(** A method keyword that stands between white space is found. *)
Lemma method_run name s loc w (m : string) R :
  drop loc s = w ++ chars m ++ R → Forall white w → w ≠ [] →
  method_shaped m → (∀ c, head R = Some c → c ∈ DEFAULT_WHITE_CHARS) →
  _parse true (setResultsName _AUTHENTICATION_METHOD name) s loc
  = Some (loc + length w + String.length m, mkResults [m] [(name, m)])
  ∧ drop (loc + length w + String.length m) s = R.
Proof.
  intros Hd Hw Hne Hm HR.
  destruct (preParse_drop DEFAULT_WHITE_CHARS s loc w (chars m ++ R) Hd Hw)
    as [Hq Hdq].
  { destruct Hm as [-> | ->]; intros c [= <-]; decide_now. }
  assert (drop (loc + length w + String.length m) s = R) as HdR.
  { rewrite <- drop_drop, Hdq, <- length_chars. apply drop_app_length. }
  assert (keyword_at s m (loc + length w) = true) as Hk.
  { unfold keyword_at. rewrite !andb_true_iff. repeat split.
    - unfold startswith. rewrite Hdq. apply starts_with_spec. eauto.
    - destruct (loc + length w) as [|b] eqn:Hb; [reflexivity |].
      assert (0 < length w) by (destruct w; [congruence | simpl; lia]).
      assert (s !! b = w !! (length w - 1)) as ->.
      { replace b with (loc + (length w - 1)) by lia.
        rewrite <- lookup_drop, Hd, lookup_app_l by lia. reflexivity. }
      destruct (w !! (length w - 1)) as [c|] eqn:Hc; [| reflexivity].
      rewrite white_not_keyword_char; [reflexivity |].
      rewrite Forall_lookup in Hw. exact (Hw _ _ Hc).
    - rewrite <- drop_lookup_head, HdR.
      destruct (head R) as [c|] eqn:Hc; [| reflexivity].
      rewrite white_not_keyword_char; [reflexivity | apply HR; reflexivity]. }
  split; [| exact HdR].
  rewrite parse_setResultsName, parse_auth, Hq. destruct Hm as [-> | ->].
  - rewrite Hk. reflexivity.
  - assert (keyword_at s "password" (loc + length w) = false) as ->.
    { unfold keyword_at, startswith. rewrite Hdq. reflexivity. }
    rewrite Hk. reflexivity.
Qed.

Lemma auth_user_from_run (first : string) s w1 (m : string) w2 w3 (u : string) w4 R :
  s = chars first ++ w1 ++ chars m ++ w2 ++ chars "for" ++ w3 ++ chars u
      ++ w4 ++ chars "from" ++ R →
  is_token first → method_shaped m → username_shaped u →
  Forall white w1 → w1 ≠ [] → Forall white w2 → w2 ≠ [] →
  Forall white w3 → Forall white w4 → w4 ≠ [] →
  ∃ l, _parse true (auth_user_from first) s 0
       = Some (l, mkResults [first; m; "for"; u; "from"]
                    [("authentication_method", m); ("username", u)])
       ∧ drop l s = R ∧ l ≤ length s.
Proof.
  intros Hs [Hfne Hftok] Hm [Hune Hu] Hw1 Hn1 Hw2 Hn2 Hw3 Hw4 Hn4.
  destruct (literal_run first s 0 []
              (w1 ++ chars m ++ w2 ++ chars "for" ++ w3 ++ chars u
               ++ w4 ++ chars "from" ++ R)) as [H1 D1];
    [exact Hs | constructor | |].
  { apply (head_Forall_app (λ c, c ∉ DEFAULT_WHITE_CHARS));
      [apply chars_nonempty, Hfne | exact Hftok]. }
  destruct (method_run "authentication_method" s _ w1 m
              (w2 ++ chars "for" ++ w3 ++ chars u ++ w4 ++ chars "from" ++ R)
              D1 Hw1 Hn1 Hm) as [H2 D2].
  { apply head_white_app; assumption. }
  destruct (literal_run "for" s _ w2
              (w3 ++ chars u ++ w4 ++ chars "from" ++ R) D2 Hw2) as [H3 D3];
    [intros c [= <-]; decide_now |].
  destruct (lexeme_run _USERNAME s _ w3 (chars u) (w4 ++ chars "from" ++ R)
              (mkResults [u] [("username", u)])
              eq_refl eq_refl eq_refl D3 Hw3) as [H4 D4].
  { intros c Hc. apply alphanums_not_white.
    revert Hc. apply (head_Forall_app (λ c, c ∈ alphanums));
      [apply chars_nonempty, Hune | exact Hu]. }
  { intros c Hc Hin. apply (head_white_app _ _ Hw4 Hn4) in Hc.
    exact (alphanums_not_white c Hin Hc). }
  { apply _USERNAME_whole. split; assumption. }
  destruct (literal_run "from" s _ w4 R D4 Hw4) as [H5 D5];
    [intros c [= <-]; decide_now |].
  eexists. split; [| split; [exact D5 |]].
  - unfold auth_user_from.
    rewrite parse_And by reflexivity. rewrite parse_And by reflexivity.
    rewrite parse_And by reflexivity. rewrite parse_And by reflexivity.
    rewrite H1, H2, H3, H4, H5. reflexivity.
  - rewrite Hs, !length_app, !length_chars. simpl. lia.
Qed.

Lemma addr_port_run head s l0 r0 w5 (a : string) w6 R :
  skips_first head = true →
  _parse true head s 0 = Some (l0, r0) →
  drop l0 s = w5 ++ chars a ++ w6 ++ chars "port" ++ R → l0 ≤ length s →
  is_address a = true → Forall white w5 → Forall white w6 →
  ∃ l, _parse true (addr_port head) s 0
       = Some (l, add_results
                    (add_results r0 (mkResults [a] [("address", a)]))
                    (one_token "port"))
       ∧ drop l s = R ∧ l ≤ length s.
Proof.
  intros Hsk H0 D0 Hl0 Ha Hw5 Hw6.
  destruct (address_whole "address" a Ha) as (Hwhole & Hpos & Hchars).
  destruct (lexeme_run (setResultsName _IP_ADDRESS "address") s l0 w5
              (chars a) (w6 ++ chars "port" ++ R)
              (mkResults [a] [("address", a)])
              eq_refl eq_refl eq_refl D0 Hw5) as [H1 D1].
  { intros c Hc. apply address_chars_not_white.
    revert Hc. apply (head_Forall_app (λ c, c ∈ ADDRESS_CHARS)); assumption. }
  { intros c Hc. apply ip_footprint.
    apply (head_after_white _ "p"%char _ _ Hw6) in Hc as [Hc | ->];
      [left; exact Hc | right; reflexivity]. }
  { exact Hwhole. }
  destruct (literal_run "port" s _ w6 R D1 Hw6) as [H2 D2];
    [intros c [= <-]; decide_now |].
  eexists. split; [| split; [exact D2 |]].
  - unfold addr_port.
    rewrite parse_And by reflexivity. rewrite parse_And by exact Hsk.
    rewrite H0, H1, H2. reflexivity.
  - apply parse_bound in H2; [lia | reflexivity |].
    apply parse_bound in H1; [lia | reflexivity | exact Hl0].
Qed.

Lemma _PORT_run s loc w7 (p : string) R :
  drop loc s = w7 ++ chars p ++ R → Forall white w7 → port_shaped p →
  (∀ c, head R = Some c → c ∉ nums) →
  _parse true _PORT s loc
  = Some (loc + length w7 + length (chars p), mkResults [p] [("port", p)])
  ∧ drop (loc + length w7 + length (chars p)) s = R.
Proof.
  intros D Hw Hp HR.
  apply (lexeme_run _PORT s loc w7 (chars p) R _ eq_refl eq_refl eq_refl D Hw).
  - intros c Hc. apply nums_not_white. revert Hc.
    destruct Hp as [Hlen Hall].
    apply (head_Forall_app (λ c, c ∈ nums)); [| exact Hall].
    rewrite length_chars. lia.
  - intros c Hc Hin. exact (HR c Hc Hin).
  - apply _PORT_whole, Hp.
Qed.

Lemma LineEnd_at_end s :
  _parse true LineEnd s (length s) = Some (S (length s), no_tokens).
Proof.
  simpl. rewrite preParse_past by lia.
  rewrite lookup_ge_None_2, Nat.eqb_refl by lia. reflexivity.
Qed.

Lemma drop_nil_length {A} (s : list A) l : drop l s = [] → l ≤ length s → l = length s.
Proof.
  intros H Hl. apply (f_equal length) in H. rewrite length_drop in H.
  simpl in H. lia.
Qed.

Lemma failed_run s w1 (m : string) w2 w3 (u : string) w4 w5 (a : string) w6 w7
    (p : string) :
  s = chars "Failed" ++ w1 ++ chars m ++ w2 ++ chars "for" ++ w3 ++ chars u
      ++ w4 ++ chars "from" ++ w5 ++ chars a ++ w6 ++ chars "port" ++ w7
      ++ chars p →
  method_shaped m → username_shaped u → is_address a = true → port_shaped p →
  Forall white w1 → w1 ≠ [] → Forall white w2 → w2 ≠ [] →
  Forall white w3 → Forall white w4 → w4 ≠ [] →
  Forall white w5 → Forall white w6 → Forall white w7 →
  ∃ l, _parse true _FAILED_CONNECTION_GRAMMAR s 0
       = Some (l, mkResults ["Failed"; m; "for"; u; "from"; a; "port"; p]
                    [("authentication_method", m); ("username", u);
                     ("address", a); ("port", p)]).
Proof.
  intros Hs Hm Hu Ha Hp Hw1 Hn1 Hw2 Hn2 Hw3 Hw4 Hn4 Hw5 Hw6 Hw7.
  destruct (auth_user_from_run "Failed" s w1 m w2 w3 u w4
              (w5 ++ chars a ++ w6 ++ chars "port" ++ w7 ++ chars p) Hs)
    as (l0 & H0 & D0 & Hl0); try assumption.
  { split; [discriminate | decide_now]. }
  destruct (addr_port_run (auth_user_from "Failed") s l0 _ w5 a w6
              (w7 ++ chars p) eq_refl H0 D0 Hl0 Ha Hw5 Hw6)
    as (l1 & H1 & D1 & Hl1).
  destruct (_PORT_run s l1 w7 p []) as [H2 D2];
    [rewrite app_nil_r; exact D1 | exact Hw7 | exact Hp | discriminate |].
  rewrite _FAILED_CONNECTION_GRAMMAR_eq.
  rewrite parse_And by reflexivity. rewrite parse_And by reflexivity.
  unfold failed_to_port. rewrite H1, H2.
  rewrite StringEnd_white; [eexists; reflexivity | | rewrite D2; constructor].
  apply parse_bound in H2; [lia | reflexivity | exact Hl1].
Qed.

Lemma login_to_ssh2_run s w1 (m : string) w2 w3 (u : string) w4 w5 (a : string)
    w6 w7 (p : string) w8 :
  s = chars "Accepted" ++ w1 ++ chars m ++ w2 ++ chars "for" ++ w3 ++ chars u
      ++ w4 ++ chars "from" ++ w5 ++ chars a ++ w6 ++ chars "port" ++ w7
      ++ chars p ++ w8 ++ chars "ssh2" →
  method_shaped m → username_shaped u → is_address a = true → port_shaped p →
  Forall white w1 → w1 ≠ [] → Forall white w2 → w2 ≠ [] →
  Forall white w3 → Forall white w4 → w4 ≠ [] →
  Forall white w5 → Forall white w6 → Forall white w7 → Forall white w8 →
  _parse true login_to_ssh2 s 0
  = Some (length s,
          mkResults ["Accepted"; m; "for"; u; "from"; a; "port"; p; "ssh2"]
            [("authentication_method", m); ("username", u); ("address", a);
             ("port", p); ("protocol", "ssh2")]).
Proof.
  intros Hs Hm Hu Ha Hp Hw1 Hn1 Hw2 Hn2 Hw3 Hw4 Hn4 Hw5 Hw6 Hw7 Hw8.
  destruct (auth_user_from_run "Accepted" s w1 m w2 w3 u w4
              (w5 ++ chars a ++ w6 ++ chars "port" ++ w7 ++ chars p ++ w8
               ++ chars "ssh2") Hs)
    as (l0 & H0 & D0 & Hl0); try assumption.
  { split; [discriminate | decide_now]. }
  destruct (addr_port_run (auth_user_from "Accepted") s l0 _ w5 a w6
              (w7 ++ chars p ++ w8 ++ chars "ssh2") eq_refl H0 D0 Hl0 Ha Hw5 Hw6)
    as (l1 & H1 & D1 & Hl1).
  destruct (_PORT_run s l1 w7 p (w8 ++ chars "ssh2") D1 Hw7 Hp) as [H2 D2].
  { intros c Hc. apply (head_after_white _ "s"%char _ _ Hw8) in Hc as [Hc | ->];
      [intros Hn; exact (nums_not_white c Hn Hc) | decide_now]. }
  destruct (literal_run "ssh2" s (l1 + length w7 + length (chars p)) w8 [])
    as [H3 D3];
    [rewrite app_nil_r; exact D2 | exact Hw8 | intros c [= <-]; decide_now |].
  assert (l1 + length w7 + length (chars p) + length w8 + String.length "ssh2"
          = length s) as Hlen.
  { apply drop_nil_length; [exact D3 |].
    apply parse_bound in H3; [lia | reflexivity |].
    apply parse_bound in H2; [lia | reflexivity | exact Hl1]. }
  unfold login_to_ssh2.
  rewrite parse_And by reflexivity. rewrite parse_And by reflexivity.
  unfold login_to_port. rewrite H1, H2, parse_setResultsName, H3, Hlen.
  reflexivity.
Qed.

Lemma opened_run s w5 (a : string) w6 w7 (p : string) :
  s = chars "Connection from" ++ w5 ++ chars a ++ w6 ++ chars "port" ++ w7
      ++ chars p →
  is_address a = true → port_shaped p →
  Forall white w5 → Forall white w6 → Forall white w7 →
  ∃ l, _parse true _OPENED_CONNECTION_GRAMMAR s 0
       = Some (l, mkResults ["Connection from"; a; "port"; p]
                    [("address", a); ("port", p)]).
Proof.
  intros Hs Ha Hp Hw5 Hw6 Hw7.
  destruct (literal_run "Connection from" s 0 []
              (w5 ++ chars a ++ w6 ++ chars "port" ++ w7 ++ chars p))
    as [H0 D0]; [exact Hs | constructor | intros c [= <-]; decide_now |].
  assert (0 + length (@nil ascii) + String.length "Connection from" ≤ length s)
    as Hl0.
  { apply parse_bound in H0; [lia | reflexivity | lia]. }
  destruct (addr_port_run (Literal "Connection from") s _ _ w5 a w6
              (w7 ++ chars p) eq_refl H0 D0 Hl0 Ha Hw5 Hw6)
    as (l1 & H1 & D1 & Hl1).
  destruct (_PORT_run s l1 w7 p []) as [H2 D2];
    [rewrite app_nil_r; exact D1 | exact Hw7 | exact Hp | discriminate |].
  assert (l1 + length w7 + length (chars p) = length s) as Hlen.
  { apply drop_nil_length; [exact D2 |].
    apply parse_bound in H2; [lia | reflexivity | exact Hl1]. }
  rewrite _OPENED_CONNECTION_GRAMMAR_eq.
  rewrite parse_And by reflexivity. rewrite parse_And by reflexivity.
  unfold opened_to_port. rewrite H1, H2, Hlen, LineEnd_at_end.
  eexists. reflexivity.
Qed.

(** *** Tabs between the words *)

Lemma expandtabs_from_app_all col a :
  ∃ col', ∀ b, expandtabs_from col (a ++ b)
               = expandtabs_from col a ++ expandtabs_from col' b.
Proof.
  revert col. induction a as [|c a IH]; intros col.
  - exists col. reflexivity.
  - destruct (Ascii.eqb c TAB) eqn:Ht.
    + destruct (IH (col + (8 - col mod 8))) as [col' E]. exists col'.
      intros b. rewrite <- app_comm_cons, !expandtabs_from_cons, Ht, E.
      rewrite app_assoc. reflexivity.
    + destruct (Ascii.eqb c LF || Ascii.eqb c CR) eqn:Hl.
      * destruct (IH 0) as [col' E]. exists col'. intros b.
        rewrite <- app_comm_cons, !expandtabs_from_cons, Ht, Hl, E.
        reflexivity.
      * destruct (IH (S col)) as [col' E]. exists col'. intros b.
        rewrite <- app_comm_cons, !expandtabs_from_cons, Ht, Hl, E.
        reflexivity.
Qed.

Lemma expandtabs_from_word col tok :
  Forall (λ c, c ≠ TAB) tok →
  ∃ col', ∀ rest, expandtabs_from col (tok ++ rest)
                  = tok ++ expandtabs_from col' rest.
Proof.
  intros Ht. destruct (expandtabs_from_app_all col tok) as [col' E].
  exists col'. intros rest.
  rewrite E, expandtabs_from_no_tab by exact Ht. reflexivity.
Qed.

Lemma expandtabs_from_gap col (w : string) tok :
  all_white w → Forall (λ c, c ≠ TAB) tok →
  ∃ w' col',
    (∀ rest, expandtabs_from col (chars w ++ tok ++ rest)
             = w' ++ tok ++ expandtabs_from col' rest)
    ∧ Forall white w' ∧ (w ≠ "" → w' ≠ []).
Proof.
  intros Hw Ht.
  destruct (expandtabs_from_app_all col (chars w)) as [c1 E1].
  destruct (expandtabs_from_word c1 tok Ht) as [c2 E2].
  exists (expandtabs_from col (chars w)), c2. split; [| split].
  - intros rest. rewrite E1, E2. reflexivity.
  - apply expandtabs_from_white, Hw.
  - destruct w as [|c w]; [congruence |]. intros _. simpl chars.
    destruct (expandtabs_from_head col c (chars w)) as [rest' ->].
    discriminate.
Qed.

Lemma no_tab_in (cs t : list ascii) :
  TAB ∉ cs → Forall (λ c, c ∈ cs) t → Forall (λ c, c ≠ TAB) t.
Proof.
  intros Hcs Ht. eapply Forall_impl; [exact Ht |].
  intros c Hc ->. exact (Hcs Hc).
Qed.

Lemma method_no_tab m : method_shaped m → Forall (λ c, c ≠ TAB) (chars m).
Proof. intros [-> | ->]; decide_now. Qed.

(** The words of a message up to the port, with the tabs between them
    expanded. *)
Lemma expandtabs_to_port col (w1 m w2 w3 u w4 w5 a w6 w7 p : string) :
  method_shaped m → username_shaped u → is_address a = true → port_shaped p →
  gap w1 → gap w2 → all_white w3 → gap w4 →
  all_white w5 → all_white w6 → all_white w7 →
  ∃ w1' w2' w3' w4' w5' w6' w7' col',
    (∀ rest,
       expandtabs_from col
         (chars w1 ++ chars m ++ chars w2 ++ chars "for" ++ chars w3
          ++ chars u ++ chars w4 ++ chars "from" ++ chars w5 ++ chars a
          ++ chars w6 ++ chars "port" ++ chars w7 ++ chars p ++ rest)
       = w1' ++ chars m ++ w2' ++ chars "for" ++ w3' ++ chars u ++ w4'
         ++ chars "from" ++ w5' ++ chars a ++ w6' ++ chars "port" ++ w7'
         ++ chars p ++ expandtabs_from col' rest)
    ∧ (Forall white w1' ∧ w1' ≠ []) ∧ (Forall white w2' ∧ w2' ≠ [])
    ∧ Forall white w3' ∧ (Forall white w4' ∧ w4' ≠ [])
    ∧ Forall white w5' ∧ Forall white w6' ∧ Forall white w7'.
Proof.
  intros Hm [_ Hu] Ha [_ Hp] [Hn1 Hw1] [Hn2 Hw2] Hw3 [Hn4 Hw4] Hw5 Hw6 Hw7.
  destruct (address_whole "address" a Ha) as (_ & _ & Hachars).
  destruct (expandtabs_from_gap col w1 (chars m) Hw1 (method_no_tab m Hm))
    as (w1' & c1 & E1 & Hw1' & Hn1').
  destruct (expandtabs_from_gap c1 w2 (chars "for") Hw2 ltac:(decide_now))
    as (w2' & c2 & E2 & Hw2' & Hn2').
  destruct (expandtabs_from_gap c2 w3 (chars u) Hw3
              (no_tab_in alphanums _ ltac:(decide_now) Hu))
    as (w3' & c3 & E3 & Hw3' & _).
  destruct (expandtabs_from_gap c3 w4 (chars "from") Hw4 ltac:(decide_now))
    as (w4' & c4 & E4 & Hw4' & Hn4').
  destruct (expandtabs_from_gap c4 w5 (chars a) Hw5
              (no_tab_in ADDRESS_CHARS _ ltac:(decide_now) Hachars))
    as (w5' & c5 & E5 & Hw5' & _).
  destruct (expandtabs_from_gap c5 w6 (chars "port") Hw6 ltac:(decide_now))
    as (w6' & c6 & E6 & Hw6' & _).
  destruct (expandtabs_from_gap c6 w7 (chars p) Hw7
              (no_tab_in nums _ ltac:(decide_now) Hp))
    as (w7' & c7 & E7 & Hw7' & _).
  exists w1', w2', w3', w4', w5', w6', w7', c7.
  split; [| auto 20].
  intros rest.
  rewrite E1, E2, E3, E4, E5, E6, E7. reflexivity.
Qed.

(** ** Where the failed_connection grammar needs white space *)

Lemma keyword_at_behind s m b c :
  s !! b = Some c → c ∈ DEFAULT_KEYWORD_CHARS → keyword_at s m (S b) = false.
Proof.
  intros Hb Hc. unfold keyword_at. rewrite Hb.
  apply char_in_true in Hc. rewrite Hc. simpl.
  rewrite andb_false_r. reflexivity.
Qed.

Lemma keyword_at_ahead s m q c :
  s !! (q + String.length m) = Some c → c ∈ DEFAULT_KEYWORD_CHARS →
  keyword_at s m q = false.
Proof.
  intros Hb Hc. unfold keyword_at. rewrite Hb.
  apply char_in_true in Hc. rewrite Hc. simpl.
  apply andb_false_r.
Qed.

Lemma method_None name s loc :
  keyword_at s "password" (preParse DEFAULT_WHITE_CHARS s loc) = false →
  keyword_at s "publickey" (preParse DEFAULT_WHITE_CHARS s loc) = false →
  _parse true (setResultsName _AUTHENTICATION_METHOD name) s loc = None.
Proof.
  intros H1 H2. rewrite parse_setResultsName, parse_auth, H1, H2. reflexivity.
Qed.

Lemma Literal_absent m s loc c :
  c ∈ chars m → Forall (λ d, d ≠ c) (drop loc s) →
  _parse true (Literal m) s loc = None.
Proof.
  intros Hc Hall. simpl.
  pose proof (preParse_ge DEFAULT_WHITE_CHARS s loc) as Hge.
  set (q := preParse DEFAULT_WHITE_CHARS s loc) in *.
  destruct (startswith s m q) eqn:Hs; [| reflexivity]. exfalso.
  unfold startswith in Hs. apply starts_with_spec in Hs as [rest Hs].
  assert (Forall (λ d, d ≠ c) (drop q s)) as Hq.
  { replace q with (loc + (q - loc)) by lia. rewrite <- drop_drop.
    apply Forall_drop, Hall. }
  rewrite Hs in Hq. apply Forall_app in Hq as [Hq _].
  rewrite Forall_forall in Hq. exact (Hq c Hc eq_refl).
Qed.

Lemma Word_stop cs name s loc l r :
  _parse true (setResultsName (Word cs 0) name) s loc = Some (l, r) →
  l = preParse DEFAULT_WHITE_CHARS s loc
      + span_in cs (drop (preParse DEFAULT_WHITE_CHARS s loc) s).
Proof.
  rewrite parse_setResultsName. cbn [_parse skip_white].
  destruct (span_in cs _) as [|n]; [discriminate |].
  intros [= <- _]. reflexivity.
Qed.

(** The method keyword directly after [Failed] is refused: the character
    before a keyword must not be one of a word. *)
Lemma failed_method_glued s (m : string) R :
  s = chars "Failed" ++ chars m ++ R → method_shaped m →
  _parse true _FAILED_CONNECTION_GRAMMAR s 0 = None.
Proof.
  intros Hs Hm.
  destruct (literal_run "Failed" s 0 [] (chars m ++ R)) as [H1 D1];
    [exact Hs | constructor | intros c [= <-]; decide_now |].
  destruct (preParse_drop DEFAULT_WHITE_CHARS s 6 [] (chars m ++ R) D1)
    as [Hq _]; [constructor | |].
  { destruct Hm as [-> | ->]; intros c [= <-]; decide_now. }
  assert (s !! 5 = Some "d"%char) as H5 by (rewrite Hs; reflexivity).
  assert (_parse true
            (setResultsName _AUTHENTICATION_METHOD "authentication_method") s 6
          = None) as HM.
  { apply method_None; rewrite Hq;
      apply (keyword_at_behind s _ 5 "d"%char H5); decide_now. }
  unfold _FAILED_CONNECTION_GRAMMAR.
  do 7 (apply parse_And_None_l; [reflexivity |]).
  rewrite parse_And by reflexivity.
  change (0 + length (@nil ascii) + String.length "Failed") with 6 in H1.
  rewrite H1, HM. reflexivity.
Qed.

(** [for] directly after the method keyword makes the keyword fail: the
    character after a keyword must not be one of a word. *)
Lemma failed_for_glued s w1 (m : string) R :
  s = chars "Failed" ++ w1 ++ chars m ++ chars "for" ++ R →
  Forall white w1 → method_shaped m →
  _parse true _FAILED_CONNECTION_GRAMMAR s 0 = None.
Proof.
  intros Hs Hw1 Hm.
  destruct (literal_run "Failed" s 0 [] (w1 ++ chars m ++ chars "for" ++ R))
    as [H1 D1]; [exact Hs | constructor | intros c [= <-]; decide_now |].
  change (0 + length (@nil ascii) + String.length "Failed") with 6 in H1, D1.
  destruct (preParse_drop DEFAULT_WHITE_CHARS s 6 w1 _ D1 Hw1) as [Hq Dq].
  { destruct Hm as [-> | ->]; intros c [= <-]; decide_now. }
  assert (s !! (6 + length w1 + String.length m) = Some "f"%char) as Hf.
  { rewrite <- lookup_drop, Dq, lookup_app_r by (rewrite length_chars; lia).
    rewrite length_chars, Nat.sub_diag. reflexivity. }
  assert (_parse true
            (setResultsName _AUTHENTICATION_METHOD "authentication_method") s 6
          = None) as HM.
  { apply method_None; rewrite Hq; destruct Hm as [-> | ->];
      first [ apply (keyword_at_ahead s _ _ "f"%char Hf); decide_now
            | unfold keyword_at, startswith; rewrite Dq; reflexivity ]. }
  unfold _FAILED_CONNECTION_GRAMMAR.
  do 7 (apply parse_And_None_l; [reflexivity |]).
  rewrite parse_And by reflexivity. rewrite H1, HM. reflexivity.
Qed.

(** [from] directly after the user name is taken into the user name, and no
    [from] is found after it in text without the letter m. *)
Lemma failed_from_glued s w1 (m : string) w2 w3 (u : string) T :
  s = chars "Failed" ++ w1 ++ chars m ++ w2 ++ chars "for" ++ w3 ++ chars u
      ++ chars "from" ++ T →
  method_shaped m → username_shaped u →
  Forall white w1 → w1 ≠ [] → Forall white w2 → w2 ≠ [] → Forall white w3 →
  Forall (λ d, d ≠ "m"%char) T →
  _parse true _FAILED_CONNECTION_GRAMMAR s 0 = None.
Proof.
  intros Hs Hm [Hune Hu] Hw1 Hn1 Hw2 Hn2 Hw3 HT.
  destruct (literal_run "Failed" s 0 []
              (w1 ++ chars m ++ w2 ++ chars "for" ++ w3 ++ chars u
               ++ chars "from" ++ T)) as [H1 D1];
    [exact Hs | constructor | intros c [= <-]; decide_now |].
  destruct (method_run "authentication_method" s _ w1 m
              (w2 ++ chars "for" ++ w3 ++ chars u ++ chars "from" ++ T)
              D1 Hw1 Hn1 Hm) as [H2 D2].
  { apply head_white_app; assumption. }
  destruct (literal_run "for" s _ w2 (w3 ++ chars u ++ chars "from" ++ T)
              D2 Hw2) as [H3 D3];
    [intros c [= <-]; decide_now |].
  set (l3 := 0 + length (@nil ascii) + String.length "Failed" + length w1
             + String.length m + length w2 + String.length "for") in *.
  destruct (preParse_drop DEFAULT_WHITE_CHARS s l3 w3 _ D3 Hw3) as [Hq Dq].
  { intros c Hc. apply alphanums_not_white. revert c Hc.
    apply (head_Forall_app (λ c, c ∈ alphanums));
      [apply chars_nonempty, Hune | exact Hu]. }
  assert (_parse true (auth_user_from "Failed") s 0 = None) as Hhead.
  { unfold auth_user_from.
    rewrite parse_And by reflexivity. rewrite parse_And by reflexivity.
    rewrite parse_And by reflexivity. rewrite parse_And by reflexivity.
    rewrite H1, H2, H3.
    destruct (_parse true _USERNAME s l3) as [[l4 r4]|] eqn:HU;
      [| reflexivity].
    rewrite (Literal_absent "from" s l4 "m"%char); [reflexivity | decide_now |].
    apply Word_stop in HU as ->. rewrite Hq, Dq.
    rewrite span_in_all by exact Hu.
    rewrite (span_in_all alphanums (chars "from")) by decide_now.
    rewrite <- drop_drop, Dq, Nat.add_assoc, <- drop_drop.
    apply Forall_drop.
    rewrite app_assoc, <- length_app, drop_app_length. exact HT. }
  unfold _FAILED_CONNECTION_GRAMMAR.
  do 4 (apply parse_And_None_l; [reflexivity |]). exact Hhead.
Qed.

Lemma expandtabs_from_gap_exact col (w : string) tok :
  all_white w → Forall (λ c, c ≠ TAB) tok →
  ∃ w' col',
    (∀ rest, expandtabs_from col (chars w ++ tok ++ rest)
             = w' ++ tok ++ expandtabs_from col' rest)
    ∧ Forall white w' ∧ (w ≠ "" → w' ≠ []) ∧ (w = "" → w' = []).
Proof.
  intros Hw Ht.
  destruct (expandtabs_from_app_all col (chars w)) as [c1 E1].
  destruct (expandtabs_from_word c1 tok Ht) as [c2 E2].
  exists (expandtabs_from col (chars w)), c2. split; [| split; [| split]].
  - intros rest. rewrite E1, E2. reflexivity.
  - apply expandtabs_from_white, Hw.
  - destruct w as [|c w]; [congruence |]. intros _. simpl chars.
    destruct (expandtabs_from_head col c (chars w)) as [rest' ->].
    discriminate.
  - intros ->. reflexivity.
Qed.

(** The words of a message up to the port, with the tabs between them
    expanded: an empty gap stays empty and no other gap becomes empty. *)
Lemma expandtabs_to_port_exact col (w1 m w2 w3 u w4 w5 a w6 w7 p : string) :
  method_shaped m → username_shaped u → is_address a = true → port_shaped p →
  all_white w1 → all_white w2 → all_white w3 → all_white w4 →
  all_white w5 → all_white w6 → all_white w7 →
  ∃ w1' w2' w3' w4' w5' w6' w7' col',
    (∀ rest,
       expandtabs_from col
         (chars w1 ++ chars m ++ chars w2 ++ chars "for" ++ chars w3
          ++ chars u ++ chars w4 ++ chars "from" ++ chars w5 ++ chars a
          ++ chars w6 ++ chars "port" ++ chars w7 ++ chars p ++ rest)
       = w1' ++ chars m ++ w2' ++ chars "for" ++ w3' ++ chars u ++ w4'
         ++ chars "from" ++ w5' ++ chars a ++ w6' ++ chars "port" ++ w7'
         ++ chars p ++ expandtabs_from col' rest)
    ∧ (Forall white w1' ∧ (w1 ≠ "" → w1' ≠ []) ∧ (w1 = "" → w1' = []))
    ∧ (Forall white w2' ∧ (w2 ≠ "" → w2' ≠ []) ∧ (w2 = "" → w2' = []))
    ∧ Forall white w3'
    ∧ (Forall white w4' ∧ (w4 ≠ "" → w4' ≠ []) ∧ (w4 = "" → w4' = []))
    ∧ Forall white w5' ∧ Forall white w6' ∧ Forall white w7'.
Proof.
  intros Hm [_ Hu] Ha [_ Hp] Hw1 Hw2 Hw3 Hw4 Hw5 Hw6 Hw7.
  destruct (address_whole "address" a Ha) as (_ & _ & Hachars).
  destruct (expandtabs_from_gap_exact col w1 (chars m) Hw1 (method_no_tab m Hm))
    as (w1' & c1 & E1 & Hw1').
  destruct (expandtabs_from_gap_exact c1 w2 (chars "for") Hw2 ltac:(decide_now))
    as (w2' & c2 & E2 & Hw2').
  destruct (expandtabs_from_gap_exact c2 w3 (chars u) Hw3
              (no_tab_in alphanums _ ltac:(decide_now) Hu))
    as (w3' & c3 & E3 & Hw3' & _).
  destruct (expandtabs_from_gap_exact c3 w4 (chars "from") Hw4 ltac:(decide_now))
    as (w4' & c4 & E4 & Hw4').
  destruct (expandtabs_from_gap_exact c4 w5 (chars a) Hw5
              (no_tab_in ADDRESS_CHARS _ ltac:(decide_now) Hachars))
    as (w5' & c5 & E5 & Hw5' & _).
  destruct (expandtabs_from_gap_exact c5 w6 (chars "port") Hw6 ltac:(decide_now))
    as (w6' & c6 & E6 & Hw6' & _).
  destruct (expandtabs_from_gap_exact c6 w7 (chars p) Hw7
              (no_tab_in nums _ ltac:(decide_now) Hp))
    as (w7' & c7 & E7 & Hw7' & _).
  exists w1', w2', w3', w4', w5', w6', w7', c7.
  split; [| auto 20].
  intros rest.
  rewrite E1, E2, E3, E4, E5, E6, E7. reflexivity.
Qed.

Lemma no_m_after_from w5 (a : string) w6 w7 (p : string) :
  Forall white w5 → Forall white w6 → Forall white w7 →
  is_address a = true → port_shaped p →
  Forall (λ d, d ≠ "m"%char)
    (w5 ++ chars a ++ w6 ++ chars "port" ++ w7 ++ chars p).
Proof.
  intros H5 H6 H7 Ha [_ Hp].
  destruct (address_whole "address" a Ha) as (_ & _ & Hachars).
  assert (∀ w, Forall white w → Forall (λ d, d ≠ "m"%char) w) as Hwhite.
  { intros w Hw. eapply Forall_impl; [exact Hw |].
    intros d Hd ->. revert Hd. decide_now. }
  repeat (apply Forall_app; split); auto.
  - eapply Forall_impl; [exact Hachars |]. intros d Hd ->. revert Hd. decide_now.
  - decide_now.
  - eapply Forall_impl; [exact Hp |]. intros d Hd ->. revert Hd. decide_now.
Qed.


(** X14: for a message made of the word Failed, a method keyword, for, a
    user name, from, an address, port and a port number of one to five
    digits, with white space (tabs and line breaks included) or nothing
    between the words, the failed_connection grammar returns exactly these
    fields when there is white space after Failed, after the method and
    after the user name, and fails when one of these three gaps is empty.
    The other gaps may be empty. *)
Theorem X14_failed_connection_accepts (m u a p w1 w2 w3 w4 w5 w6 w7 : string) :
  method_shaped m → username_shaped u → is_address a = true → port_shaped p →
  all_white w1 → all_white w2 → all_white w3 → all_white w4 →
  all_white w5 → all_white w6 → all_white w7 →
  let body := "Failed" +:+ w1 +:+ m +:+ w2 +:+ "for" +:+ w3 +:+ u +:+ w4
              +:+ "from" +:+ w5 +:+ a +:+ w6 +:+ "port" +:+ w7 +:+ p in
  (w1 ≠ "" ∧ w2 ≠ "" ∧ w4 ≠ "" →
   parseString _FAILED_CONNECTION_GRAMMAR body
   = Some (mkResults ["Failed"; m; "for"; u; "from"; a; "port"; p]
             [("authentication_method", m); ("username", u); ("address", a);
              ("port", p)]))
  ∧ (w1 = "" ∨ w2 = "" ∨ w4 = "" →
     parseString _FAILED_CONNECTION_GRAMMAR body = None).
Proof.
  intros Hm Hu Ha Hp H1 H2 H3 H4 H5 H6 H7 body.
  unfold parseString, expandtabs, body. rewrite !chars_app.
  destruct (expandtabs_from_word 0 (chars "Failed") ltac:(decide_now))
    as [c0 E0].
  rewrite E0.
  destruct (expandtabs_to_port_exact c0 w1 m w2 w3 u w4 w5 a w6 w7 p
              Hm Hu Ha Hp H1 H2 H3 H4 H5 H6 H7)
    as (w1' & w2' & w3' & w4' & w5' & w6' & w7' & c & E
        & (Hw1 & Hn1 & He1) & (Hw2 & Hn2 & He2) & Hw3 & (Hw4 & Hn4 & He4)
        & Hw5 & Hw6 & Hw7).
  rewrite <- (app_nil_r (chars p)), E.
  change (expandtabs_from c []) with (@nil ascii). rewrite app_nil_r.
  split.
  - intros (N1 & N2 & N4).
    destruct (failed_run _ w1' m w2' w3' u w4' w5' a w6' w7' p eq_refl)
      as [l ->]; auto.
  - intros Hor.
    destruct (decide (w1 = "")) as [Z1 | N1].
    { rewrite (He1 Z1), app_nil_l.
      rewrite (failed_method_glued _ m _ eq_refl Hm). reflexivity. }
    destruct (decide (w2 = "")) as [Z2 | N2].
    { rewrite (He2 Z2), app_nil_l.
      rewrite (failed_for_glued _ w1' m _ eq_refl Hw1 Hm). reflexivity. }
    assert (w4 = "") as Z4 by (destruct Hor as [? | [? | ?]]; congruence).
    rewrite (He4 Z4), app_nil_l.
    rewrite (failed_from_glued _ w1' m w2' w3' u _ eq_refl Hm Hu); auto.
    apply no_m_after_from; assumption.
Qed.

Lemma X14_failed_connection_accepts_witness :
  parseString _FAILED_CONNECTION_GRAMMAR
    ("Failed" +:+ " " +:+ "password" +:+ String TAB "" +:+ "for" +:+ ""
     +:+ "root" +:+ " " +:+ "from" +:+ "" +:+ "192.168.0.1" +:+ " "
     +:+ "port" +:+ " " +:+ "22")
  = Some (mkResults
            ["Failed"; "password"; "for"; "root"; "from"; "192.168.0.1";
             "port"; "22"]
            [("authentication_method", "password"); ("username", "root");
             ("address", "192.168.0.1"); ("port", "22")])
  ∧ parseString _FAILED_CONNECTION_GRAMMAR
      ("Failed" +:+ "" +:+ "password" +:+ " " +:+ "for" +:+ " "
       +:+ "root" +:+ " " +:+ "from" +:+ " " +:+ "192.168.0.1" +:+ " "
       +:+ "port" +:+ " " +:+ "22")
    = None
  ∧ parseString _FAILED_CONNECTION_GRAMMAR
      ("Failed" +:+ " " +:+ "password" +:+ " " +:+ "for" +:+ " "
       +:+ "root" +:+ "" +:+ "from" +:+ " " +:+ "192.168.0.1" +:+ " "
       +:+ "port" +:+ " " +:+ "22")
    = None.
Proof.
  split; [| split].
  - apply (X14_failed_connection_accepts "password" "root" "192.168.0.1" "22"
             " " (String TAB "") "" " " "" " " " ").
    + left. reflexivity.
    + split; [discriminate | decide_now].
    + vm_compute. reflexivity.
    + split; [simpl; lia | decide_now].
    + unfold all_white. decide_now.
    + unfold all_white. decide_now.
    + unfold all_white. decide_now.
    + unfold all_white. decide_now.
    + unfold all_white. decide_now.
    + unfold all_white. decide_now.
    + unfold all_white. decide_now.
    + repeat split; discriminate.
  - apply (X14_failed_connection_accepts "password" "root" "192.168.0.1" "22"
             "" " " " " " " " " " " " ").
    + left. reflexivity.
    + split; [discriminate | decide_now].
    + vm_compute. reflexivity.
    + split; [simpl; lia | decide_now].
    + unfold all_white. decide_now.
    + unfold all_white. decide_now.
    + unfold all_white. decide_now.
    + unfold all_white. decide_now.
    + unfold all_white. decide_now.
    + unfold all_white. decide_now.
    + unfold all_white. decide_now.
    + left. reflexivity.
  - apply (X14_failed_connection_accepts "password" "root" "192.168.0.1" "22"
             " " " " " " "" " " " " " ").
    + left. reflexivity.
    + split; [discriminate | decide_now].
    + vm_compute. reflexivity.
    + split; [simpl; lia | decide_now].
    + unfold all_white. decide_now.
    + unfold all_white. decide_now.
    + unfold all_white. decide_now.
    + unfold all_white. decide_now.
    + unfold all_white. decide_now.
    + unfold all_white. decide_now.
    + unfold all_white. decide_now.
    + right. right. reflexivity.
Defined.

Lemma login_to_ssh2_text (m u a p w1 w2 w3 w4 w5 w6 w7 w8 : string) :
  method_shaped m → username_shaped u → is_address a = true → port_shaped p →
  gap w1 → gap w2 → all_white w3 → gap w4 →
  all_white w5 → all_white w6 → all_white w7 → all_white w8 →
  let s := expandtabs
             (chars ("Accepted" +:+ w1 +:+ m +:+ w2 +:+ "for" +:+ w3 +:+ u
                     +:+ w4 +:+ "from" +:+ w5 +:+ a +:+ w6 +:+ "port" +:+ w7
                     +:+ p +:+ w8 +:+ "ssh2")) in
  _parse true login_to_ssh2 s 0
  = Some (length s,
          mkResults ["Accepted"; m; "for"; u; "from"; a; "port"; p; "ssh2"]
            [("authentication_method", m); ("username", u); ("address", a);
             ("port", p); ("protocol", "ssh2")]).
Proof.
  intros Hm Hu Ha Hp H1 H2 H3 H4 H5 H6 H7 H8. cbv zeta.
  unfold expandtabs. rewrite !chars_app.
  destruct (expandtabs_from_word 0 (chars "Accepted") ltac:(decide_now))
    as [c0 E0].
  rewrite E0.
  destruct (expandtabs_to_port c0 w1 m w2 w3 u w4 w5 a w6 w7 p
              Hm Hu Ha Hp H1 H2 H3 H4 H5 H6 H7)
    as (w1' & w2' & w3' & w4' & w5' & w6' & w7' & c & E
        & [Hw1 Hn1] & [Hw2 Hn2] & Hw3 & [Hw4 Hn4] & Hw5 & Hw6 & Hw7).
  rewrite E.
  destruct (expandtabs_from_gap c w8 (chars "ssh2") H8 ltac:(decide_now))
    as (w8' & c8 & E8 & Hw8 & _).
  rewrite <- (app_nil_r (chars "ssh2")), E8.
  change (expandtabs_from c8 []) with (@nil ascii). rewrite app_nil_r.
  apply (login_to_ssh2_run _ w1' m w2' w3' u w4' w5' a w6' w7' p w8' eq_refl);
    assumption.
Qed.

(** X15: the login grammar accepts every message made of the word Accepted,
    a method keyword, for, a user name, from, an address, port, a port
    number and ssh2, and returns these fields with no fingerprint; followed
    by a colon and an RSA fingerprint, it is accepted with that
    fingerprint. *)
Theorem X15_login_accepts (m u a p w1 w2 w3 w4 w5 w6 w7 w8 : string) :
  method_shaped m → username_shaped u → is_address a = true → port_shaped p →
  gap w1 → gap w2 → all_white w3 → gap w4 →
  all_white w5 → all_white w6 → all_white w7 → all_white w8 →
  let body := "Accepted" +:+ w1 +:+ m +:+ w2 +:+ "for" +:+ w3 +:+ u +:+ w4
              +:+ "from" +:+ w5 +:+ a +:+ w6 +:+ "port" +:+ w7 +:+ p +:+ w8
              +:+ "ssh2" in
  parseString _LOGIN_GRAMMAR body
  = Some (mkResults ["Accepted"; m; "for"; u; "from"; a; "port"; p; "ssh2"]
            [("authentication_method", m); ("username", u); ("address", a);
             ("port", p); ("protocol", "ssh2")])
  ∧ ∀ w9 w10 f : string,
      all_white w9 → all_white w10 → fingerprint_shaped f →
      parseString _LOGIN_GRAMMAR (body +:+ w9 +:+ ":" +:+ w10 +:+ f)
      = Some (mkResults
                ["Accepted"; m; "for"; u; "from"; a; "port"; p; "ssh2"; ":"; f]
                [("authentication_method", m); ("username", u);
                 ("address", a); ("port", p); ("protocol", "ssh2");
                 ("fingerprint", f)]).
Proof.
  intros Hm Hu Ha Hp H1 H2 H3 H4 H5 H6 H7 H8 body.
  pose proof (login_to_ssh2_text m u a p w1 w2 w3 w4 w5 w6 w7 w8
                Hm Hu Ha Hp H1 H2 H3 H4 H5 H6 H7 H8) as Hrun.
  cbv zeta in Hrun. fold body in Hrun. split.
  - unfold parseString.
    rewrite (login_without_fingerprint _ _ Hrun). reflexivity.
  - intros w9 w10 f H9 H10 (h & -> & Hne & Hh).
    destruct (expandtabs_fingerprint_suffix body w9 w10 h H9 H10 Hh)
      as (w9' & w10' & E & Hw9 & Hw10).
    unfold parseString. rewrite E.
    destruct (login_with_fingerprint _ _ w9' w10' h Hrun Hw9 Hw10 Hne Hh)
      as [l ->].
    reflexivity.
Qed.

Lemma X15_login_accepts_witness :
  parseString _LOGIN_GRAMMAR
    ("Accepted" +:+ " " +:+ "publickey" +:+ " " +:+ "for" +:+ " " +:+ "bob"
     +:+ " " +:+ "from" +:+ " " +:+ "::1" +:+ " " +:+ "port" +:+ " "
     +:+ "2222" +:+ " " +:+ "ssh2")
  = Some (mkResults
            ["Accepted"; "publickey"; "for"; "bob"; "from"; "::1"; "port";
             "2222"; "ssh2"]
            [("authentication_method", "publickey"); ("username", "bob");
             ("address", "::1"); ("port", "2222"); ("protocol", "ssh2")])
  ∧ parseString _LOGIN_GRAMMAR
      (("Accepted" +:+ " " +:+ "publickey" +:+ " " +:+ "for" +:+ " " +:+ "bob"
        +:+ " " +:+ "from" +:+ " " +:+ "::1" +:+ " " +:+ "port" +:+ " "
        +:+ "2222" +:+ " " +:+ "ssh2")
       +:+ "" +:+ ":" +:+ " " +:+ "RSA aa:bb:cc:dd")
    = Some (mkResults
              ["Accepted"; "publickey"; "for"; "bob"; "from"; "::1"; "port";
               "2222"; "ssh2"; ":"; "RSA aa:bb:cc:dd"]
              [("authentication_method", "publickey"); ("username", "bob");
               ("address", "::1"); ("port", "2222"); ("protocol", "ssh2");
               ("fingerprint", "RSA aa:bb:cc:dd")]).
Proof.
  destruct (X15_login_accepts "publickey" "bob" "::1" "2222"
              " " " " " " " " " " " " " " " ") as [Hplain Hfinger].
  - right. reflexivity.
  - split; [discriminate | decide_now].
  - vm_compute. reflexivity.
  - split; [simpl; lia | decide_now].
  - split; [discriminate | unfold all_white; decide_now].
  - split; [discriminate | unfold all_white; decide_now].
  - unfold all_white. decide_now.
  - split; [discriminate | unfold all_white; decide_now].
  - unfold all_white. decide_now.
  - unfold all_white. decide_now.
  - unfold all_white. decide_now.
  - unfold all_white. decide_now.
  - split; [exact Hplain |].
    apply (Hfinger "" " " "RSA aa:bb:cc:dd");
      [unfold all_white; decide_now | unfold all_white; decide_now |].
    exists "aa:bb:cc:dd". split; [reflexivity |].
    split; [discriminate | decide_now].
Defined.

(** X16: the opened_connection grammar accepts every message made of the
    words Connection from, an address, port and a port number of one to
    five digits, and returns the address and the port. *)
Theorem X16_opened_connection_accepts (a p w5 w6 w7 : string) :
  is_address a = true → port_shaped p →
  all_white w5 → all_white w6 → all_white w7 →
  parseString _OPENED_CONNECTION_GRAMMAR
    ("Connection from" +:+ w5 +:+ a +:+ w6 +:+ "port" +:+ w7 +:+ p)
  = Some (mkResults ["Connection from"; a; "port"; p]
            [("address", a); ("port", p)]).
Proof.
  intros Ha Hp H5 H6 H7.
  destruct (address_whole "address" a Ha) as (_ & _ & Hachars).
  unfold parseString, expandtabs. rewrite !chars_app.
  destruct (expandtabs_from_word 0 (chars "Connection from") ltac:(decide_now))
    as [c0 E0].
  destruct (expandtabs_from_gap c0 w5 (chars a) H5
              (no_tab_in ADDRESS_CHARS _ ltac:(decide_now) Hachars))
    as (w5' & c5 & E5 & Hw5 & _).
  destruct (expandtabs_from_gap c5 w6 (chars "port") H6 ltac:(decide_now))
    as (w6' & c6 & E6 & Hw6 & _).
  destruct Hp as [Hlen Hnums].
  destruct (expandtabs_from_gap c6 w7 (chars p) H7
              (no_tab_in nums _ ltac:(decide_now) Hnums))
    as (w7' & c7 & E7 & Hw7 & _).
  rewrite <- (app_nil_r (chars p)), E0, E5, E6, E7.
  change (expandtabs_from c7 []) with (@nil ascii). rewrite app_nil_r.
  destruct (opened_run _ w5' a w6' w7' p eq_refl) as [l ->];
    try assumption; [split; assumption | reflexivity].
Qed.

Lemma X16_opened_connection_accepts_witness :
  parseString _OPENED_CONNECTION_GRAMMAR
    ("Connection from" +:+ " " +:+ "2001:db8::1" +:+ " " +:+ "port" +:+ ""
     +:+ "65535")
  = Some (mkResults ["Connection from"; "2001:db8::1"; "port"; "65535"]
            [("address", "2001:db8::1"); ("port", "65535")]).
Proof.
  apply X16_opened_connection_accepts.
  - vm_compute. reflexivity.
  - split; [simpl; lia | decide_now].
  - unfold all_white. decide_now.
  - unfold all_white. decide_now.
  - unfold all_white. decide_now.
Defined.

(** ** Dotted quads *)

Lemma head_bind {A B} (f : A → list B) (l : list A) n k :
  head l = Some n → head (f n) = Some k → head (l ≫= f) = Some k.
Proof.
  destruct l as [|x l]; [discriminate |]. intros [= ->] Hk. simpl.
  destruct (f n) as [|y u]; [discriminate |]. exact Hk.
Qed.

Lemma head_fmap {A B} (g : A → B) (l : list A) k :
  head l = Some k → head (g <$> l) = Some (g k).
Proof. destruct l; [discriminate |]. intros [= ->]. reflexivity. Qed.

Lemma re_seq_head a b s n k :
  head (re_ends a s) = Some n → head (re_ends b (drop n s)) = Some k →
  head (re_ends (re_seq a b) s) = Some (n + k).
Proof.
  intros Ha Hb. simpl. apply (head_bind _ _ n); [exact Ha |].
  apply head_fmap, Hb.
Qed.

Lemma rep_ends_head one lo hi u n k :
  head (one u) = Some n →
  head (rep_ends one (pred lo) hi (drop n u)) = Some k →
  head (rep_ends one lo (S hi) u) = Some (n + k).
Proof.
  intros Ha Hb. simpl.
  assert (head (n ← one u; (λ k, n + k) <$> rep_ends one (pred lo) hi (drop n u))
          = Some (n + k)) as H.
  { apply (head_bind _ _ n); [exact Ha |]. apply head_fmap, Hb. }
  destruct (_ ≫= _) as [|x l]; [discriminate |]. exact H.
Qed.

Lemma octet_alone :
  Forall (λ o, head (re_ends re_octet (chars (octet_text o)))
               = Some (length (chars (octet_text o)))) (seq 0 256).
Proof. decide_now. Qed.

(** An octet written in decimal is matched to its end when no digit
    follows it. *)
Lemma octet_head o rest :
  o < 256 → (∀ c, head rest = Some c → c ∉ nums) →
  head (re_ends re_octet (chars (octet_text o) ++ rest))
  = Some (length (chars (octet_text o))).
Proof.
  intros Ho Hrest.
  assert (head (re_ends re_octet (chars (octet_text o)))
          = Some (length (chars (octet_text o)))) as H.
  { apply (proj1 (Forall_forall _ _) octet_alone). apply elem_of_seq. lia. }
  destruct rest as [|c rest]; [rewrite app_nil_r; exact H |].
  rewrite re_ends_cut; [exact H |].
  intros Hc. apply (Hrest c eq_refl). clear Hrest. revert c Hc.
  apply Forall_forall. decide_now.
Qed.

Lemma dot_octet_head o rest :
  o < 256 → (∀ c, head rest = Some c → c ∉ nums) →
  head (re_ends (re_seq (re_char ".") re_octet)
          (chars "." ++ chars (octet_text o) ++ rest))
  = Some (1 + length (chars (octet_text o))).
Proof.
  intros Ho Hrest. apply re_seq_head; [reflexivity |].
  apply octet_head; assumption.
Qed.

Lemma dot_not_digit (rest : list ascii) :
  ∀ c, head (chars "." ++ rest) = Some c → c ∉ nums.
Proof. intros c [= <-]. decide_now. Qed.

Lemma ipv4_dotted_quad o1 o2 o3 o4 :
  o1 < 256 → o2 < 256 → o3 < 256 → o4 < 256 →
  _parse false ipv4_address (chars (dotted_quad o1 o2 o3 o4)) 0
  = Some (String.length (dotted_quad o1 o2 o3 o4),
          one_token (dotted_quad o1 o2 o3 o4)).
Proof.
  intros H1 H2 H3 H4. unfold dotted_quad. 
  set (a := octet_text o1 +:+ _).
  assert (chars a
          = chars (octet_text o1) ++ chars "." ++ chars (octet_text o2)
            ++ chars "." ++ chars (octet_text o3) ++ chars "."
            ++ chars (octet_text o4) ++ []) as Ha.
  { unfold a. rewrite !chars_app, app_nil_r. reflexivity. }
  assert (head (re_ends
                  (re_seq re_octet (re_rep (re_seq (re_char ".") re_octet) 3 3))
                  (chars a))
          = Some (length (chars a))) as Hm.
  { rewrite Ha.
    set (d1 := chars (octet_text o1)). set (d2 := chars (octet_text o2)).
    set (d3 := chars (octet_text o3)). set (d4 := chars (octet_text o4)).
    replace (length (d1 ++ chars "." ++ d2 ++ chars "." ++ d3 ++ chars "."
                     ++ d4 ++ []))
      with (length d1
            + ((1 + length d2) + ((1 + length d3) + ((1 + length d4) + 0))))
      by (rewrite !length_app; simpl; lia).
    apply re_seq_head; [apply octet_head; [exact H1 | apply dot_not_digit] |].
    rewrite drop_app_length. cbn [re_ends].
    apply rep_ends_head;
      [apply dot_octet_head; [exact H2 | apply dot_not_digit] |].
    rewrite (app_assoc (chars ".") d2), drop_app_length'
      by (rewrite length_app; reflexivity).
    apply rep_ends_head;
      [apply dot_octet_head; [exact H3 | apply dot_not_digit] |].
    rewrite (app_assoc (chars ".") d3), drop_app_length'
      by (rewrite length_app; reflexivity).
    apply rep_ends_head; [apply dot_octet_head; [exact H4 | discriminate] |].
    reflexivity. }
  unfold ipv4_address. cbn [_parse skip_white]. unfold re_match.
  rewrite drop_0, Hm. simpl. rewrite Nat.sub_0_r, take_ge, text_chars, length_chars by lia.
  reflexivity.
Qed.

(** X17: four numbers below 256 written in decimal and joined by dots are an
    address: [_IP_ADDRESS], tried on such text alone, consumes it to its
    end. *)
Theorem X17_dotted_quad_is_address o1 o2 o3 o4 :
  o1 < 256 → o2 < 256 → o3 < 256 → o4 < 256 →
  is_address (dotted_quad o1 o2 o3 o4) = true.
Proof.
  intros H1 H2 H3 H4. unfold is_address, _IP_ADDRESS.
  rewrite parse_MatchFirst_false, ipv4_dotted_quad by assumption.
  apply Nat.eqb_refl.
Qed.

Lemma X17_dotted_quad_is_address_witness :
  is_address (dotted_quad 192 168 0 1) = true.
Proof. apply X17_dotted_quad_is_address; lia. Defined.

(** ** Text after the port on the same line *)

Lemma expandtabs_from_line_white col w :
  Forall (λ c, c ∈ LINE_END_WHITE_CHARS) w →
  Forall (λ c, c ∈ LINE_END_WHITE_CHARS) (expandtabs_from col w).
Proof.
  intros H. revert col. induction H as [|c w Hc _ IH]; intros col;
    [constructor |].
  rewrite expandtabs_from_cons. destruct (Ascii.eqb c TAB).
  - apply Forall_app. split; [| apply IH].
    apply Forall_replicate. decide_now.
  - destruct (Ascii.eqb c LF || Ascii.eqb c CR); constructor; auto.
Qed.

Lemma LineEnd_same_line s loc w c rest :
  drop loc s = w ++ c :: rest → Forall (λ d, d ∈ LINE_END_WHITE_CHARS) w →
  c ∉ DEFAULT_WHITE_CHARS →
  _parse true LineEnd s loc = None.
Proof.
  intros Hd Hw Hc.
  destruct (preParse_drop LINE_END_WHITE_CHARS s loc w (c :: rest) Hd Hw)
    as [Hq Hdq].
  { intros d [= <-] Hin. exact (Hc (line_end_white_is_white c Hin)). }
  simpl. rewrite Hq, <- drop_lookup_head, Hdq. simpl.
  destruct (Ascii.eqb_spec c LF) as [-> |]; [| reflexivity].
  exfalso. apply Hc. decide_now.
Qed.

Lemma opened_same_line s w5 (a : string) w6 w7 (p : string) W c rest :
  s = chars "Connection from" ++ w5 ++ chars a ++ w6 ++ chars "port" ++ w7
      ++ chars p ++ W ++ c :: rest →
  is_address a = true → port_shaped p →
  Forall white w5 → Forall white w6 → Forall white w7 →
  Forall (λ d, d ∈ LINE_END_WHITE_CHARS) W →
  c ∉ DEFAULT_WHITE_CHARS → c ∉ nums →
  _parse true _OPENED_CONNECTION_GRAMMAR s 0 = None.
Proof.
  intros Hs Ha Hp Hw5 Hw6 Hw7 HW Hc Hn.
  destruct (literal_run "Connection from" s 0 []
              (w5 ++ chars a ++ w6 ++ chars "port" ++ w7 ++ chars p ++ W
               ++ c :: rest))
    as [H0 D0]; [exact Hs | constructor | intros d [= <-]; decide_now |].
  assert (0 + length (@nil ascii) + String.length "Connection from" ≤ length s)
    as Hl0.
  { apply parse_bound in H0; [lia | reflexivity | lia]. }
  destruct (addr_port_run (Literal "Connection from") s _ _ w5 a w6
              (w7 ++ chars p ++ W ++ c :: rest) eq_refl H0 D0 Hl0 Ha Hw5 Hw6)
    as (l1 & H1 & D1 & Hl1).
  destruct (_PORT_run s l1 w7 p (W ++ c :: rest) D1 Hw7 Hp) as [H2 D2].
  { intros d Hd Hin.
    assert (Forall white W) as HW'
      by (eapply Forall_impl; [exact HW | apply line_end_white_is_white]).
    apply (head_after_white _ _ _ _ HW') in Hd as [Hd | ->];
      [exact (nums_not_white d Hin Hd) | exact (Hn Hin)]. }
  rewrite _OPENED_CONNECTION_GRAMMAR_eq.
  rewrite parse_And by reflexivity. rewrite parse_And by reflexivity.
  unfold opened_to_port.
  rewrite H1, H2, (LineEnd_same_line _ _ W c rest D2 HW Hc). reflexivity.
Qed.

(** X18: the opened_connection grammar refuses a message that goes on after
    the port on the same line: after Connection from, an address, port and a
    port number, spaces, tabs or carriage returns followed by a character
    that is neither white space nor a digit make it fail. *)
Theorem X18_opened_connection_same_line (a p w5 w6 w7 W : string) c
    (rest : string) :
  is_address a = true → port_shaped p →
  all_white w5 → all_white w6 → all_white w7 →
  Forall (λ d, d ∈ LINE_END_WHITE_CHARS) (chars W) →
  c ∉ DEFAULT_WHITE_CHARS → c ∉ nums →
  parseString _OPENED_CONNECTION_GRAMMAR
    ("Connection from" +:+ w5 +:+ a +:+ w6 +:+ "port" +:+ w7 +:+ p +:+ W
     +:+ String c rest)
  = None.
Proof.
  intros Ha Hp H5 H6 H7 HW Hc Hn.
  destruct (address_whole "address" a Ha) as (_ & _ & Hachars).
  unfold parseString, expandtabs. rewrite !chars_app.
  destruct (expandtabs_from_word 0 (chars "Connection from") ltac:(decide_now))
    as [c0 E0].
  destruct (expandtabs_from_gap c0 w5 (chars a) H5
              (no_tab_in ADDRESS_CHARS _ ltac:(decide_now) Hachars))
    as (w5' & c5 & E5 & Hw5 & _).
  destruct (expandtabs_from_gap c5 w6 (chars "port") H6 ltac:(decide_now))
    as (w6' & c6 & E6 & Hw6 & _).
  pose proof Hp as [Hlen Hnums].
  destruct (expandtabs_from_gap c6 w7 (chars p) H7
              (no_tab_in nums _ ltac:(decide_now) Hnums))
    as (w7' & c7 & E7 & Hw7 & _).
  rewrite E0, E5, E6, E7.
  destruct (expandtabs_from_app c7 (chars W) (chars (String c rest)))
    as [c8 ->].
  destruct (expandtabs_from_head c8 c (chars rest)) as [rest' Hr].
  assert (Ascii.eqb c TAB = false) as Hct.
  { destruct (Ascii.eqb_spec c TAB) as [-> |]; [| reflexivity].
    exfalso. apply Hc. decide_now. }
  rewrite Hct in Hr.
  change (chars (String c rest)) with (c :: chars rest). rewrite Hr.
  rewrite (opened_same_line _ w5' a w6' w7' p (expandtabs_from c7 (chars W))
             c rest' eq_refl); try assumption; [reflexivity |].
  apply expandtabs_from_line_white, HW.
Qed.

Lemma X18_opened_connection_same_line_witness :
  parseString _OPENED_CONNECTION_GRAMMAR
    ("Connection from" +:+ " " +:+ "10.0.0.5" +:+ " " +:+ "port" +:+ " "
     +:+ "51234" +:+ " " +:+ String "o" "n 10.0.0.9 port 22")
  = None.
Proof.
  apply X18_opened_connection_same_line.
  - vm_compute. reflexivity.
  - split; [simpl; lia | decide_now].
  - unfold all_white. decide_now.
  - unfold all_white. decide_now.
  - unfold all_white. decide_now.
  - decide_now.
  - decide_now.
  - decide_now.
Defined.

(** ** A colon after ssh2 that is not followed by an RSA fingerprint *)

Lemma login_without_fingerprint_parts s l r :
  _parse true _LOGIN_GRAMMAR s 0 = Some (l, r) →
  asDict r !! "fingerprint" = None →
  ∃ l1 r1, _parse true login_to_ssh2 s 0 = Some (l1, r1)
           ∧ l1 ≤ length s ∧ Forall white (drop l1 s).
Proof.
  intros H Hno. rewrite _LOGIN_GRAMMAR_eq in H.
  apply parse_And_Some in H as (l2 & r12 & r3 & H & H3 & ->); [| reflexivity].
  apply parse_And_Some in H as (l1 & r1 & r2 & H1 & H2 & ->); [| reflexivity].
  pose proof (parse_bound login_to_ssh2 eq_refl _ _ _ _ _ H1 ltac:(lia))
    as [_ Hl1].
  pose proof (StringEnd_Some _ _ _ _ H3) as Hd.
  apply StringEnd_result in H3 as ->.
  exists l1, r1. split; [exact H1 |]. split; [exact Hl1 |].
  rewrite parse_Optional in H2 by reflexivity.
  destruct (_parse true (Literal ":" + _FINGER_PRINT) s l1) as [[l2' r2']|] eqn:Hin.
  - exfalso. injection H2 as -> ->.
    apply parse_And_Some in Hin as (la & ra & rb & Ha & Hb & ->); [| reflexivity].
    apply Literal_result in Ha as ->.
    apply _FINGER_PRINT_result in Hb as (f & -> & _).
    revert Hno. unfold asDict, add_results. simpl.
    rewrite app_nil_r, fold_left_app. simpl.
    rewrite lookup_insert_eq. discriminate.
  - injection H2 as <- _.
    destruct (preParse_split DEFAULT_WHITE_CHARS s l1) as (w & Hw & _ & Hww).
    rewrite Hw. apply Forall_app. auto.
Qed.

(** After a match without fingerprint, the colon that follows is read, and
    what the grammar does next depends on the fingerprint clause alone. *)
Lemma login_colon s l r w9 rest0 :
  _parse true _LOGIN_GRAMMAR s 0 = Some (l, r) →
  asDict r !! "fingerprint" = None → Forall white w9 →
  ∃ l1 r1 q,
    _parse true login_to_ssh2 (s ++ w9 ++ chars ":" ++ rest0) 0 = Some (l1, r1)
    ∧ _parse true (Literal ":") (s ++ w9 ++ chars ":" ++ rest0) l1
      = Some (q + 1, one_token ":")
    ∧ preParse DEFAULT_WHITE_CHARS (s ++ w9 ++ chars ":" ++ rest0) l1 = q
    ∧ drop q (s ++ w9 ++ chars ":" ++ rest0) = chars ":" ++ rest0
    ∧ drop (q + 1) (s ++ w9 ++ chars ":" ++ rest0) = rest0.
Proof.
  intros H Hno Hw9.
  destruct (login_without_fingerprint_parts s l r H Hno)
    as (l1 & r1 & H1 & Hl1 & Hd).
  set (s' := s ++ w9 ++ chars ":" ++ rest0).
  assert (drop l1 s' = (drop l1 s ++ w9) ++ chars ":" ++ rest0) as D.
  { unfold s'. rewrite drop_app_le by exact Hl1. rewrite <- app_assoc.
    reflexivity. }
  assert (Forall white (drop l1 s ++ w9)) as Hw by (apply Forall_app; auto).
  destruct (literal_run ":" s' l1 _ rest0 D Hw) as [Ha Da];
    [intros c [= <-]; decide_now |].
  destruct (preParse_drop DEFAULT_WHITE_CHARS s' l1 _ _ D Hw) as [Hq Hdq];
    [intros c [= <-]; decide_now |].
  exists l1, r1, (l1 + length (drop l1 s ++ w9)).
  split; [| auto].
  rewrite <- H1. apply (stable_login_to_ssh2 _ _ _ H1).
Qed.

Lemma login_clause_fails s l1 r1 q rest0 :
  _parse true login_to_ssh2 s 0 = Some (l1, r1) →
  preParse DEFAULT_WHITE_CHARS s l1 = q → drop q s = chars ":" ++ rest0 →
  _parse true (Literal ":" + _FINGER_PRINT) s l1 = None →
  _parse true _LOGIN_GRAMMAR s 0 = None.
Proof.
  intros H1 Hq Hd Hin. rewrite _LOGIN_GRAMMAR_eq.
  rewrite parse_And by reflexivity. rewrite parse_And by reflexivity.
  rewrite H1, parse_Optional, Hin, Hq by reflexivity.
  rewrite (StringEnd_garbage s q [] ":"%char rest0 Hd);
    [reflexivity | constructor | decide_now].
Qed.

Lemma _FINGER_PRINT_at s loc w k :
  drop loc s = w ++ k → Forall white w →
  (∀ d, head k = Some d → d ∉ DEFAULT_WHITE_CHARS) →
  _parse true _FINGER_PRINT s loc =
  if starts_with (chars "RSA ") k
  then match _parse false (Word (chars ":" ++ hexnums) 0) s
               (loc + length w + 4) with
       | Some (l, r) =>
           Some (l, named_results "fingerprint"
                      (mkResults
                         [String.concat "" (_toklist (add_results (one_token "RSA ") r))]
                         (_tokdict (add_results (one_token "RSA ") r))))
       | None => None
       end
  else None.
Proof.
  intros D Hw Hk.
  destruct (preParse_drop DEFAULT_WHITE_CHARS s loc w k D Hw Hk) as [Hq Hdq].
  unfold _FINGER_PRINT.
  rewrite parse_setResultsName, parse_Combine, parse_And_false,
    parse_Literal_false.
  cbn [skip_white]. rewrite Hq. unfold startswith. rewrite Hdq.
  destruct (starts_with (chars "RSA ") k); [| reflexivity].
  change (String.length "RSA ") with 4.
  destruct (_parse false (Word _ 0) s _) as [[l r]|]; reflexivity.
Qed.

Lemma login_colon_other s l r w9 w10 k :
  _parse true _LOGIN_GRAMMAR s 0 = Some (l, r) →
  asDict r !! "fingerprint" = None →
  Forall white w9 → Forall white w10 →
  (∀ d, head k = Some d → d ∉ DEFAULT_WHITE_CHARS) →
  starts_with (chars "RSA ") k = false →
  _parse true _LOGIN_GRAMMAR (s ++ w9 ++ chars ":" ++ w10 ++ k) 0 = None.
Proof.
  intros H Hno Hw9 Hw10 Hk Hrsa.
  destruct (login_colon s l r w9 (w10 ++ k) H Hno Hw9)
    as (l1 & r1 & q & H1 & Ha & Hq & Dq & Da).
  apply (login_clause_fails _ l1 r1 q (w10 ++ k) H1 Hq Dq).
  rewrite parse_And, Ha by reflexivity.
  rewrite (_FINGER_PRINT_at _ _ w10 k Da Hw10 Hk), Hrsa. reflexivity.
Qed.

Lemma login_colon_rsa_other s l r w9 w10 h c rest :
  _parse true _LOGIN_GRAMMAR s 0 = Some (l, r) →
  asDict r !! "fingerprint" = None →
  Forall white w9 → Forall white w10 →
  Forall (λ d, d ∈ chars ":" ++ hexnums) h →
  c ∉ DEFAULT_WHITE_CHARS → c ∉ chars ":" ++ hexnums →
  _parse true _LOGIN_GRAMMAR
    (s ++ w9 ++ chars ":" ++ w10 ++ chars "RSA " ++ h ++ c :: rest) 0 = None.
Proof.
  intros H Hno Hw9 Hw10 Hh Hc Hn.
  destruct (login_colon s l r w9 (w10 ++ chars "RSA " ++ h ++ c :: rest)
              H Hno Hw9)
    as (l1 & r1 & q & H1 & Ha & Hq & Dq & Da).
  set (s' := s ++ w9 ++ chars ":" ++ w10 ++ chars "RSA " ++ h ++ c :: rest) in *.
  pose proof (_FINGER_PRINT_at s' (q + 1) w10 (chars "RSA " ++ h ++ c :: rest)
                Da Hw10) as Hfp.
  rewrite (proj2 (starts_with_spec _ _)) in Hfp by eauto.
  specialize (Hfp ltac:(intros d [= <-]; decide_now)).
  assert (drop (q + 1 + length w10 + 4) s' = h ++ c :: rest) as Dw.
  { rewrite <- Nat.add_assoc, <- drop_drop, Da.
    rewrite (app_assoc w10), drop_app_length'; [reflexivity |].
    rewrite length_app. reflexivity. }
  assert (span_in (chars ":" ++ hexnums) (h ++ c :: rest) = length h) as Hspan.
  { rewrite span_in_all, span_in_stop by assumption. lia. }
  cbn [_parse skip_white] in Hfp. rewrite Dw, Hspan in Hfp.
  assert (drop (q + 1 + length w10 + 4 + length h) s' = [] ++ c :: rest)
    as Dend.
  { rewrite <- drop_drop, Dw, drop_app_length. reflexivity. }
  destruct (length h) as [|n] eqn:Hlen.
  - apply (login_clause_fails _ l1 r1 q _ H1 Hq Dq).
    rewrite parse_And, Ha, Hfp by reflexivity. reflexivity.
  - rewrite _LOGIN_GRAMMAR_eq.
    rewrite parse_And by reflexivity. rewrite parse_And by reflexivity.
    rewrite H1, parse_Optional by reflexivity.
    rewrite parse_And, Ha, Hfp by reflexivity.
    rewrite (StringEnd_garbage s' _ [] c rest Dend);
      [reflexivity | constructor | exact Hc].
Qed.

(** X19: after a body that the login grammar matches without fingerprint, a
    colon must introduce an RSA fingerprint.  A colon followed by text that
    does not begin with RSA and a space (and has no tab among its first four
    characters), or by RSA, a space, colons and hex digits and then another
    character that is not white space, makes the grammar fail. *)
Theorem X19_login_colon_needs_rsa_fingerprint (body w9 w10 : string) r :
  parseString _LOGIN_GRAMMAR body = Some r →
  asDict r !! "fingerprint" = None →
  all_white w9 → all_white w10 →
  (∀ k : string,
     (∀ d, head (chars k) = Some d → d ∉ DEFAULT_WHITE_CHARS) →
     Forall (λ d, d ≠ TAB) (take 4 (chars k)) →
     starts_with (chars "RSA ") (chars k) = false →
     parseString _LOGIN_GRAMMAR (body +:+ w9 +:+ ":" +:+ w10 +:+ k) = None)
  ∧ (∀ (h : string) c (rest : string),
       Forall (λ d, d ∈ chars ":" ++ hexnums) (chars h) →
       c ∉ DEFAULT_WHITE_CHARS → c ∉ chars ":" ++ hexnums →
       parseString _LOGIN_GRAMMAR
         (body +:+ w9 +:+ ":" +:+ w10 +:+ "RSA " +:+ h +:+ String c rest)
       = None).
Proof.
  intros [l H]%parseString_Some Hno H9 H10. split.
  - intros k Hhead Hk Hrsa. unfold parseString, expandtabs. rewrite !chars_app.
    destruct (expandtabs_from_app 0 (chars body)
                (chars w9 ++ chars ":" ++ chars w10 ++ chars k)) as [c1 ->].
    destruct (expandtabs_from_gap c1 w9 (chars ":") H9 ltac:(decide_now))
      as (w9' & c2 & E9 & Hw9 & _).
    rewrite E9.
    destruct (expandtabs_from_app c2 (chars w10) (chars k)) as [c3 ->].
    fold (expandtabs (chars body)).
    rewrite (login_colon_other _ l r w9' _ _ H Hno Hw9
               (expandtabs_from_white c2 _ H10)); [reflexivity | |].
    + intros d Hd. destruct (chars k) as [|x u]; [discriminate |].
      destruct (expandtabs_from_head c3 x u) as [rest' Hr].
      apply Forall_cons in Hk as [Hx _].
      rewrite Hr in Hd. injection Hd as <-.
      destruct (Ascii.eqb_spec x TAB) as [-> |]; [congruence |].
      apply Hhead. reflexivity.
    + rewrite <- (take_drop 4 (chars k)) in Hrsa |- *.
      destruct (expandtabs_from_app_all c3 (take 4 (chars k))) as [c4 E].
      rewrite E, expandtabs_from_no_tab by exact Hk.
      destruct (Nat.le_gt_cases 4 (length (chars k))) as [Hlen | Hlen].
      * rewrite starts_with_app in Hrsa |- *
          by (change (length (chars "RSA ")) with 4; rewrite length_take; lia).
        exact Hrsa.
      * rewrite drop_ge, ?app_nil_r in Hrsa |- * by lia. exact Hrsa.
  - intros h c rest Hh Hc Hn. unfold parseString, expandtabs.
    rewrite !chars_app.
    destruct (expandtabs_from_app 0 (chars body)
                (chars w9 ++ chars ":" ++ chars w10 ++ chars "RSA " ++ chars h
                 ++ chars (String c rest))) as [c1 ->].
    destruct (expandtabs_from_gap c1 w9 (chars ":") H9 ltac:(decide_now))
      as (w9' & c2 & E9 & Hw9 & _).
    destruct (expandtabs_from_gap c2 w10 (chars "RSA ") H10 ltac:(decide_now))
      as (w10' & c3 & E10 & Hw10 & _).
    destruct (expandtabs_from_word c3 (chars h) (hex_colon_no_tab _ Hh))
      as [c4 Eh].
    destruct (expandtabs_from_head c4 c (chars rest)) as [rest' Hr].
    assert (Ascii.eqb c TAB = false) as Hct.
    { destruct (Ascii.eqb_spec c TAB) as [-> |]; [| reflexivity].
      exfalso. apply Hc. decide_now. }
    rewrite Hct in Hr.
    change (chars (String c rest)) with (c :: chars rest).
    rewrite E9, E10, Eh, Hr. fold (expandtabs (chars body)).
    rewrite (login_colon_rsa_other _ l r w9' w10' (chars h) c rest' H Hno);
      auto.
Qed.

Lemma X19_login_colon_needs_rsa_fingerprint_witness :
  parseString _LOGIN_GRAMMAR
    ("Accepted publickey for bob from 10.0.0.5 port 22 ssh2" +:+ "" +:+ ":"
     +:+ " " +:+ "ED25519 SHA256:abc")
  = None
  ∧ parseString _LOGIN_GRAMMAR
      ("Accepted publickey for bob from 10.0.0.5 port 22 ssh2" +:+ "" +:+ ":"
       +:+ " " +:+ "RSA " +:+ "" +:+ String "S" "HA256:abc")
    = None.
Proof.
  destruct (X19_login_colon_needs_rsa_fingerprint
              "Accepted publickey for bob from 10.0.0.5 port 22 ssh2" "" " "
              (mkResults
                 ["Accepted"; "publickey"; "for"; "bob"; "from"; "10.0.0.5";
                  "port"; "22"; "ssh2"]
                 [("authentication_method", "publickey"); ("username", "bob");
                  ("address", "10.0.0.5"); ("port", "22");
                  ("protocol", "ssh2")]))
    as [Hother Hrsa].
  - vm_compute. reflexivity.
  - vm_compute. reflexivity.
  - unfold all_white. decide_now.
  - unfold all_white. decide_now.
  - split.
    + apply Hother; [intros d [= <-]; decide_now | decide_now | reflexivity].
    + apply Hrsa; decide_now.
Defined.

(** ** Text after a match: which text makes the grammar fail *)

Lemma expandtabs_trailing_gap (body W : string) c rest :
  all_white W → c ∉ DEFAULT_WHITE_CHARS →
  ∃ W' rest',
    expandtabs (chars (body +:+ W +:+ String c rest))
    = expandtabs (chars body) ++ W' ++ c :: rest'
    ∧ Forall white W' ∧ (W ≠ "" → W' ≠ []).
Proof.
  intros HW Hc. rewrite !chars_app. unfold expandtabs.
  destruct (expandtabs_from_app 0 (chars body) (chars W ++ chars (String c rest)))
    as [c1 ->].
  destruct (expandtabs_from_app c1 (chars W) (chars (String c rest))) as [c2 ->].
  destruct (expandtabs_from_head c2 c (chars rest)) as [rest' Hr].
  simpl chars. rewrite Hr.
  destruct (Ascii.eqb_spec c TAB) as [-> |].
  - exfalso. apply Hc, white_cases. auto.
  - eexists _, _. split; [reflexivity |].
    split; [apply expandtabs_from_white, HW |].
    destruct W as [|x W]; [congruence |]. intros _. simpl chars.
    destruct (expandtabs_from_head c1 x (chars W)) as [u ->]. discriminate.
Qed.

Lemma failed_trailing_text s l r W c rest :
  _parse true _FAILED_CONNECTION_GRAMMAR s 0 = Some (l, r) →
  Forall white W → c ∉ DEFAULT_WHITE_CHARS → W ≠ [] ∨ c ∉ nums →
  _parse true _FAILED_CONNECTION_GRAMMAR (s ++ W ++ c :: rest) 0 = None.
Proof.
  intros H HW Hc Hor.
  destruct W as [|x W].
  { destruct Hor as [Hne | Hn]; [congruence |].
    apply (failed_trailing s l r [] c rest H); [constructor | exact Hc | exact Hn]. }
  apply Forall_cons in HW as [Hx HW].
  rewrite _FAILED_CONNECTION_GRAMMAR_eq in *.
  apply parse_And_Some in H as (l2 & r12 & r3 & H & H3 & _); [| reflexivity].
  apply parse_And_Some in H as (l1 & r1 & r2 & H1 & H2 & _); [| reflexivity].
  pose proof (parse_bound failed_to_port eq_refl _ _ _ _ _ H1 ltac:(lia)) as [_ Hl1].
  pose proof (parse_bound _PORT eq_refl _ _ _ _ _ H2 Hl1) as [_ Hl2].
  pose proof (StringEnd_Some _ _ _ _ H3) as Hd.
  rewrite parse_And by reflexivity. rewrite parse_And by reflexivity.
  rewrite (stable_failed_to_port _ _ _ H1), H1.
  change (s ++ (x :: W) ++ c :: rest) with (s ++ [] ++ x :: (W ++ c :: rest)).
  rewrite (_PORT_end_garbage _ _ _ _ [] x (W ++ c :: rest) H2);
    [| assumption | assumption | constructor
     | intros Hn; exact (nums_not_white x Hn Hx)].
  rewrite (StringEnd_garbage _ l2 (drop l2 s ++ x :: W) c rest);
    [reflexivity | | apply Forall_app; auto | exact Hc].
  rewrite drop_app_le by exact Hl2. simpl. rewrite <- app_assoc. reflexivity.
Qed.

Lemma login_trailing_plain s l r W c rest :
  _parse true _LOGIN_GRAMMAR s 0 = Some (l, r) →
  asDict r !! "fingerprint" = None →
  Forall white W → c ∉ DEFAULT_WHITE_CHARS → c ≠ ":"%char →
  _parse true _LOGIN_GRAMMAR (s ++ W ++ c :: rest) 0 = None.
Proof.
  intros H Hno HW Hc Hn.
  destruct (login_without_fingerprint_parts s l r H Hno)
    as (l1 & r1 & H1 & Hl1 & Hd1).
  rewrite _LOGIN_GRAMMAR_eq.
  rewrite parse_And by reflexivity. rewrite parse_And by reflexivity.
  rewrite (stable_login_to_ssh2 _ _ _ H1), H1.
  rewrite parse_Optional by reflexivity.
  destruct (Literal_garbage ":" (s ++ W ++ c :: rest) l1 (drop l1 s ++ W)
              c rest) as (Hlit & Hq & Hdq);
    [rewrite drop_app_le by exact Hl1; rewrite <- app_assoc; reflexivity
    | apply Forall_app; auto | exact Hc | | discriminate |].
  { intros [= <-]. apply Hn. reflexivity. }
  rewrite (parse_And_None_l (Literal ":")) by (reflexivity || exact Hlit).
  rewrite Hq.
  rewrite (StringEnd_garbage _ _ [] c rest Hdq);
    [reflexivity | constructor | exact Hc].
Qed.

Lemma login_trailing_fingerprint s l r W c rest :
  _parse true _LOGIN_GRAMMAR s 0 = Some (l, r) →
  asDict r !! "fingerprint" ≠ None →
  Forall white W → c ∉ DEFAULT_WHITE_CHARS →
  W ≠ [] ∨ c ∉ chars ":" ++ hexnums →
  _parse true _LOGIN_GRAMMAR (s ++ W ++ c :: rest) 0 = None.
Proof.
  intros H Hfp HW Hc Hor.
  destruct W as [|x W].
  { destruct Hor as [Hne | Hn]; [congruence |].
    apply (login_trailing s l r [] c rest H); [constructor | exact Hc | exact Hn]. }
  apply Forall_cons in HW as [Hx HW].
  rewrite _LOGIN_GRAMMAR_eq in *.
  apply parse_And_Some in H as (l2 & r12 & r3 & H & H3 & ->); [| reflexivity].
  apply parse_And_Some in H as (l1 & r1 & r2 & H1 & H2 & ->); [| reflexivity].
  pose proof (parse_bound login_to_ssh2 eq_refl _ _ _ _ _ H1 ltac:(lia)) as [_ Hl1].
  pose proof (StringEnd_Some _ _ _ _ H3) as Hd.
  apply StringEnd_result in H3 as ->.
  rewrite parse_Optional in H2 by reflexivity.
  destruct (_parse true (Literal ":" + _FINGER_PRINT) s l1) as [[l2' r2']|] eqn:Hin.
  - injection H2 as -> ->.
    apply parse_And_Some in Hin as (la & ra & rb & Ha & Hb & _); [| reflexivity].
    pose proof (parse_bound (Literal ":") eq_refl _ _ _ _ _ Ha Hl1) as [_ Hla].
    pose proof (parse_bound _FINGER_PRINT eq_refl _ _ _ _ _ Hb Hla) as [_ Hl2].
    rewrite parse_And by reflexivity. rewrite parse_And by reflexivity.
    rewrite (stable_login_to_ssh2 _ _ _ H1), H1.
    rewrite parse_Optional by reflexivity.
    rewrite parse_And by reflexivity.
    rewrite (stable_Literal ":" _ _ _ _ ltac:(discriminate) Ha), Ha.
    change (s ++ (x :: W) ++ c :: rest) with (s ++ [] ++ x :: (W ++ c :: rest)).
    rewrite (_FINGER_PRINT_end_garbage _ _ _ _ [] x (W ++ c :: rest) Hb);
      [| assumption | assumption | constructor
       | apply white_not_fingerprint_char, Hx].
    rewrite (StringEnd_garbage _ l2 (drop l2 s ++ x :: W) c rest);
      [reflexivity | | apply Forall_app; auto | exact Hc].
    rewrite drop_app_le by exact Hl2. simpl. rewrite <- app_assoc. reflexivity.
  - exfalso. injection H2 as _ <-. apply Hfp.
    rewrite asDict_dict_of. apply dict_of_absent. simpl. rewrite !app_nil_r.
    apply (tokdict_not_named _ _ _ _ _ _ _ H1). decide_now.
Qed.


Lemma span_in_app_ge cs u t : span_in cs u ≤ span_in cs (u ++ t).
Proof.
  induction u as [|c u IH]; simpl; [lia |].
  destruct (char_in c cs); lia.
Qed.

(** The last character a word has taken. *)
Lemma Word_last cs mx s q l r :
  _parse false (Word cs mx) s q = Some (l, r) →
  q < l ∧ ∃ c, s !! (l - 1) = Some c ∧ c ∈ cs.
Proof.
  cbn [_parse skip_white].
  pose proof (span_in_take cs (drop q s)) as Hall.
  pose proof (span_in_le cs (drop q s)) as Hle.
  destruct (match mx with 0 => _ | S _ => _ end) as [|n] eqn:Hn;
    [discriminate |].
  intros [= <- _]. split; [lia |].
  assert (S n ≤ span_in cs (drop q s)) as Hn' by (destruct mx; lia).
  replace (q + S n - 1) with (q + n) by lia.
  rewrite <- lookup_drop.
  destruct (drop q s !! n) as [c|] eqn:Hc.
  - exists c. split; [reflexivity |].
    rewrite Forall_lookup in Hall. apply (Hall n).
    rewrite lookup_take_lt by lia. exact Hc.
  - apply lookup_ge_None_1 in Hc. lia.
Qed.

Lemma last_white_after s l c x :
  l ≤ length s → 0 < l → s !! (l - 1) = Some c → c ∉ DEFAULT_WHITE_CHARS →
  last s = Some x → x ∈ DEFAULT_WHITE_CHARS →
  ∃ y, s !! l = Some y.
Proof.
  intros Hl Hpos Hc Hcw Hlast Hx. rewrite last_lookup in Hlast.
  destruct (s !! l) as [y|] eqn:Hy; [eauto |].
  apply lookup_ge_None_1 in Hy. exfalso.
  replace (pred (length s)) with (l - 1) in Hlast by lia.
  congruence.
Qed.

Lemma last_app_white (s W : list ascii) x :
  last (s ++ W) = Some x → x ∈ DEFAULT_WHITE_CHARS →
  W ≠ [] ∨ (W = [] ∧ last s = Some x).
Proof.
  intros Hlast Hx. destruct W as [|y W]; [| left; discriminate].
  right. rewrite app_nil_r in Hlast. auto.
Qed.

(** A port of five digits is not changed by what follows it. *)
Lemma _PORT_full s loc l p t :
  _parse true _PORT s loc = Some (l, mkResults [p] [("port", p)]) →
  String.length p = 5 →
  _parse true _PORT (s ++ t) loc = Some (l, mkResults [p] [("port", p)]).
Proof.
  unfold _PORT. rewrite !parse_setResultsName. cbn [_parse skip_white].
  pose proof (span_in_le nums (drop (preParse DEFAULT_WHITE_CHARS s loc) s))
    as Hle.
  set (q := preParse DEFAULT_WHITE_CHARS s loc) in *.
  destruct (span_in nums (drop q s) `min` 5) as [|n] eqn:Hn; [discriminate |].
  intros [= <- Hp] Hlen.
  assert (S n = 5) as Hn5.
  { rewrite <- Hlen, <- Hp, length_text, length_take. lia. }
  rewrite length_drop in Hle.
  rewrite preParse_app by (fold q; lia). fold q.
  rewrite drop_app_le by lia.
  pose proof (span_in_app_ge nums (drop q s) t) as Hge.
  replace (span_in nums (drop q s ++ t) `min` 5) with (S n) by lia.
  rewrite take_app_le by (rewrite length_drop; lia).
  rewrite Hp. reflexivity.
Qed.

(** A fingerprint that stopped in front of a character it cannot take is not
    changed by what follows. *)
Lemma _FINGER_PRINT_stable s loc l r x t :
  _parse true _FINGER_PRINT s loc = Some (l, r) →
  s !! l = Some x → x ∉ chars ":" ++ hexnums →
  _parse true _FINGER_PRINT (s ++ t) loc = Some (l, r).
Proof.
  intros H Hx Hn. pose proof (lookup_lt_Some _ _ _ Hx) as Hl.
  unfold _FINGER_PRINT in *.
  rewrite parse_setResultsName, parse_Combine, parse_And_false,
    parse_Literal_false in *.
  cbn [skip_white] in *.
  set (q := preParse DEFAULT_WHITE_CHARS s loc) in *.
  destruct (startswith s "RSA " q) eqn:Hs; [| discriminate].
  unfold startswith in Hs. pose proof (starts_with_length _ _ Hs) as Hlen.
  rewrite length_drop in Hlen. simpl in Hlen.
  rewrite preParse_app by (fold q; lia). fold q.
  unfold startswith. rewrite drop_app_le by lia.
  rewrite starts_with_app, Hs by (rewrite length_drop; simpl; lia).
  destruct (_parse false (Word (chars ":" ++ hexnums) 0) s (q + String.length "RSA "))
    as [[l' r']|] eqn:Hw; [| discriminate].
  assert (l' = l) as -> by (injection H as -> _; reflexivity).
  assert (_parse false (Word (chars ":" ++ hexnums) 0) (s ++ t)
            (q + String.length "RSA ") = Some (l, r')) as ->; [| exact H].
  pose proof (parse_mono _ _ _ _ _ _ Hw) as Hmono. simpl in Hmono.
  rewrite <- Hw.
  rewrite <- (take_drop_middle s l x Hx) at 1 2.
  rewrite <- app_assoc. simpl app.
  rewrite !parse_cut; try reflexivity; try exact Hn;
    rewrite length_take_le by lia; simpl; lia.
Qed.

Lemma failed_trailing_all s l r W c rest :
  _parse true _FAILED_CONNECTION_GRAMMAR s 0 = Some (l, r) →
  Forall white W → c ∉ DEFAULT_WHITE_CHARS →
  (∃ x, last (s ++ W) = Some x ∧ x ∈ DEFAULT_WHITE_CHARS)
  ∨ c ∉ nums
  ∨ (∃ p, asDict r !! "port" = Some p ∧ String.length p = 5) →
  _parse true _FAILED_CONNECTION_GRAMMAR (s ++ W ++ c :: rest) 0 = None.
Proof.
  intros H HW Hc [(x & Hlast & Hx) | [Hn | (p & Hp & Hlen)]].
  - apply last_app_white in Hlast as [Hne | [-> Hlast]]; [| | exact Hx].
    { apply (failed_trailing_text s l r W c rest H HW Hc). left. exact Hne. }
    rewrite _FAILED_CONNECTION_GRAMMAR_eq in *.
    apply parse_And_Some in H as (l2 & r12 & r3 & H & H3 & _); [| reflexivity].
    apply parse_And_Some in H as (l1 & r1 & r2 & H1 & H2 & _); [| reflexivity].
    pose proof (parse_bound failed_to_port eq_refl _ _ _ _ _ H1 ltac:(lia))
      as [_ Hl1].
    pose proof (parse_bound _PORT eq_refl _ _ _ _ _ H2 Hl1) as [_ Hl2].
    pose proof (StringEnd_Some _ _ _ _ H3) as Hd.
    pose proof H2 as Hword. unfold _PORT in Hword.
    rewrite parse_setResultsName in Hword. cbn [_parse skip_white] in Hword.
    destruct (match span_in nums _ `min` 5 with 0 => None | S n => _ end)
      as [[lw rw]|] eqn:Hw; [| discriminate].
    assert (lw = l2) as -> by (injection Hword as -> _; reflexivity).
    destruct (Word_last nums 5 s _ l2 rw Hw) as (Hpos & d & Hd' & Hdn).
    destruct (last_white_after s l2 d x Hl2 ltac:(lia) Hd'
                (nums_not_white d Hdn) Hlast Hx) as [y Hy].
    assert (y ∈ DEFAULT_WHITE_CHARS) as Hyw.
    { rewrite Forall_lookup in Hd. apply (Hd 0).
      rewrite lookup_drop, Nat.add_0_r. exact Hy. }
    rewrite parse_And by reflexivity. rewrite parse_And by reflexivity.
    rewrite (stable_failed_to_port _ _ _ H1), H1.
    rewrite (stable_lexeme _PORT s l1 l2 r2 y eq_refl eq_refl H2 Hy), H2
      by (intros Hin; exact (nums_not_white y Hin Hyw)).
    rewrite (StringEnd_garbage _ l2 (drop l2 s) c rest);
      [reflexivity | | exact Hd | exact Hc].
    rewrite drop_app_le by exact Hl2. reflexivity.
  - apply (failed_trailing_text s l r W c rest H HW Hc). right. exact Hn.
  - rewrite _FAILED_CONNECTION_GRAMMAR_eq in *.
    apply parse_And_Some in H as (l2 & r12 & r3 & H & H3 & ->); [| reflexivity].
    apply parse_And_Some in H as (l1 & r1 & r2 & H1 & H2 & ->); [| reflexivity].
    pose proof (parse_bound failed_to_port eq_refl _ _ _ _ _ H1 ltac:(lia))
      as [_ Hl1].
    pose proof (parse_bound _PORT eq_refl _ _ _ _ _ H2 Hl1) as [_ Hl2].
    pose proof (StringEnd_Some _ _ _ _ H3) as Hd.
    apply StringEnd_result in H3 as ->.
    destruct (_PORT_result _ _ _ _ H2) as (p' & -> & _).
    assert (p' = p) as ->.
    { revert Hp. rewrite asDict_dict_of. simpl. rewrite app_nil_r, dict_of_snoc.
      rewrite lookup_insert_eq. congruence. }
    rewrite parse_And by reflexivity. rewrite parse_And by reflexivity.
    rewrite (stable_failed_to_port _ _ _ H1), H1.
    rewrite (_PORT_full _ _ _ _ (W ++ c :: rest) H2 Hlen).
    rewrite (StringEnd_garbage _ l2 (drop l2 s ++ W) c rest);
      [reflexivity | | apply Forall_app; auto | exact Hc].
    rewrite drop_app_le by exact Hl2. rewrite <- app_assoc. reflexivity.
Qed.

Lemma login_trailing_fingerprint_all s l r W c rest :
  _parse true _LOGIN_GRAMMAR s 0 = Some (l, r) →
  asDict r !! "fingerprint" ≠ None →
  Forall white W → c ∉ DEFAULT_WHITE_CHARS →
  (∃ x, last (s ++ W) = Some x ∧ x ∈ DEFAULT_WHITE_CHARS)
  ∨ c ∉ chars ":" ++ hexnums →
  _parse true _LOGIN_GRAMMAR (s ++ W ++ c :: rest) 0 = None.
Proof.
  intros H Hfp HW Hc [(x & Hlast & Hx) | Hn].
  - apply last_app_white in Hlast as [Hne | [-> Hlast]]; [| | exact Hx].
    { apply (login_trailing_fingerprint s l r W c rest H Hfp HW Hc).
      left. exact Hne. }
    rewrite _LOGIN_GRAMMAR_eq in *.
    apply parse_And_Some in H as (l2 & r12 & r3 & H & H3 & ->); [| reflexivity].
    apply parse_And_Some in H as (l1 & r1 & r2 & H1 & H2 & ->); [| reflexivity].
    pose proof (parse_bound login_to_ssh2 eq_refl _ _ _ _ _ H1 ltac:(lia))
      as [_ Hl1].
    pose proof (StringEnd_Some _ _ _ _ H3) as Hd.
    apply StringEnd_result in H3 as ->.
    rewrite parse_Optional in H2 by reflexivity.
    destruct (_parse true (Literal ":" + _FINGER_PRINT) s l1)
      as [[l2' r2']|] eqn:Hin.
    + injection H2 as -> ->.
      apply parse_And_Some in Hin as (la & ra & rb & Ha & Hb & _);
        [| reflexivity].
      pose proof (parse_bound (Literal ":") eq_refl _ _ _ _ _ Ha Hl1)
        as [_ Hla].
      pose proof (parse_bound _FINGER_PRINT eq_refl _ _ _ _ _ Hb Hla)
        as [_ Hl2].
      pose proof Hb as Hword. unfold _FINGER_PRINT in Hword.
      rewrite parse_setResultsName, parse_Combine, parse_And_false,
        parse_Literal_false in Hword.
      cbn [skip_white] in Hword.
      destruct (startswith s "RSA " _); [| discriminate].
      destruct (_parse false (Word (chars ":" ++ hexnums) 0) s _)
        as [[lw rw]|] eqn:Hw; [| discriminate].
      assert (lw = l2) as -> by (injection Hword as -> _; reflexivity).
      destruct (Word_last _ 0 s _ l2 rw Hw) as (Hpos & d & Hd' & Hdn).
      assert (d ∉ DEFAULT_WHITE_CHARS) as Hdw.
      { intros Hin. exact (white_not_fingerprint_char d Hin Hdn). }
      destruct (last_white_after s l2 d x Hl2 ltac:(lia) Hd' Hdw Hlast Hx)
        as [y Hy].
      assert (y ∈ DEFAULT_WHITE_CHARS) as Hyw.
      { rewrite Forall_lookup in Hd. apply (Hd 0).
        rewrite lookup_drop, Nat.add_0_r. exact Hy. }
      rewrite parse_And by reflexivity. rewrite parse_And by reflexivity.
      rewrite (stable_login_to_ssh2 _ _ _ H1), H1.
      rewrite parse_Optional by reflexivity.
      rewrite parse_And by reflexivity.
      rewrite (stable_Literal ":" _ _ _ _ ltac:(discriminate) Ha), Ha.
      rewrite (_FINGER_PRINT_stable s la l2 rb y _ Hb Hy
                 (white_not_fingerprint_char y Hyw)).
      rewrite (StringEnd_garbage _ l2 (drop l2 s) c rest);
        [reflexivity | | exact Hd | exact Hc].
      rewrite drop_app_le by exact Hl2. reflexivity.
    + exfalso. injection H2 as _ <-. apply Hfp.
      rewrite asDict_dict_of. apply dict_of_absent. simpl. rewrite !app_nil_r.
      apply (tokdict_not_named _ _ _ _ _ _ _ H1). decide_now.
  - apply (login_trailing_fingerprint s l r W c rest H Hfp HW Hc).
    right. exact Hn.
Qed.

Lemma last_expandtabs col s x :
  last s = Some x → x ∈ DEFAULT_WHITE_CHARS →
  ∃ y, last (expandtabs_from col s) = Some y ∧ y ∈ DEFAULT_WHITE_CHARS.
Proof.
  intros Hlast Hx.
  destruct (last_Some s x) as [(s0 & ->) _]; [exact Hlast |].
  destruct (expandtabs_from_app_all col s0) as [c1 E]. rewrite E.
  assert (∃ u y, expandtabs_from c1 [x] = u ++ [y] ∧ y ∈ DEFAULT_WHITE_CHARS)
    as (u & y & -> & Hy).
  { rewrite expandtabs_from_cons. destruct (Ascii.eqb x TAB).
    - assert (∃ n, 8 - c1 mod 8 = S n) as [n ->].
      { pose proof (Nat.mod_upper_bound c1 8). exists (7 - c1 mod 8). lia. }
      exists (replicate n SPACE), SPACE. split; [| decide_now].
      simpl. rewrite app_nil_r.
      change (SPACE :: replicate n SPACE) with (replicate (S n) SPACE).
      rewrite replicate_S_end. reflexivity.
    - exists [], x. split; [| exact Hx].
      destruct (Ascii.eqb x LF || Ascii.eqb x CR); reflexivity. }
  exists y. rewrite app_assoc, last_snoc. auto.
Qed.

Lemma expandtabs_trailing_last (body W : string) c rest :
  all_white W → c ∉ DEFAULT_WHITE_CHARS →
  ∃ W' rest',
    expandtabs (chars (body +:+ W +:+ String c rest))
    = expandtabs (chars body) ++ W' ++ c :: rest'
    ∧ Forall white W'
    ∧ (ends_in_white (body +:+ W) →
       ∃ x, last (expandtabs (chars body) ++ W') = Some x
            ∧ x ∈ DEFAULT_WHITE_CHARS).
Proof.
  intros HW Hc. rewrite !chars_app. unfold expandtabs, ends_in_white.
  destruct (expandtabs_from_app_all 0 (chars body)) as [c1 E1].
  destruct (expandtabs_from_app_all c1 (chars W)) as [c2 E2].
  rewrite E1, E2.
  destruct (expandtabs_from_head c2 c (chars rest)) as [rest' Hr].
  simpl chars. rewrite Hr.
  destruct (Ascii.eqb_spec c TAB) as [-> |].
  - exfalso. apply Hc, white_cases. auto.
  - eexists _, _. split; [reflexivity |].
    split; [apply expandtabs_from_white, HW |].
    intros (x & Hlast & Hx). rewrite chars_app in Hlast.
    rewrite <- E1. apply (last_expandtabs 0 _ x Hlast Hx).
Qed.

(** C3 (as amended): after a body matched by the failed_connection grammar,
    white space and then a character that is not white space make the
    grammar fail whenever the text before that character ends in white space
    (so whenever some white space is appended), or the character is not a
    decimal digit, or the port already has five digits.  After a body
    matched by the login grammar without fingerprint they make it fail
    whenever the character is not a colon; with a fingerprint, whenever the
    text before the character ends in white space or the character is
    neither a colon nor a hex digit.  A body matched by the
    opened_connection grammar is still matched, with the same named tokens,
    when a line break and any text follow it. *)
Theorem C3_trailing_text :
  (∀ (body W : string) c (rest : string) r,
     parseString _LOGIN_GRAMMAR body = Some r →
     asDict r !! "fingerprint" = None →
     all_white W → c ∉ DEFAULT_WHITE_CHARS → c ≠ ":"%char →
     parseString _LOGIN_GRAMMAR (body +:+ W +:+ String c rest) = None)
  ∧ (∀ (body W : string) c (rest : string) r,
       parseString _LOGIN_GRAMMAR body = Some r →
       asDict r !! "fingerprint" ≠ None →
       all_white W → c ∉ DEFAULT_WHITE_CHARS →
       W ≠ "" ∨ ends_in_white (body +:+ W) ∨ c ∉ chars ":" ++ hexnums →
       parseString _LOGIN_GRAMMAR (body +:+ W +:+ String c rest) = None)
  ∧ (∀ (body W : string) c (rest : string) r,
       parseString _FAILED_CONNECTION_GRAMMAR body = Some r →
       all_white W → c ∉ DEFAULT_WHITE_CHARS →
       W ≠ "" ∨ ends_in_white (body +:+ W) ∨ c ∉ nums
       ∨ (∃ p, asDict r !! "port" = Some p ∧ String.length p = 5) →
       parseString _FAILED_CONNECTION_GRAMMAR (body +:+ W +:+ String c rest)
         = None)
  ∧ (∀ (body rest : string) r,
       parseString _OPENED_CONNECTION_GRAMMAR body = Some r →
       ∃ r', parseString _OPENED_CONNECTION_GRAMMAR (body +:+ String LF rest)
               = Some r'
             ∧ asDict r' = asDict r).
Proof.
  split; [| split; [| split]].
  - intros body W c rest r [l H]%parseString_Some Hno HW Hc Hn.
    unfold parseString.
    destruct (expandtabs_trailing_gap body W c rest HW Hc)
      as (W' & rest' & -> & HW' & _).
    rewrite (login_trailing_plain _ _ _ W' c rest' H); auto.
  - intros body W c rest r [l H]%parseString_Some Hfp HW Hc Hor.
    unfold parseString.
    destruct Hor as [HW0 | Hor].
    { destruct (expandtabs_trailing_gap body W c rest HW Hc)
        as (W' & rest' & -> & HW' & Hne).
      rewrite (login_trailing_fingerprint _ _ _ W' c rest' H); auto. }
    destruct (expandtabs_trailing_last body W c rest HW Hc)
      as (W' & rest' & -> & HW' & Hlast).
    rewrite (login_trailing_fingerprint_all _ _ _ W' c rest' H); auto.
    destruct Hor as [He | Hn]; [left; exact (Hlast He) | right; exact Hn].
  - intros body W c rest r [l H]%parseString_Some HW Hc Hor.
    unfold parseString.
    destruct Hor as [HW0 | Hor].
    { destruct (expandtabs_trailing_gap body W c rest HW Hc)
        as (W' & rest' & -> & HW' & Hne).
      rewrite (failed_trailing_text _ _ _ W' c rest' H); auto. }
    destruct (expandtabs_trailing_last body W c rest HW Hc)
      as (W' & rest' & -> & HW' & Hlast).
    rewrite (failed_trailing_all _ _ _ W' c rest' H); auto.
    destruct Hor as [He | [Hn | Hp]];
      [left; exact (Hlast He) | right; left; exact Hn | right; right; exact Hp].
  - intros body rest r H. unfold parseString in *.
    destruct (_parse true _OPENED_CONNECTION_GRAMMAR (expandtabs (chars body)) 0)
      as [[l r0]|] eqn:H0; [| discriminate].
    injection H as <-. rewrite expandtabs_line_break.
    destruct (opened_line_break _ _ _ (expandtabs (chars rest)) H0)
      as (l' & toks & ->).
    eexists. split; reflexivity.
Qed.

Lemma C3_trailing_text_witness :
  parseString _LOGIN_GRAMMAR
    ("Accepted password for alice from 10.0.0.5 port 22 ssh2"
     +:+ "" +:+ String "a" "") = None
  ∧ parseString _LOGIN_GRAMMAR
      ("Accepted password for alice from 10.0.0.5 port 22 ssh2: RSA aa:bb"
       +:+ " " +:+ String "c" "c") = None
  ∧ parseString _FAILED_CONNECTION_GRAMMAR
      ("Failed password for root from 192.168.1.1 port 22"
       +:+ " " +:+ String "5" "") = None
  ∧ parseString _FAILED_CONNECTION_GRAMMAR
      ("Failed password for root from 192.168.1.1 port 22222"
       +:+ "" +:+ String "5" "") = None
  ∧ ∃ r', parseString _OPENED_CONNECTION_GRAMMAR
            ("Connection from 2001:db8::1 port 22" +:+ String LF "more text")
            = Some r'
          ∧ asDict r'
            = asDict
                (mkResults ["Connection from"; "2001:db8::1"; "port"; "22"]
                   [("address", "2001:db8::1"); ("port", "22")]).
Proof.
  split; [| split; [| split; [| split]]].
  - eapply (proj1 C3_trailing_text).
    + vm_compute. reflexivity.
    + vm_compute. reflexivity.
    + constructor.
    + decide_now.
    + discriminate.
  - eapply (proj1 (proj2 C3_trailing_text)).
    + vm_compute. reflexivity.
    + vm_compute. discriminate.
    + unfold all_white. decide_now.
    + decide_now.
    + left. discriminate.
  - eapply (proj1 (proj2 (proj2 C3_trailing_text))).
    + vm_compute. reflexivity.
    + unfold all_white. decide_now.
    + decide_now.
    + left. discriminate.
  - eapply (proj1 (proj2 (proj2 C3_trailing_text))).
    + vm_compute. reflexivity.
    + constructor.
    + decide_now.
    + right. right. right. exists "22222". split; vm_compute; reflexivity.
  - apply (proj2 (proj2 (proj2 C3_trailing_text))). vm_compute. reflexivity.
Defined.
